(** * Tiered conversational memory: a shallow embedding of [app/memory_manager.py]

    The development models the [MemoryManager] class (Redis hot tier, MongoDB
    durable tier, language-model collaborator) as state-passing functions
    over an explicit world, and proves the properties of ingestion,
    escalation, session transfer and context assembly. *)

From Stdlib Require Import ZArith NArith Ascii String Decimal DecimalFacts DecimalPos Lia.
From stdpp Require Import base option list gmap.

Local Open Scope Z_scope.

(** ** Python strings

    A Python [str] is a sequence of Unicode code points. *)

Abbreviation pystr := (list N).

(** An ASCII literal of the source, as a [str]. *)
Definition py (s : string) : pystr :=
  (fun a => N_of_ascii a) <$> list_ascii_of_string s.

Fixpoint str_eqb (a b : pystr) : bool :=
  match a, b with
  | [], [] => true
  | x :: a', y :: b' => N.eqb x y && str_eqb a' b'
  | _, _ => false
  end.

(** [str.isspace] on one code point. *)
Definition is_space (c : N) : bool :=
  ((9 <=? c) && (c <=? 13) || (28 <=? c) && (c <=? 32)
   || (c =? 133) || (c =? 160) || (c =? 5760)
   || (8192 <=? c) && (c <=? 8202)
   || (c =? 8232) || (c =? 8233) || (c =? 8239) || (c =? 8287)
   || (c =? 12288))%N.

Fixpoint lstrip (s : pystr) : pystr :=
  match s with
  | c :: s' => if is_space c then lstrip s' else s
  | [] => []
  end.

Definition rstrip (s : pystr) : pystr := reverse (lstrip (reverse s)).

(** [s.strip()] *)
Definition strip (s : pystr) : pystr := rstrip (lstrip s).

(** [s.split(sep)] for a one-character separator: never the empty list. *)
Fixpoint split_on (sep : N) (s : pystr) : list pystr :=
  match s with
  | [] => [[]]
  | c :: s' =>
      if N.eqb c sep then [] :: split_on sep s'
      else match split_on sep s' with
           | h :: t => (c :: h) :: t
           | [] => [[c]]
           end
  end.

(** [s.startswith(p)] *)
Fixpoint startswith (p s : pystr) : bool :=
  match p, s with
  | [], _ => true
  | x :: p', y :: s' => N.eqb x y && startswith p' s'
  | _ :: _, [] => false
  end.

(** [sep.join(l)] *)
Fixpoint join (sep : pystr) (l : list pystr) : pystr :=
  match l with
  | [] => []
  | [x] => x
  | x :: l' => x ++ sep ++ join sep l'
  end.

Definition nl : N := 10%N.

(** *** Decimal text of integers: [str(n)] and Redis' integer strings *)

Fixpoint digits_of_uint (d : uint) : pystr :=
  match d with
  | Nil => []
  | D0 d => 48%N :: digits_of_uint d
  | D1 d => 49%N :: digits_of_uint d
  | D2 d => 50%N :: digits_of_uint d
  | D3 d => 51%N :: digits_of_uint d
  | D4 d => 52%N :: digits_of_uint d
  | D5 d => 53%N :: digits_of_uint d
  | D6 d => 54%N :: digits_of_uint d
  | D7 d => 55%N :: digits_of_uint d
  | D8 d => 56%N :: digits_of_uint d
  | D9 d => 57%N :: digits_of_uint d
  end.

Definition digit_of (c : N) : option (uint -> uint) :=
  match c with
  | 48 => Some D0 | 49 => Some D1 | 50 => Some D2 | 51 => Some D3
  | 52 => Some D4 | 53 => Some D5 | 54 => Some D6 | 55 => Some D7
  | 56 => Some D8 | 57 => Some D9
  | _ => None
  end%N.

Fixpoint uint_of_digits (s : pystr) : option uint :=
  match s with
  | [] => Some Nil
  | c :: s' =>
      match digit_of c, uint_of_digits s' with
      | Some d, Some r => Some (d r)
      | _, _ => None
      end
  end.

(** [str(z)] for a Python [int]. *)
Definition str_of_int (z : Z) : pystr :=
  match z with
  | Z0 => [48%N]
  | Zpos p => digits_of_uint (Pos.to_uint p)
  | Zneg p => 45%N :: digits_of_uint (Pos.to_uint p)
  end.

Definition int64_min : Z := - 2 ^ 63.
Definition int64_max : Z := 2 ^ 63 - 1.

Definition leading_nonzero (s : pystr) : bool :=
  match s with
  | c :: _ => ((49 <=? c) && (c <=? 57))%N
  | [] => false
  end.

Definition in_int64 (v : Z) : option Z :=
  if (int64_min <=? v) && (v <=? int64_max) then Some v else None.

(** How Redis reads a string value as a signed 64-bit integer: an optional
    minus sign, then digits with no leading zero; the lone text of zero. *)
Definition parse_int64 (s : pystr) : option Z :=
  if str_eqb s [48%N] then Some 0
  else match s with
       | [] => None
       | c :: ds =>
           if N.eqb c 45 then
             if leading_nonzero ds then
               match uint_of_digits ds with
               | Some d => in_int64 (- Z.of_N (Pos.of_uint d))
               | None => None
               end
             else None
           else
             if leading_nonzero s then
               match uint_of_digits s with
               | Some d => in_int64 (Z.of_N (Pos.of_uint d))
               | None => None
               end
             else None
       end.

(** ** Results and exceptions *)

Inductive result (A : Type) : Type :=
  | Ok (a : A)
  | Exc (e : pystr).
Arguments Ok {A} a.
Arguments Exc {A} e.

(** ** The hot tier: a Redis keyspace *)

Inductive rval : Type :=
  | RList (l : list pystr)
  | RStr (s : pystr).

Definition wrongtype : pystr :=
  py "WRONGTYPE Operation against a key holding the wrong kind of value".
Definition not_an_integer : pystr :=
  py "value is not an integer or out of range".
Definition incr_overflow : pystr :=
  py "increment or decrement would overflow".

Module Redis.

Abbreviation keyspace := (gmap pystr rval).

(** Redis list ranges: inclusive bounds, negative offsets count from the
    tail, out-of-range bounds are clamped. *)
Definition slice (l : list pystr) (start stop : Z) : list pystr :=
  let len := Z.of_nat (length l) in
  let start := if start <? 0 then Z.max 0 (len + start) else start in
  let stop := if stop <? 0 then len + stop else stop in
  let stop := Z.min stop (len - 1) in
  if (stop <? start) || (len <=? start) then []
  else take (Z.to_nat (stop - start + 1)) (drop (Z.to_nat start) l).

Definition store_list (k : pystr) (l : list pystr) (m : keyspace) : keyspace :=
  match l with
  | [] => delete k m
  | _ => <[k := RList l]> m
  end.

Definition lpush (k v : pystr) (m : keyspace) : result Z * keyspace :=
  match m !! k with
  | None => (Ok 1, <[k := RList [v]]> m)
  | Some (RList l) => (Ok (Z.of_nat (S (length l))), <[k := RList (v :: l)]> m)
  | Some (RStr _) => (Exc wrongtype, m)
  end.

Definition rpush (k v : pystr) (m : keyspace) : result Z * keyspace :=
  match m !! k with
  | None => (Ok 1, <[k := RList [v]]> m)
  | Some (RList l) => (Ok (Z.of_nat (S (length l))), <[k := RList (l ++ [v])]> m)
  | Some (RStr _) => (Exc wrongtype, m)
  end.

Definition ltrim (k : pystr) (start stop : Z) (m : keyspace) : result unit * keyspace :=
  match m !! k with
  | None => (Ok tt, m)
  | Some (RList l) => (Ok tt, store_list k (slice l start stop) m)
  | Some (RStr _) => (Exc wrongtype, m)
  end.

Definition lrange (k : pystr) (start stop : Z) (m : keyspace)
  : result (list pystr) * keyspace :=
  match m !! k with
  | None => (Ok [], m)
  | Some (RList l) => (Ok (slice l start stop), m)
  | Some (RStr _) => (Exc wrongtype, m)
  end.

Definition del (k : pystr) (m : keyspace) : result Z * keyspace :=
  match m !! k with
  | None => (Ok 0, m)
  | Some _ => (Ok 1, delete k m)
  end.

Definition get (k : pystr) (m : keyspace) : result (option pystr) * keyspace :=
  match m !! k with
  | None => (Ok None, m)
  | Some (RStr s) => (Ok (Some s), m)
  | Some (RList _) => (Exc wrongtype, m)
  end.

Definition set (k v : pystr) (m : keyspace) : result unit * keyspace :=
  (Ok tt, <[k := RStr v]> m).

Definition incr (k : pystr) (m : keyspace) : result Z * keyspace :=
  match m !! k with
  | None => (Ok 1, <[k := RStr (str_of_int 1)]> m)
  | Some (RStr s) =>
      match parse_int64 s with
      | Some v =>
          if v <? int64_max
          then (Ok (v + 1), <[k := RStr (str_of_int (v + 1))]> m)
          else (Exc incr_overflow, m)
      | None => (Exc not_an_integer, m)
      end
  | Some (RList _) => (Exc wrongtype, m)
  end.

End Redis.

(** ** Documents of the durable tier and the world *)

(** A [Message] of [models.py]; the [datetime] is kept as its ISO-8601 text,
    which is what [isoformat()] hands to the serializer. *)
Record Message : Type := mkMessage {
  role : pystr;
  content : pystr;
  timestamp : pystr
}.

(** A row of the [chat_history] collection. *)
Record chat_doc : Type := mkChatDoc {
  cd_user_id : pystr;
  cd_conversation_id : pystr;
  cd_role : pystr;
  cd_content : pystr;
  cd_timestamp : pystr
}.

(** A row of the [long_term_memory] collection. *)
Record batch : Type := mkBatch {
  b_user_id : pystr;
  b_key_points : list pystr;
  b_source_conversation_id : pystr
}.

Inductive level : Type := INFO | ERROR.

(** The [json] module as an interface: decoded values, [json.loads] (which
    raises on malformed text), [json.dumps], the dict literal built by
    [add_message], and [str(d[key])] as used inside the f-strings (which
    raises when [d] is not subscriptable or lacks the key). *)
Class Json : Type := {
  json : Type;
  json_loads : pystr -> option json;
  json_dumps : json -> pystr;
  msg_dict : pystr -> pystr -> pystr -> json;
  item_str : json -> pystr -> option pystr
}.

(** What the development assumes of it: a serialized message dict decodes
    to itself, and its role and content are the strings it was built from. *)
Class JsonLaws `{Json} : Prop := {
  loads_dumps_msg r c t :
    json_loads (json_dumps (msg_dict r c t)) = Some (msg_dict r c t);
  item_role r c t : item_str (msg_dict r c t) (py "role") = Some r;
  item_content r c t : item_str (msg_dict r c t) (py "content") = Some c
}.

Section MemoryManager.

Context `{Json}.

(** A row of the [short_term_memory] collection. *)
Record snapshot : Type := mkSnapshot {
  s_messages : list json;
  s_slider_summary : pystr
}.

(** Everything the manager can observe or change: both stores, the
    schedule of store failures (one entry per store call, [Some e] makes
    the call raise [e]; an exhausted schedule means no failure), the
    scripted replies of the language model ([None] or an exhausted script
    makes the call raise), the prompts sent to it, and the log. *)
Record world : Type := mkWorld {
  redis : gmap pystr rval;
  chat_history : list chat_doc;
  short_term_memory : gmap (pystr * pystr) snapshot;
  long_term_memory : list batch;
  faults : list (option pystr);
  llm_script : list (option pystr);
  llm_calls : list pystr;
  logs : list (level * pystr)
}.

Definition set_redis (r : gmap pystr rval) (w : world) : world :=
  mkWorld r (chat_history w) (short_term_memory w) (long_term_memory w)
          (faults w) (llm_script w) (llm_calls w) (logs w).
Definition set_chat_history (h : list chat_doc) (w : world) : world :=
  mkWorld (redis w) h (short_term_memory w) (long_term_memory w)
          (faults w) (llm_script w) (llm_calls w) (logs w).
Definition set_short_term_memory (s : gmap (pystr * pystr) snapshot) (w : world) : world :=
  mkWorld (redis w) (chat_history w) s (long_term_memory w)
          (faults w) (llm_script w) (llm_calls w) (logs w).
Definition set_long_term_memory (l : list batch) (w : world) : world :=
  mkWorld (redis w) (chat_history w) (short_term_memory w) l
          (faults w) (llm_script w) (llm_calls w) (logs w).
Definition set_faults (f : list (option pystr)) (w : world) : world :=
  mkWorld (redis w) (chat_history w) (short_term_memory w) (long_term_memory w)
          f (llm_script w) (llm_calls w) (logs w).
Definition set_llm (s : list (option pystr)) (c : list pystr) (w : world) : world :=
  mkWorld (redis w) (chat_history w) (short_term_memory w) (long_term_memory w)
          (faults w) s c (logs w).
Definition set_logs (l : list (level * pystr)) (w : world) : world :=
  mkWorld (redis w) (chat_history w) (short_term_memory w) (long_term_memory w)
          (faults w) (llm_script w) (llm_calls w) l.

(** *** The monad of the [async] methods: state and exceptions *)

Definition M (A : Type) : Type := world -> result A * world.

Definition ret {A} (a : A) : M A := fun w => (Ok a, w).

Definition bind {A B} (m : M A) (k : A -> M B) : M B :=
  fun w => match m w with
           | (Ok a, w') => k a w'
           | (Exc e, w') => (Exc e, w')
           end.

Definition raise {A} (e : pystr) : M A := fun w => (Exc e, w).

(** [try: body  except Exception as e: handler e] *)
Definition try_except {A} (body : M A) (handler : pystr -> M A) : M A :=
  fun w => match body w with
           | (Ok a, w') => (Ok a, w')
           | (Exc e, w') => handler e w'
           end.

Notation "x <- m ;; k" := (bind m (fun x => k))
  (at level 100, m at next level, right associativity).
Notation "m ;;; k" := (bind m (fun _ => k))
  (at level 100, right associativity).

Definition lift {A} (r : result A) : M A := fun w => (r, w).

Fixpoint for_each {A} (l : list A) (body : A -> M unit) : M unit :=
  match l with
  | [] => ret tt
  | x :: l' => body x ;;; for_each l' body
  end.

Definition logger (lv : level) (msg : pystr) : M unit :=
  fun w => (Ok tt, set_logs (logs w ++ [(lv, msg)]) w).

(** One call to a store: the schedule decides whether it raises. *)
Definition next_fault (w : world) : option pystr * world :=
  match faults w with
  | [] => (None, w)
  | f :: fs => (f, set_faults fs w)
  end.

Definition redis_call {A} (op : Redis.keyspace -> result A * Redis.keyspace) : M A :=
  fun w => match next_fault w with
           | (Some e, w') => (Exc e, w')
           | (None, w') =>
               let '(r, m) := op (redis w') in (r, set_redis m w')
           end.

Definition mongo_call {A} (op : world -> A * world) : M A :=
  fun w => match next_fault w with
           | (Some e, w') => (Exc e, w')
           | (None, w') => let '(a, w'') := op w' in (Ok a, w'')
           end.

(** [await collection.insert_one(doc)] on [chat_history] *)
Definition chat_history_insert_one (d : chat_doc) : M unit :=
  mongo_call (fun w => (tt, set_chat_history (chat_history w ++ [d]) w)).

(** [await collection.insert_one(doc)] on [long_term_memory] *)
Definition long_term_memory_insert_one (b : batch) : M unit :=
  mongo_call (fun w => (tt, set_long_term_memory (long_term_memory w ++ [b]) w)).

(** [update_one(filter, {"$set": ...}, upsert=True)] on [short_term_memory] *)
Definition short_term_memory_upsert (u c : pystr) (s : snapshot) : M unit :=
  mongo_call (fun w =>
    (tt, set_short_term_memory (<[(u, c) := s]> (short_term_memory w)) w)).

(** [await collection.find_one(filter)] on [short_term_memory] *)
Definition short_term_memory_find_one (u c : pystr) : M (option snapshot) :=
  mongo_call (fun w => (short_term_memory w !! (u, c), w)).

(** [get_llm()], [await llm.ainvoke(prompt)] and [response.content]: the
    prompt is recorded, then the script decides between a reply and an
    exception. *)
Definition llm_ainvoke (prompt : pystr) : M pystr :=
  fun w =>
    let calls := llm_calls w ++ [prompt] in
    match llm_script w with
    | Some reply :: rest => (Ok reply, set_llm rest calls w)
    | None :: rest => (Exc (py "language model call failed"), set_llm rest calls w)
    | [] => (Exc (py "language model call failed"), set_llm [] calls w)
    end.

(** *** Key naming *)

(** [f"{conversation_id}"] when the argument may be [None]. *)
Definition fmt_opt (o : option pystr) : pystr :=
  match o with Some s => s | None => py "None" end.

(** [_get_redis_key]: "Generate Redis keys based on type". *)
Definition _get_redis_key (key_type user_id : pystr) (conversation_id : option pystr)
  : result pystr :=
  if str_eqb key_type (py "short_term") then
    Ok (py "short_term:" ++ user_id ++ py ":" ++ fmt_opt conversation_id)
  else if str_eqb key_type (py "slider_summary") then
    Ok (py "slider_summary:" ++ user_id ++ py ":" ++ fmt_opt conversation_id)
  else if str_eqb key_type (py "long_term") then
    Ok (py "long_term:" ++ user_id)
  else if str_eqb key_type (py "chat_history") then
    Ok (py "chat_history:" ++ user_id ++ py ":" ++ fmt_opt conversation_id)
  else if str_eqb key_type (py "message_count") then
    Ok (py "message_count:" ++ user_id ++ py ":" ++ fmt_opt conversation_id)
  else Exc (py "Unknown key type: " ++ key_type).

(** *** Ingestion *)

(** The loop shared by both escalations: decode every element, format it
    as [role: content], and skip the elements on which either step raises. *)
Definition format_turn (msg_json : pystr) : option pystr :=
  match json_loads msg_json with
  | Some msg_data =>
      match item_str msg_data (py "role"), item_str msg_data (py "content") with
      | Some r, Some c => Some (r ++ py ": " ++ c)
      | _, _ => None
      end
  | None => None
  end.

Definition conversation_lines (msgs : list pystr) : list pystr :=
  omap format_turn msgs.

(** [_update_short_term_memory]: "Update short-term memory with last 3-4
    messages". Its handler logs and does not raise. *)
Definition _update_short_term_memory (user_id conversation_id : pystr) : M unit :=
  try_except
    (chat_key <- lift (_get_redis_key (py "chat_history") user_id (Some conversation_id)) ;;
     short_key <- lift (_get_redis_key (py "short_term") user_id (Some conversation_id)) ;;
     recent_messages <- redis_call (Redis.lrange chat_key 0 3) ;;
     redis_call (Redis.del short_key) ;;;
     for_each (reverse recent_messages)
       (fun msg_json => redis_call (Redis.rpush short_key msg_json) ;;; ret tt))
    (fun e => logger ERROR (py "Error updating short-term memory: " ++ e)).

Definition slider_prompt (conversation_text : list pystr) : pystr :=
  py "Summarize the following conversation in 2-3 sentences, focusing on the key topics and important information:

" ++ join [nl] conversation_text ++ py "

Summary:".

(** [_generate_slider_summary]: "Generate slider summary of older
    conversations every 4th message"; it reads the "messages older than the
    last 4". *)
Definition _generate_slider_summary (user_id conversation_id : pystr) : M unit :=
  try_except
    (chat_key <- lift (_get_redis_key (py "chat_history") user_id (Some conversation_id)) ;;
     older_messages <- redis_call (Redis.lrange chat_key 4 (-1)) ;;
     match older_messages with
     | [] => ret tt
     | _ =>
         match conversation_lines (reverse older_messages) with
         | [] => ret tt
         | conversation_text =>
             response <- llm_ainvoke (slider_prompt conversation_text) ;;
             let summary := strip response in
             summary_key <- lift (_get_redis_key (py "slider_summary") user_id
                                    (Some conversation_id)) ;;
             redis_call (Redis.set summary_key summary) ;;;
             logger INFO (py "Generated slider summary for " ++ user_id
                            ++ py "/" ++ conversation_id)
         end
     end)
    (fun e => logger ERROR (py "Error generating slider summary: " ++ e)).

Definition long_term_prompt (conversation_text : list pystr) : pystr :=
  py "Extract exactly 5 key points from the following conversation. Focus on important information, preferences, facts, and context that would be useful to remember for future conversations.

" ++ join [nl] conversation_text ++ py "

Please provide exactly 5 key points in the following format:
- Point 1
- Point 2  
- Point 3
- Point 4
- Point 5

Key Points:".

(** The two bullet markers, [- ] and the round bullet U+2022 with a space. *)
Definition is_bullet (line : pystr) : bool :=
  startswith (py "- ") line || startswith [8226%N; 32%N] line.

Definition bullet_points (content : pystr) : list pystr :=
  omap (fun line =>
          let line := strip line in
          if is_bullet line then Some (strip (drop 2 line)) else None)
       (split_on nl content).

(** [while len(points) < 5: points.append(f"Context point {len(points) + 1}")];
    the loop runs at most five times. *)
Fixpoint pad_points (fuel : nat) (points : list pystr) : list pystr :=
  match fuel with
  | O => points
  | S fuel' =>
      if (length points <? 5)%nat
      then pad_points fuel'
             (points ++ [py "Context point " ++ str_of_int (Z.of_nat (length points) + 1)])
      else points
  end.

Definition extract_points (content : pystr) : list pystr :=
  take 5 (pad_points 5 (bullet_points content)).

(** [_generate_long_term_memory]: "Generate long-term memory points every
    8th message". *)
Definition _generate_long_term_memory (user_id conversation_id : pystr) : M unit :=
  try_except
    (chat_key <- lift (_get_redis_key (py "chat_history") user_id (Some conversation_id)) ;;
     recent_messages <- redis_call (Redis.lrange chat_key 0 7) ;;
     match recent_messages with
     | [] => ret tt
     | _ =>
         match conversation_lines (reverse recent_messages) with
         | [] => ret tt
         | conversation_text =>
             response <- llm_ainvoke (long_term_prompt conversation_text) ;;
             let content := strip response in
             let points := extract_points content in
             long_term_key <- lift (_get_redis_key (py "long_term") user_id None) ;;
             for_each points
               (fun point => redis_call (Redis.rpush long_term_key point) ;;; ret tt) ;;;
             long_term_memory_insert_one (mkBatch user_id points conversation_id) ;;;
             logger INFO (py "Generated long-term memory for " ++ user_id)
         end
     end)
    (fun e => logger ERROR (py "Error generating long-term memory: " ++ e)).

Definition msg_json_of (message : Message) : pystr :=
  json_dumps (msg_dict (role message) (content message) (timestamp message)).

Definition chat_doc_of (user_id conversation_id : pystr) (message : Message) : chat_doc :=
  mkChatDoc user_id conversation_id (role message) (content message) (timestamp message).

(** [add_message]: "Add message and trigger memory management". Its handler
    logs and raises the exception again. *)
Definition add_message (user_id conversation_id : pystr) (message : Message) : M unit :=
  try_except
    (let msg_json := msg_json_of message in
     chat_history_insert_one (chat_doc_of user_id conversation_id message) ;;;
     chat_key <- lift (_get_redis_key (py "chat_history") user_id (Some conversation_id)) ;;
     redis_call (Redis.lpush chat_key msg_json) ;;;
     redis_call (Redis.ltrim chat_key 0 7) ;;;
     _update_short_term_memory user_id conversation_id ;;;
     count_key <- lift (_get_redis_key (py "message_count") user_id (Some conversation_id)) ;;
     count <- redis_call (Redis.incr count_key) ;;
     logger INFO (py "Message count for " ++ user_id ++ py "/" ++ conversation_id
                    ++ py ": " ++ str_of_int count) ;;;
     (if count mod 4 =? 0
      then _generate_slider_summary user_id conversation_id else ret tt) ;;;
     (if count mod 8 =? 0
      then _generate_long_term_memory user_id conversation_id else ret tt))
    (fun e => logger ERROR (py "Error adding message: " ++ e) ;;; raise e).

(** *** Context assembly *)

Record context : Type := mkContext {
  short_term_messages : list json;
  slider_summary : pystr;
  long_term_points : list pystr;
  recent_history : list json
}.

Definition empty_context : context := mkContext [] [] [] [].

(** The reply of [GET], or the empty string when it is [None]. *)
Definition or_empty (o : option pystr) : pystr :=
  match o with Some s => s | None => [] end.

(** [get_context_for_search]: "Get all memory context for db_search tool".
    One handler for the whole body: it logs and returns the empty context. *)
Definition get_context_for_search (user_id conversation_id : pystr) : M context :=
  try_except
    (short_key <- lift (_get_redis_key (py "short_term") user_id (Some conversation_id)) ;;
     short_messages <- redis_call (Redis.lrange short_key 0 (-1)) ;;
     let short_term := omap json_loads short_messages in
     summary_key <- lift (_get_redis_key (py "slider_summary") user_id (Some conversation_id)) ;;
     summary <- redis_call (Redis.get summary_key) ;;
     long_term_key <- lift (_get_redis_key (py "long_term") user_id None) ;;
     points <- redis_call (Redis.lrange long_term_key 0 (-1)) ;;
     chat_key <- lift (_get_redis_key (py "chat_history") user_id (Some conversation_id)) ;;
     recent_messages <- redis_call (Redis.lrange chat_key 0 7) ;;
     ret (mkContext short_term (or_empty summary) points
                    (omap json_loads (reverse recent_messages))))
    (fun e => logger ERROR (py "Error getting context: " ++ e) ;;; ret empty_context).

(** *** Session transfer *)

(** [save_short_term_on_logout]: "Save short-term memory to MongoDB on
    logout". *)
Definition save_short_term_on_logout (user_id conversation_id : pystr) : M unit :=
  try_except
    (short_key <- lift (_get_redis_key (py "short_term") user_id (Some conversation_id)) ;;
     stored <- redis_call (Redis.lrange short_key 0 (-1)) ;;
     let messages := omap json_loads stored in
     summary_key <- lift (_get_redis_key (py "slider_summary") user_id (Some conversation_id)) ;;
     got <- redis_call (Redis.get summary_key) ;;
     let slider_summary := or_empty got in
     (match messages, slider_summary with
      | [], [] => ret tt
      | _, _ => short_term_memory_upsert user_id conversation_id
                  (mkSnapshot messages slider_summary)
      end) ;;;
     logger INFO (py "Saved short-term memory for " ++ user_id
                    ++ py "/" ++ conversation_id))
    (fun e => logger ERROR (py "Error saving short-term memory: " ++ e)).

(** [load_short_term_on_login]: "Load short-term memory from MongoDB on
    login". *)
Definition load_short_term_on_login (user_id conversation_id : pystr) : M unit :=
  try_except
    (doc <- short_term_memory_find_one user_id conversation_id ;;
     match doc with
     | Some doc =>
         short_key <- lift (_get_redis_key (py "short_term") user_id (Some conversation_id)) ;;
         redis_call (Redis.del short_key) ;;;
         for_each (s_messages doc)
           (fun msg_data => redis_call (Redis.rpush short_key (json_dumps msg_data)) ;;; ret tt) ;;;
         (match s_slider_summary doc with
          | [] => ret tt
          | summary =>
              summary_key <- lift (_get_redis_key (py "slider_summary") user_id
                                     (Some conversation_id)) ;;
              redis_call (Redis.set summary_key summary)
          end) ;;;
         logger INFO (py "Loaded short-term memory for " ++ user_id
                        ++ py "/" ++ conversation_id)
     | None => ret tt
     end)
    (fun e => logger ERROR (py "Error loading short-term memory: " ++ e)).

(** [clear_redis_on_logout]: "Clear Redis data on logout". *)
Definition clear_redis_on_logout (user_id conversation_id : pystr) : M unit :=
  try_except
    (k1 <- lift (_get_redis_key (py "short_term") user_id (Some conversation_id)) ;;
     k2 <- lift (_get_redis_key (py "slider_summary") user_id (Some conversation_id)) ;;
     k3 <- lift (_get_redis_key (py "chat_history") user_id (Some conversation_id)) ;;
     k4 <- lift (_get_redis_key (py "message_count") user_id (Some conversation_id)) ;;
     for_each [k1; k2; k3; k4] (fun key => redis_call (Redis.del key) ;;; ret tt) ;;;
     logger INFO (py "Cleared Redis data for " ++ user_id ++ py "/" ++ conversation_id))
    (fun e => logger ERROR (py "Error clearing Redis data: " ++ e)).

(** The two session endpoints of [main.py]; a raised [HTTPException] is the
    only way they report a failure to their caller. *)
Definition login_endpoint (user_id conversation_id : pystr) : M unit :=
  try_except
    (logger INFO (py "Login request: user=" ++ user_id ++ py ", conv=" ++ conversation_id) ;;;
     load_short_term_on_login user_id conversation_id)
    (fun e => logger ERROR (py "Login endpoint error: " ++ e) ;;;
              raise (py "Login failed")).

Definition logout_endpoint (user_id conversation_id : pystr) : M unit :=
  try_except
    (logger INFO (py "Logout request: user=" ++ user_id ++ py ", conv=" ++ conversation_id) ;;;
     save_short_term_on_logout user_id conversation_id ;;;
     clear_redis_on_logout user_id conversation_id)
    (fun e => logger ERROR (py "Logout endpoint error: " ++ e) ;;;
              raise (py "Logout failed")).

(** *** A conversation turn ([agent.py]) *)

Section Turn.

(** The compiled agent graph and the clock are collaborators: any
    state-passing function that may raise, and any reading of the time. *)
Variable agent_ainvoke : pystr -> pystr -> Message -> M (option pystr).
Variable utcnow : world -> pystr.

(** [Message(role=..., content=...)]: validation rejects a [None] content. *)
Definition new_message (r : pystr) (c : option pystr) : M Message :=
  fun w => match c with
           | Some c => (Ok (mkMessage r c (utcnow w)), w)
           | None => (Exc (py "1 validation error for Message"), w)
           end.

(** [process_conversation]: "Process a conversation turn". *)
Definition process_conversation (user_id conversation_id user_message : pystr) : M pystr :=
  try_except
    (user_msg <- new_message (py "human") (Some user_message) ;;
     add_message user_id conversation_id user_msg ;;;
     ai_response <- agent_ainvoke user_id conversation_id user_msg ;;
     ai_msg <- new_message (py "assistant") ai_response ;;
     add_message user_id conversation_id ai_msg ;;;
     ret (or_empty ai_response))
    (fun e =>
       let error_msg := py "I apologize, but I encountered an error: " ++ e in
       try_except
         (ai_msg <- new_message (py "assistant") (Some error_msg) ;;
          add_message user_id conversation_id ai_msg)
         (fun _ => ret tt) ;;;
       ret error_msg).

End Turn.

(** *** The remaining endpoints ([main.py]) *)

Section Endpoints.

Variable agent_ainvoke : pystr -> pystr -> Message -> M (option pystr).
Variable utcnow : world -> pystr.

(** [chat_endpoint]: "Main chat endpoint". *)
Definition chat_endpoint (user_id conversation_id message : pystr) : M pystr :=
  try_except
    (logger INFO (py "Chat request: user=" ++ user_id ++ py ", conv=" ++ conversation_id
                    ++ py ", msg='" ++ take 50 message ++ py "...'") ;;;
     response <- process_conversation agent_ainvoke utcnow
                   user_id conversation_id message ;;
     logger INFO (py "Chat response: user=" ++ user_id ++ py ", response='"
                    ++ take 50 response ++ py "...'") ;;;
     ret response)
    (fun e => logger ERROR (py "Chat endpoint error: " ++ e) ;;;
              raise (py "Internal server error")).

End Endpoints.

(** [get_memory_endpoint]: "Get current memory state for debugging". *)
Definition get_memory_endpoint (user_id conversation_id : pystr) : M context :=
  try_except
    (get_context_for_search user_id conversation_id)
    (fun e => logger ERROR (py "Memory endpoint error: " ++ e) ;;;
              raise (py "Failed to get memory state")).

(** *** Searching the memory ([agent.py]) *)

Section MemorySearch.

(** The text of the exception that [msg[key]] raises when the decoded value
    is not a dict or lacks the key. *)
Variable item_error : json -> pystr -> pystr.

Fixpoint map_m {A B} (f : A -> M B) (l : list A) : M (list B) :=
  match l with
  | [] => ret []
  | x :: l' => y <- f x ;; ys <- map_m f l' ;; ret (y :: ys)
  end.

(** [f"- {msg['role']}: {msg['content']}"] *)
Definition message_line (msg : json) : M pystr :=
  match item_str msg (py "role") with
  | Some r =>
      match item_str msg (py "content") with
      | Some c => ret (py "- " ++ r ++ py ": " ++ c)
      | None => raise (item_error msg (py "content"))
      end
  | None => raise (item_error msg (py "role"))
  end.

Definition summary_part (summary : pystr) : list pystr :=
  match summary with
  | [] => []
  | _ => [nl :: py "Conversation Summary: " ++ summary]
  end.

Definition points_part (points : list pystr) : list pystr :=
  match points with
  | [] => []
  | _ => (nl :: py "Long-term Memory Points:") :: ((fun point => py "- " ++ point) <$> points)
  end.

(** The query stands between two double quotes (code point 34). *)
Definition db_search_prompt (query context_str : pystr) : pystr :=
  py "Based on the following user's memory context, answer the query: "
  ++ [34%N] ++ query ++ [34%N] ++ py "

Context:
" ++ context_str ++ py "

Please provide a helpful response based on the available information. If the information is not sufficient, indicate what additional information might be needed.

Answer:".

(** [db_search]: "Search in the user's memory context from Redis". *)
Definition db_search (query user_id conversation_id : pystr) : M pystr :=
  try_except
    (context <- get_context_for_search user_id conversation_id ;;
     recent <- match short_term_messages context with
               | [] => ret []
               | msgs =>
                   lines <- map_m message_line msgs ;;
                   ret (py "Recent Messages:" :: lines)
               end ;;
     let context_parts :=
       recent ++ summary_part (slider_summary context)
              ++ points_part (long_term_points context) in
     match context_parts with
     | [] => ret (py "No relevant information found in memory.")
     | _ => llm_ainvoke (db_search_prompt query (join [nl] context_parts))
     end)
    (fun e => ret (py "Error searching memory: " ++ e)).

End MemorySearch.

(** Ingesting a list of turns one after the other, as long as none raises. *)
Definition ingest_all (user_id conversation_id : pystr) (turns : list Message) : M unit :=
  for_each turns (add_message user_id conversation_id).

(** *** Names used in the statements *)

Definition short_key (u c : pystr) : pystr := py "short_term:" ++ u ++ py ":" ++ c.
Definition summary_key (u c : pystr) : pystr := py "slider_summary:" ++ u ++ py ":" ++ c.
Definition long_term_key (u : pystr) : pystr := py "long_term:" ++ u.
Definition chat_key (u c : pystr) : pystr := py "chat_history:" ++ u ++ py ":" ++ c.
Definition count_key (u c : pystr) : pystr := py "message_count:" ++ u ++ py ":" ++ c.

(** The key holds the list [l]; an absent key is the empty list. *)
Definition list_at (m : Redis.keyspace) (k : pystr) (l : list pystr) : Prop :=
  m !! k = Some (RList l) \/ (m !! k = None /\ l = []).

(** The key holds the counter value [n]; an absent key counts as zero. *)
Definition count_at (m : Redis.keyspace) (k : pystr) (n : Z) : Prop :=
  m !! k = Some (RStr (str_of_int n)) \/ (m !! k = None /\ n = 0).

(** The prompts sent by the two escalations when the buffer holds [l]. *)
Definition slider_calls_of (l : list pystr) : list pystr :=
  match drop 4 l with
  | [] => []
  | older =>
      match conversation_lines (reverse older) with
      | [] => []
      | text => [slider_prompt text]
      end
  end.

Definition long_term_calls_of (l : list pystr) : list pystr :=
  match take 8 l with
  | [] => []
  | recent =>
      match conversation_lines (reverse recent) with
      | [] => []
      | text => [long_term_prompt text]
      end
  end.

(** [f"{role}: {content}"] of a turn. *)
Definition line_of (m : Message) : pystr := role m ++ py ": " ++ content m.

(** The buffer of a conversation, if there is one, has at most 8 entries. *)
Definition buffer_bounded (u c : pystr) (w : world) : Prop :=
  forall l, redis w !! chat_key u c = Some (RList l) -> (length l <= 8)%nat.

(** Ingestion attempts that go on after a failed one, as a server does:
    the number of attempts that returned normally, and the final world. *)
Fixpoint attempt_all (user_id conversation_id : pystr) (turns : list Message)
    (w : world) : nat * world :=
  match turns with
  | [] => (O, w)
  | t :: ts =>
      match add_message user_id conversation_id t w with
      | (Ok _, w1) =>
          let '(k, w') := attempt_all user_id conversation_id ts w1 in (S k, w')
      | (Exc _, w1) => attempt_all user_id conversation_id ts w1
      end
  end.

(** An untouched deployment: both stores empty, no failure scheduled. *)
Definition empty_world : world := mkWorld ∅ [] ∅ [] [] [] [] [].

(** *** Vocabulary of the proofs *)

(** [keeps R m]: whatever the failures, the world after [m] is related by
    [R] to the world before. *)
Definition keeps (R : world -> world -> Prop) {A} (m : M A) : Prop :=
  forall w, R w (snd (m w)).

(** Outside the keys [ks] the keyspace is untouched, and a run that starts
    with an exhausted failure schedule ends with one. *)
Definition frame (ks : list pystr) (w w' : world) : Prop :=
  (forall k, k ∉ ks -> redis w' !! k = redis w !! k) /\
  (faults w = [] -> faults w' = []).

(** A component of the world is unchanged. *)
Definition same {T} (f : world -> T) (w w' : world) : Prop := f w' = f w.

(** [total m]: the method never raises. *)
Definition total {A} (m : M A) : Prop := forall w, exists a, fst (m w) = Ok a.

(** The two append-only collections have kept their rows, in order. *)
Definition grows (w w' : world) : Prop :=
  chat_history w `prefix_of` chat_history w' /\
  long_term_memory w `prefix_of` long_term_memory w'.

(** The tail of [add_message] after the counter increment. *)
Definition escalate (u c : pystr) (count : Z) : M unit :=
  (if count mod 4 =? 0 then _generate_slider_summary u c else ret tt) ;;;
  (if count mod 8 =? 0 then _generate_long_term_memory u c else ret tt).

(** The prompts sent by that tail when the counter reads [count] and the
    buffer holds [l]. *)
Definition escalation_calls (count : Z) (l : list pystr) : list pystr :=
  (if count mod 4 =? 0 then slider_calls_of l else []) ++
  (if count mod 8 =? 0 then long_term_calls_of l else []).

(** The prompts sent while [turns] are ingested, starting from counter [n]
    and buffer [l]. *)
Fixpoint calls_spec (n : Z) (l : list pystr) (turns : list Message) : list pystr :=
  match turns with
  | [] => []
  | t :: ts =>
      let l' := take 8 (msg_json_of t :: l) in
      escalation_calls (n + 1) l' ++ calls_spec (n + 1) l' ts
  end.

(** The key holds the string [s]; an absent key reads as the empty string. *)
Definition str_at (m : Redis.keyspace) (k : pystr) (s : pystr) : Prop :=
  m !! k = Some (RStr s) \/ (m !! k = None /\ s = []).

(** The snapshot that logout writes for a window [l] and a summary [s]. *)
Definition snapshot_of (l : list pystr) (s : pystr) : option snapshot :=
  match omap json_loads l, s with
  | [], [] => None
  | msgs, _ => Some (mkSnapshot msgs s)
  end.

(** The durable tier after the upsert of [o], if any. *)
Definition put_snapshot (u c : pystr) (o : option snapshot) (w : world) : world :=
  match o with
  | Some d => set_short_term_memory (<[(u, c) := d]> (short_term_memory w)) w
  | None => w
  end.

(** The keyspace after [clear_redis_on_logout]. *)
Definition cleared (u c : pystr) (m : Redis.keyspace) : Redis.keyspace :=
  delete (count_key u c) (delete (chat_key u c)
    (delete (summary_key u c) (delete (short_key u c) m))).

(** The keyspace after login restores the snapshot [d]. *)
Definition restored (u c : pystr) (d : snapshot) (m : Redis.keyspace) : Redis.keyspace :=
  let m1 := Redis.store_list (short_key u c) (json_dumps <$> s_messages d) m in
  match s_slider_summary d with
  | [] => m1
  | s => <[summary_key u c := RStr s]> m1
  end.

(** The summary key still holds a string, and the long-term key a list that
    extends the old one, if they did before. *)
Definition kinds_kept (u c : pystr) (w w' : world) : Prop :=
  (forall s, str_at (redis w) (summary_key u c) s ->
             exists s', str_at (redis w') (summary_key u c) s') /\
  (forall p, list_at (redis w) (long_term_key u) p ->
             exists p', p `prefix_of` p' /\ list_at (redis w') (long_term_key u) p').

(** The dict that [add_message] serializes for a turn. *)
Definition msg_data_of (m : Message) : json :=
  msg_dict (role m) (content m) (timestamp m).

(** The number of model requests made by the first [n] ingestions into a
    conversation: a summary at every fourth one from the eighth on, an
    extraction at every eighth one. *)
Definition requests_after (n : Z) : Z := Z.max (n / 4 - 1) 0 + n / 8.

(** The operations a client can run against one conversation. *)
Inductive op : Type :=
| Ingest (m : Message)
| Login
| Logout
| GetContext.

Definition run_op (u c : pystr) (o : op) : M unit :=
  match o with
  | Ingest m => add_message u c m
  | Login => login_endpoint u c
  | Logout => logout_endpoint u c
  | GetContext => get_context_for_search u c ;;; ret tt
  end.

Definition run_ops (u c : pystr) (ops : list op) : M unit :=
  for_each ops (run_op u c).

(** What the buffer and the counter should be after each operation. *)
Fixpoint buffer_model (l : list pystr) (ops : list op) : list pystr :=
  match ops with
  | [] => l
  | Ingest m :: ops' => buffer_model (take 8 (msg_json_of m :: l)) ops'
  | Logout :: ops' => buffer_model [] ops'
  | _ :: ops' => buffer_model l ops'
  end.

Fixpoint count_model (n : Z) (ops : list op) : Z :=
  match ops with
  | [] => n
  | Ingest _ :: ops' => count_model (n + 1) ops'
  | Logout :: ops' => count_model 0 ops'
  | _ :: ops' => count_model n ops'
  end.

(** The texts [f"Context point {i}"] for positions 1 to 5. *)
Definition five_placeholders : list pystr :=
  (fun i => py "Context point " ++ str_of_int i) <$> [1; 2; 3; 4; 5].

(** A stored entry that is the serialization of the value it decodes to. *)
Definition well_formed (x : pystr) : Prop :=
  exists d, json_loads x = Some d /\ json_dumps d = x.

(** [raises m w]: the run of [m] from [w] ends in an exception. *)
Definition raises {A} (m : M A) (w : world) : Prop :=
  exists e w', m w = (Exc e, w').

(** The prompts of a run, computed on the turns themselves. *)
Definition slider_calls_msgs (ms : list Message) : list pystr :=
  match drop 4 ms with
  | [] => []
  | older => [slider_prompt (line_of <$> reverse older)]
  end.

Definition long_term_calls_msgs (ms : list Message) : list pystr :=
  match take 8 ms with
  | [] => []
  | recent => [long_term_prompt (line_of <$> reverse recent)]
  end.

Fixpoint calls_msgs (n : Z) (ms : list Message) (turns : list Message) : list pystr :=
  match turns with
  | [] => []
  | t :: ts =>
      let ms' := take 8 (t :: ms) in
      ((if (n + 1) mod 4 =? 0 then slider_calls_msgs ms' else []) ++
       (if (n + 1) mod 8 =? 0 then long_term_calls_msgs ms' else [])) ++
      calls_msgs (n + 1) ms' ts
  end.

(** *** The extractor's reply, in the words of the specification

    "Parses the returned text line-by-line, keeping only lines that are
    bullet-marked." The lines of a text are the pieces between its
    newlines; a line is bullet-marked when, its surrounding whitespace
    aside, it begins with a hyphen or a round bullet and a space; the point
    it gives is what follows the marker, without surrounding whitespace. *)
Definition lines_of (text : pystr) (lines : list pystr) : Prop :=
  lines <> [] /\ join [nl] lines = text /\ Forall (fun line => nl ∉ line) lines.

Definition spec_bullet_marked (line : pystr) : bool :=
  bool_decide (take 2 (strip line) = py "- ")
  || bool_decide (take 2 (strip line) = [8226%N; 32%N]).

Definition spec_kept_points (lines : list pystr) : list pystr :=
  (fun line => strip (drop 2 (strip line))) <$> List.filter spec_bullet_marked lines.

(** *** The steps of an ingestion *)

(** What [add_message] does before the buffer push, before the trim and
    before the counter increment. *)
Definition before_push (u c : pystr) (message : Message) : M unit :=
  chat_history_insert_one (chat_doc_of u c message).

Definition before_trim (u c : pystr) (message : Message) : M unit :=
  before_push u c message ;;;
  redis_call (Redis.lpush (chat_key u c) (msg_json_of message)) ;;;
  ret tt.

Definition before_count (u c : pystr) (message : Message) : M unit :=
  before_trim u c message ;;;
  redis_call (Redis.ltrim (chat_key u c) 0 7) ;;;
  _update_short_term_memory u c.

(** [strict m]: [m] has no handler of its own. It uses the failure schedule
    from the front, one entry per store call, and the first entry that is a
    failure ends it with that exception. *)
Definition strict {A} (m : M A) : Prop :=
  forall w, exists k,
    (k <= length (faults w))%nat /\
    faults (snd (m w)) = drop k (faults w) /\
    forall j e, (j < k)%nat -> faults w !! j = Some (Some e) ->
                S j = k /\ fst (m w) = Exc e.

End MemoryManager.

Notation "x <- m ;; k" := (bind m (fun x => k))
  (at level 100, m at next level, right associativity).
Notation "m ;;; k" := (bind m (fun _ => k))
  (at level 100, right associativity).

Arguments py : simpl never.
Arguments short_key : simpl never.
Arguments summary_key : simpl never.
Arguments long_term_key : simpl never.
Arguments chat_key : simpl never.
Arguments count_key : simpl never.

(** ** A concrete serializer for closed examples

    Role, content and timestamp behind two length prefixes: a stand-in for
    the [json] module that satisfies the same round-trip law. *)

Definition wire_dumps (d : pystr * pystr * pystr) : pystr :=
  let '(r, c, t) := d in
  N.of_nat (length r) :: N.of_nat (length c) :: r ++ c ++ t.

Definition wire_loads (s : pystr) : option (pystr * pystr * pystr) :=
  match s with
  | lr :: lc :: rest =>
      let lr := N.to_nat lr in
      let lc := N.to_nat lc in
      if (lr + lc <=? length rest)%nat
      then Some (take lr rest, take lc (drop lr rest), drop (lr + lc) rest)
      else None
  | _ => None
  end.

Definition wire_item (d : pystr * pystr * pystr) (k : pystr) : option pystr :=
  let '(r, c, t) := d in
  if str_eqb k (py "role") then Some r
  else if str_eqb k (py "content") then Some c
  else if str_eqb k (py "timestamp") then Some t
  else None.

Definition wire : Json :=
  {| json := pystr * pystr * pystr;
     json_loads := wire_loads;
     json_dumps := wire_dumps;
     msg_dict := fun r c t => (r, c, t);
     item_str := wire_item |}.

(** Data for the closed examples. *)

Definition demo_user : pystr := py "U".
Definition demo_conv : pystr := py "C".

Definition turn (i : N) : Message :=
  mkMessage (if N.even i then py "assistant" else py "human")
            (py "message " ++ [48 + i]%N)
            (py "2024-01-01T00:00:0" ++ [48 + i]%N).

Definition five_turns : list Message := turn <$> [1; 2; 3; 4; 5]%N.
Definition eight_turns : list Message := turn <$> [1; 2; 3; 4; 5; 6; 7; 8]%N.

(** A conversation with one stored turn and a summary, under a given
    failure schedule and model script. *)
Definition demo_redis : gmap pystr rval :=
  <[summary_key demo_user demo_conv := RStr (py "earlier talk")]>
    (<[short_key demo_user demo_conv := RList [@msg_json_of wire (turn 1)]]>
       (<[chat_key demo_user demo_conv := RList [@msg_json_of wire (turn 1)]]> ∅)).

Definition demo_world (fs script : list (option pystr)) : @world wire :=
  @mkWorld wire demo_redis [] ∅ [] fs script [] [].

Definition demo_reply : pystr := py "Here you are:
- likes tea
-   lives in Oslo  
not a bullet".

Definition demo_agent : pystr -> pystr -> Message -> @M wire (option pystr) :=
  fun _ _ _ => ret (Some (py "hello")).

Definition demo_clock : @world wire -> pystr := fun _ => py "2024-01-01T00:00:00".


(** A conversation whose buffer holds eight turns, and an agent that fails. *)
Definition demo_full_world (fs script : list (option pystr)) : @world wire :=
  @mkWorld wire
    (<[chat_key demo_user demo_conv := RList (reverse (@msg_json_of wire <$> eight_turns))]> ∅)
    [] ∅ [] fs script [] [].

Definition failing_agent : pystr -> pystr -> Message -> @M wire (option pystr) :=
  fun _ _ _ => raise (py "model unavailable").

(** A world that holds only a snapshot of two messages and a summary. *)
Definition demo_snapshot_world : @world wire :=
  @mkWorld wire ∅ []
    {[ (demo_user, demo_conv) :=
         @mkSnapshot wire [@msg_data_of wire (turn 1); @msg_data_of wire (turn 2)]
                     (py "earlier talk") ]}
    [] [] [] [] [].
(** ** Properties *)

(** *** Decimal text *)

Lemma uint_of_digits_of_uint (d : uint) : uint_of_digits (digits_of_uint d) = Some d.
Proof. induction d; simpl; try rewrite IHd; reflexivity. Qed.

Lemma pos_to_uint_unorm (p : positive) : unorm (Pos.to_uint p) = Pos.to_uint p.
Proof.
  rewrite <- (DecimalPos.Unsigned.to_of (Pos.to_uint p)).
  rewrite DecimalPos.Unsigned.of_to. reflexivity.
Qed.

Lemma leading_nonzero_to_uint (p : positive) :
  leading_nonzero (digits_of_uint (Pos.to_uint p)) = true.
Proof.
  pose proof (pos_to_uint_unorm p) as Hn.
  pose proof (DecimalPos.Unsigned.to_uint_nonzero p) as Hz.
  destruct (Pos.to_uint p) as [|d|d|d|d|d|d|d|d|d|d] eqn:E; try reflexivity.
  - discriminate Hn.
  - exfalso. rewrite unorm_D0 in Hn. unfold unorm in Hn.
    destruct (nzhead d) eqn:En; try discriminate Hn.
    + injection Hn as <-. apply Hz. reflexivity.
    + apply (nzhead_nonzero d u). congruence.
Qed.

Lemma digits_head (d : uint) c s :
  digits_of_uint d = c :: s -> (48 <= c <= 57)%N.
Proof. destruct d; simpl; intros [= <- _]; lia. Qed.

Lemma parse_int64_str_of_nonneg (z : Z) :
  0 <= z -> parse_int64 (str_of_int z) = in_int64 z.
Proof.
  intros Hlo. destruct z as [|p|p]; [reflexivity| |lia].
  unfold parse_int64, str_of_int.
  pose proof (leading_nonzero_to_uint p) as Hl.
  destruct (digits_of_uint (Pos.to_uint p)) as [|c s] eqn:E; [discriminate Hl|].
  pose proof (digits_head _ _ _ E) as Hc.
  assert (str_eqb (c :: s) [48%N] = false) as ->.
  { simpl in Hl |- *. destruct (N.eqb_spec c 48); [subst; discriminate Hl|reflexivity]. }
  destruct (N.eqb_spec c 45); [lia|].
  by rewrite Hl, <- E, uint_of_digits_of_uint, DecimalPos.Unsigned.of_to.
Qed.

Lemma parse_int64_str_of_int (z : Z) :
  0 <= z <= int64_max -> parse_int64 (str_of_int z) = Some z.
Proof.
  intros [Hlo Hhi]. rewrite parse_int64_str_of_nonneg by done. unfold in_int64.
  destruct (Z.leb_spec int64_min z), (Z.leb_spec z int64_max);
    simpl; try reflexivity; unfold int64_min in *; lia.
Qed.

(** *** Lists and Redis ranges *)

Lemma slice_prefix (l : list pystr) (n : Z) :
  0 <= n -> Redis.slice l 0 n = take (Z.to_nat (n + 1)) l.
Proof.
  intros Hn. unfold Redis.slice.
  replace (0 <? 0) with false by reflexivity.
  replace (n <? 0) with false by (symmetry; apply Z.ltb_ge; lia).
  destruct l as [|x l].
  { rewrite take_nil. destruct (_ || _); [done|]. by rewrite drop_nil, take_nil. }
  set (len := Z.of_nat (length (x :: l))).
  assert (0 < len) by (unfold len; simpl; lia).
  replace (len <=? 0) with false by (symmetry; apply Z.leb_gt; lia).
  replace (Z.min n (len - 1) <? 0) with false by (symmetry; apply Z.ltb_ge; lia).
  cbn [orb]. rewrite drop_0.
  destruct (Z.le_gt_cases n (len - 1)).
  - rewrite Z.min_l by lia. f_equal. lia.
  - rewrite Z.min_r by lia. rewrite !take_ge; [done| |]; unfold len in *; lia.
Qed.

Lemma slice_from (l : list pystr) (n : Z) :
  0 <= n -> Redis.slice l n (-1) = drop (Z.to_nat n) l.
Proof.
  intros Hn. unfold Redis.slice.
  replace (n <? 0) with false by (symmetry; apply Z.ltb_ge; lia).
  replace (-1 <? 0) with true by reflexivity.
  set (len := Z.of_nat (length l)).
  rewrite Z.min_r by lia.
  destruct (Z.leb_spec len n); [rewrite orb_true_r|rewrite orb_false_r].
  - rewrite drop_ge; [done|unfold len in *; lia].
  - match goal with |- context [?a <? n] => destruct (Z.ltb_spec a n) end; [lia|].
    apply take_ge. rewrite length_drop. unfold len in *. lia.
Qed.

Lemma slice_nil (a b : Z) : Redis.slice [] a b = [].
Proof.
  unfold Redis.slice. destruct (_ || _); [done|]. by rewrite drop_nil, take_nil.
Qed.

Lemma take_cons_take (x : pystr) (l : list pystr) (n m : nat) :
  (n <= S m)%nat -> take n (x :: take m l) = take n (x :: l).
Proof.
  intros Hn. destruct n; [done|]. simpl. f_equal.
  rewrite take_take. f_equal. lia.
Qed.

Lemma last_four (l : list pystr) :
  reverse (take 4 (reverse l)) = drop (length l - 4) l.
Proof. by rewrite take_reverse, reverse_involutive. Qed.

(** *** Keys *)

Section Proofs.

Context `{Json}.

#[local] Set Warnings "-clear-no-such-hyp".

Lemma get_key_short u c : _get_redis_key (py "short_term") u (Some c) = Ok (short_key u c).
Proof. reflexivity. Qed.
Lemma get_key_summary u c :
  _get_redis_key (py "slider_summary") u (Some c) = Ok (summary_key u c).
Proof. reflexivity. Qed.
Lemma get_key_long u : _get_redis_key (py "long_term") u None = Ok (long_term_key u).
Proof. reflexivity. Qed.
Lemma get_key_chat u c : _get_redis_key (py "chat_history") u (Some c) = Ok (chat_key u c).
Proof. reflexivity. Qed.
Lemma get_key_count u c : _get_redis_key (py "message_count") u (Some c) = Ok (count_key u c).
Proof. reflexivity. Qed.

Ltac key_neq :=
  let E := fresh in
  unfold short_key, summary_key, long_term_key, chat_key, count_key;
  intros E; apply (f_equal (take 2)) in E; vm_compute in E; discriminate E.

Lemma keys_distinct u c :
  chat_key u c <> short_key u c /\ chat_key u c <> summary_key u c /\
  chat_key u c <> count_key u c /\ chat_key u c <> long_term_key u /\
  short_key u c <> summary_key u c /\ short_key u c <> count_key u c /\
  short_key u c <> long_term_key u /\ summary_key u c <> count_key u c /\
  summary_key u c <> long_term_key u /\ count_key u c <> long_term_key u.
Proof. repeat split; key_neq. Qed.

(** *** Running the monad *)

Lemma set_redis_set_redis (a b : gmap pystr rval) (w : world) :
  set_redis a (set_redis b w) = set_redis a w.
Proof. reflexivity. Qed.

Lemma set_redis_id (w : world) : set_redis (redis w) w = w.
Proof. by destruct w. Qed.

Lemma redis_call_run {A} (op : Redis.keyspace -> result A * Redis.keyspace) (w : world) :
  faults w = [] ->
  redis_call op w = (fst (op (redis w)), set_redis (snd (op (redis w))) w).
Proof.
  intros Hf. unfold redis_call, next_fault. rewrite Hf.
  by destruct (op (redis w)).
Qed.

Lemma bind_run {A B} (m : M A) (k : A -> M B) (w w' : world) (a : A) :
  m w = (Ok a, w') -> bind m k w = k a w'.
Proof. intros E. unfold bind. by rewrite E. Qed.

Lemma bind_raise {A B} (m : M A) (k : A -> M B) (w w' : world) e :
  m w = (Exc e, w') -> bind m k w = (Exc e, w').
Proof. intros E. unfold bind. by rewrite E. Qed.

Lemma rpush_all (k : pystr) (xs : list pystr) (x : pystr) (w : world) (l0 : list pystr) :
  faults w = [] -> list_at (redis w) k l0 ->
  for_each (x :: xs) (fun y => redis_call (Redis.rpush k y) ;;; ret tt) w
  = (Ok tt, set_redis (<[k := RList (l0 ++ x :: xs)]> (redis w)) w).
Proof.
  revert x w l0. induction xs as [|x' xs IH]; intros x w l0 Hf Hl.
  - cbn [for_each]. unfold bind at 1 2. rewrite redis_call_run by done.
    unfold Redis.rpush, ret.
    destruct Hl as [-> | [-> ->]]; reflexivity.
  - cbn [for_each] in *. unfold bind at 1 2. rewrite redis_call_run by done.
    assert (Redis.rpush k x (redis w) =
            (Ok (Z.of_nat (S (length l0))), <[k := RList (l0 ++ [x])]> (redis w))) as ->.
    { unfold Redis.rpush. destruct Hl as [-> | [-> ->]]; reflexivity. }
    cbn [fst snd]. unfold ret at 1.
    rewrite (IH x' _ (l0 ++ [x])).
    + cbn [redis set_redis]. rewrite insert_insert_eq, <- app_assoc. reflexivity.
    + done.
    + left. cbn [redis set_redis]. apply lookup_insert_eq.
Qed.

Lemma bind_step {A B} (m : M A) (k : A -> M B) (w w' : world) (a : A) R :
  m w = (Ok a, w') -> k a w' = R -> bind m k w = R.
Proof. intros E <-. by apply bind_run. Qed.

Lemma try_ok {A} (body : M A) (h : pystr -> M A) (w w' : world) (a : A) :
  body w = (Ok a, w') -> try_except body h w = (Ok a, w').
Proof. intros E. unfold try_except. by rewrite E. Qed.

Lemma try_exc {A} (body : M A) (h : pystr -> M A) (w w' : world) e :
  body w = (Exc e, w') -> try_except body h w = h e w'.
Proof. intros E. unfold try_except. by rewrite E. Qed.

Ltac wsimpl :=
  cbn [redis chat_history short_term_memory long_term_memory faults llm_script
       llm_calls logs set_redis set_chat_history set_short_term_memory
       set_long_term_memory set_faults set_llm set_logs fst snd] in *.

Lemma lrange_run (k : pystr) (a b : Z) (w : world) (l : list pystr) :
  faults w = [] -> list_at (redis w) k l ->
  redis_call (Redis.lrange k a b) w = (Ok (Redis.slice l a b), w).
Proof.
  intros Hf Hl. rewrite redis_call_run by done. unfold Redis.lrange.
  destruct Hl as [-> | [-> ->]]; cbn [fst snd]; rewrite ?slice_nil; by rewrite set_redis_id.
Qed.

Lemma del_run (k : pystr) (w : world) :
  faults w = [] ->
  exists n, redis_call (Redis.del k) w = (Ok n, set_redis (delete k (redis w)) w).
Proof.
  intros Hf. rewrite redis_call_run by done. unfold Redis.del.
  destruct (redis w !! k) eqn:E; cbn [fst snd]; eexists; [done|].
  by rewrite delete_id.
Qed.

Lemma lpush_run (k v : pystr) (w : world) (l : list pystr) :
  faults w = [] -> list_at (redis w) k l ->
  exists n, redis_call (Redis.lpush k v) w
            = (Ok n, set_redis (<[k := RList (v :: l)]> (redis w)) w).
Proof.
  intros Hf Hl. rewrite redis_call_run by done. unfold Redis.lpush.
  destruct Hl as [-> | [-> ->]]; cbn [fst snd]; by eexists.
Qed.

Lemma ltrim_run (k : pystr) (w : world) (l : list pystr) (x : pystr) :
  faults w = [] -> redis w !! k = Some (RList (x :: l)) ->
  redis_call (Redis.ltrim k 0 7) w
  = (Ok tt, set_redis (<[k := RList (take 8 (x :: l))]> (redis w)) w).
Proof.
  intros Hf Hl. rewrite redis_call_run by done. unfold Redis.ltrim.
  rewrite Hl. cbn [fst snd]. by rewrite slice_prefix.
Qed.

Lemma incr_run (k : pystr) (w : world) (n : Z) :
  faults w = [] -> count_at (redis w) k n -> 0 <= n < int64_max ->
  redis_call (Redis.incr k) w
  = (Ok (n + 1), set_redis (<[k := RStr (str_of_int (n + 1))]> (redis w)) w).
Proof.
  intros Hf Hc Hn. rewrite redis_call_run by done. unfold Redis.incr.
  destruct Hc as [-> | [-> ->]]; [|done].
  rewrite parse_int64_str_of_int by lia.
  by replace (n <? int64_max) with true by (symmetry; apply Z.ltb_lt; lia).
Qed.

Lemma set_run (k v : pystr) (w : world) :
  faults w = [] ->
  redis_call (Redis.set k v) w = (Ok tt, set_redis (<[k := RStr v]> (redis w)) w).
Proof. intros Hf. by rewrite redis_call_run. Qed.

Lemma get_run (k : pystr) (w : world) (s : pystr) :
  faults w = [] -> redis w !! k = Some (RStr s) ->
  redis_call (Redis.get k) w = (Ok (Some s), w).
Proof.
  intros Hf Hl. rewrite redis_call_run by done. unfold Redis.get.
  rewrite Hl. cbn [fst snd]. by rewrite set_redis_id.
Qed.

Lemma get_run_none (k : pystr) (w : world) :
  faults w = [] -> redis w !! k = None ->
  redis_call (Redis.get k) w = (Ok None, w).
Proof.
  intros Hf Hl. rewrite redis_call_run by done. unfold Redis.get.
  rewrite Hl. cbn [fst snd]. by rewrite set_redis_id.
Qed.

Lemma mongo_call_run {A} (op : world -> A * world) (w : world) :
  faults w = [] -> mongo_call op w = (Ok (fst (op w)), snd (op w)).
Proof.
  intros Hf. unfold mongo_call, next_fault. rewrite Hf. by destruct (op w).
Qed.

(** *** The short-term rebuild *)

Lemma update_short_term_run u c (w : world) (x : pystr) (l : list pystr) :
  faults w = [] -> redis w !! chat_key u c = Some (RList (x :: l)) ->
  _update_short_term_memory u c w
  = (Ok tt, set_redis (<[short_key u c := RList (reverse (take 4 (x :: l)))]> (redis w)) w).
Proof.
  intros Hf Hl. unfold _update_short_term_memory. apply try_ok.
  rewrite get_key_chat. eapply bind_step; [reflexivity|cbn beta].
  rewrite get_key_short. eapply bind_step; [reflexivity|cbn beta].
  eapply bind_step; [apply lrange_run; [done|by left]|cbn beta].
  destruct (del_run (short_key u c) w Hf) as [n Hd].
  eapply bind_step; [apply Hd|cbn beta].
  rewrite slice_prefix by lia. change (Z.to_nat (3 + 1)) with 4%nat.
  destruct (reverse (take 4 (x :: l))) as [|y ys] eqn:E.
  { apply (f_equal length) in E. rewrite length_reverse in E. discriminate E. }
  erewrite (rpush_all _ ys y _ []); [|done|].
  - wsimpl. by rewrite insert_delete_eq.
  - right. wsimpl. by rewrite lookup_delete_eq.
Qed.

(** *** What a method leaves alone

    [keeps R m]: whatever the failures, the world after [m] is related by
    [R] to the world before. *)

#[local] Instance frame_preorder ks : PreOrder (frame ks).
Proof.
  split.
  - by intros w.
  - intros w1 w2 w3 [H1 F1] [H2 F2]. split.
    + intros k Hk. by rewrite H2, H1.
    + auto.
Qed.

#[local] Instance same_preorder {T} (f : world -> T) : PreOrder (same f).
Proof.
  split; [by intros w|]. unfold same. intros w1 w2 w3 H1 H2. congruence.
Qed.

Section Keeps.

Context (R : world -> world -> Prop) `{!PreOrder R}.

Lemma keeps_ret {A} (a : A) : keeps R (ret a).
Proof. intros w. reflexivity. Qed.

Lemma keeps_raise {A} e : keeps R (@raise _ A e).
Proof. intros w. reflexivity. Qed.

Lemma keeps_lift {A} (r : result A) : keeps R (lift r).
Proof. intros w. reflexivity. Qed.

Lemma keeps_bind {A B} (m : M A) (k : A -> M B) :
  keeps R m -> (forall a, keeps R (k a)) -> keeps R (bind m k).
Proof.
  intros Hm Hk w. unfold bind. specialize (Hm w).
  destruct (m w) as [[a|e] w1]; cbn [snd] in *; [|done].
  etransitivity; [apply Hm|apply Hk].
Qed.

Lemma keeps_try {A} (body : M A) (h : pystr -> M A) :
  keeps R body -> (forall e, keeps R (h e)) -> keeps R (try_except body h).
Proof.
  intros Hm Hh w. unfold try_except. specialize (Hm w).
  destruct (body w) as [[a|e] w1]; cbn [snd] in *; [done|].
  etransitivity; [apply Hm|apply Hh].
Qed.

Lemma keeps_for_each {A} (l : list A) (body : A -> M unit) :
  (forall x, keeps R (body x)) -> keeps R (for_each l body).
Proof.
  intros Hb. induction l as [|x l IH]; cbn [for_each].
  - apply keeps_ret.
  - apply keeps_bind; auto.
Qed.

End Keeps.

Lemma total_try_logger (body : M unit) (f : pystr -> pystr) :
  total (try_except body (fun e => logger ERROR (f e))).
Proof.
  intros w. unfold try_except. destruct (body w) as [[a|e] w1]; by eexists.
Qed.

Lemma total_run {A} (m : M A) (w : world) :
  total m -> exists a, m w = (Ok a, snd (m w)).
Proof. intros Ht. destruct (Ht w) as [a Ha]. exists a. destruct (m w). simpl in *. congruence. Qed.

(** The primitives, one relation at a time. *)

Lemma redis_op_local (k : pystr) (k' : pystr) (m : Redis.keyspace) :
  k' <> k ->
  (forall v, snd (Redis.lpush k v m) !! k' = m !! k') /\
  (forall v, snd (Redis.rpush k v m) !! k' = m !! k') /\
  (forall a b, snd (Redis.ltrim k a b m) !! k' = m !! k') /\
  (forall a b, snd (Redis.lrange k a b m) !! k' = m !! k') /\
  snd (Redis.del k m) !! k' = m !! k' /\
  snd (Redis.get k m) !! k' = m !! k' /\
  (forall v, snd (Redis.set k v m) !! k' = m !! k') /\
  snd (Redis.incr k m) !! k' = m !! k'.
Proof.
  intros Hk.
  unfold Redis.lpush, Redis.rpush, Redis.ltrim, Redis.lrange, Redis.del, Redis.get,
    Redis.set, Redis.incr, Redis.store_list.
  repeat split; intros; repeat case_match; cbn [snd];
    rewrite ?lookup_insert_ne, ?lookup_delete_ne by done; done.
Qed.

Lemma redis_read_only (k : pystr) (m : Redis.keyspace) :
  (forall a b, snd (Redis.lrange k a b m) = m) /\ snd (Redis.get k m) = m.
Proof. unfold Redis.lrange, Redis.get. split; intros; by repeat case_match. Qed.

Lemma keeps_frame_redis {A} (ks : list pystr) (op : Redis.keyspace -> result A * Redis.keyspace) :
  (forall m k, k ∉ ks -> snd (op m) !! k = m !! k) ->
  keeps (frame ks) (redis_call op).
Proof.
  intros Hop w. unfold redis_call, next_fault, frame.
  destruct (faults w) as [|[e|] fs] eqn:Ef; cbn [snd];
    try destruct (op _) as [r m'] eqn:Eo; wsimpl; try done.
  - split; [|done]. intros k Hk. specialize (Hop (redis w) k Hk). by rewrite Eo in Hop.
  - split; [|done]. intros k Hk. specialize (Hop (redis w) k Hk). by rewrite Eo in Hop.
Qed.

Lemma keeps_frame_mongo {A} (ks : list pystr) (op : world -> A * world) :
  (forall w, redis (snd (op w)) = redis w /\ faults (snd (op w)) = faults w) ->
  keeps (frame ks) (mongo_call op).
Proof.
  intros Hop w. unfold mongo_call, next_fault, frame.
  destruct (faults w) as [|[e|] fs] eqn:Ef; cbn [snd]; wsimpl; try done.
  - destruct (Hop w) as [Hr Hf]. destruct (op w) as [a w']. wsimpl.
    rewrite Hr, Hf. done.
  - destruct (Hop (set_faults fs w)) as [Hr Hf]. destruct (op _) as [a w']. wsimpl.
    rewrite Hr. done.
Qed.

Lemma keeps_frame_logger (ks : list pystr) lv msg : keeps (frame ks) (logger lv msg).
Proof. intros w. by split. Qed.

Lemma keeps_frame_llm (ks : list pystr) p : keeps (frame ks) (llm_ainvoke p).
Proof. intros w. unfold llm_ainvoke. by repeat case_match. Qed.

Lemma keeps_bind_lift (R : world -> world -> Prop) {A B} (a : A) (k : A -> M B) :
  keeps R (k a) -> keeps R (bind (lift (Ok a)) k).
Proof. intros Hk w. apply Hk. Qed.

Lemma keeps_same_prim {T} (f : world -> T) {A} (m : M A) :
  (forall w, f (snd (m w)) = f w) -> keeps (same f) m.
Proof. intros Hm w. apply Hm. Qed.

Ltac frame_key Hk := intros ->; apply Hk; set_solver.

Ltac keeps_leaf :=
  first
    [ apply keeps_frame_logger
    | apply keeps_frame_llm
    | apply keeps_frame_redis;
      let m := fresh "m" in let k := fresh "k" in let Hk := fresh "Hk" in
      intros m k Hk;
      first [ apply redis_op_local; frame_key Hk
            | apply (proj1 (proj2 (redis_op_local _ _ _ ltac:(frame_key Hk))))
            | apply (proj1 (proj2 (proj2 (redis_op_local _ _ _ ltac:(frame_key Hk)))))
            | apply (proj1 (proj2 (proj2 (proj2 (redis_op_local _ _ _ ltac:(frame_key Hk))))))
            | apply (proj1 (proj2 (proj2 (proj2 (proj2 (redis_op_local _ _ _ ltac:(frame_key Hk)))))))
            | apply (proj1 (proj2 (proj2 (proj2 (proj2 (proj2
                       (redis_op_local _ _ _ ltac:(frame_key Hk))))))))
            | apply (proj1 (proj2 (proj2 (proj2 (proj2 (proj2 (proj2
                       (redis_op_local _ _ _ ltac:(frame_key Hk)))))))))
            | apply (proj2 (proj2 (proj2 (proj2 (proj2 (proj2 (proj2
                       (redis_op_local _ _ _ ltac:(frame_key Hk))))))))) ]
    | apply keeps_frame_redis; intros ? ? _;
      first [ by rewrite (proj1 (redis_read_only _ _))
            | by rewrite (proj2 (redis_read_only _ _)) ]
    | apply keeps_frame_mongo; intros ?; by split
    | apply keeps_same_prim; intros ?;
      cbv [chat_history_insert_one long_term_memory_insert_one
           short_term_memory_upsert short_term_memory_find_one
           redis_call mongo_call next_fault logger llm_ainvoke];
      repeat case_match; simplify_eq; reflexivity ].

Ltac keeps_tac :=
  repeat
    (cbn [for_each];
     first
       [ apply keeps_for_each; [typeclasses eauto|intros ?]
       | apply keeps_ret; typeclasses eauto
       | apply keeps_raise; typeclasses eauto
       | apply keeps_lift; typeclasses eauto
       | progress rewrite ?get_key_chat, ?get_key_short, ?get_key_summary,
           ?get_key_long, ?get_key_count
       | apply keeps_bind_lift
       | apply keeps_bind; [typeclasses eauto| |intros ?]
       | apply keeps_try; [typeclasses eauto| |intros ?]
       | match goal with
         | |- keeps _ (match ?x with _ => _ end) => destruct x
         | |- keeps _ (if ?x then _ else _) => destruct x
         end
       | keeps_leaf ]).

Lemma update_short_term_frame u c :
  keeps (frame [short_key u c]) (_update_short_term_memory u c).
Proof. unfold _update_short_term_memory. keeps_tac. Qed.

Lemma slider_frame u c :
  keeps (frame [summary_key u c]) (_generate_slider_summary u c).
Proof. unfold _generate_slider_summary. keeps_tac. Qed.

Lemma slider_chat_history u c :
  keeps (same chat_history) (_generate_slider_summary u c).
Proof. unfold _generate_slider_summary. keeps_tac. Qed.

Lemma long_term_frame u c :
  keeps (frame [long_term_key u]) (_generate_long_term_memory u c).
Proof. unfold _generate_long_term_memory. keeps_tac. Qed.

Lemma long_term_chat_history u c :
  keeps (same chat_history) (_generate_long_term_memory u c).
Proof. unfold _generate_long_term_memory. keeps_tac. Qed.

Lemma update_short_term_total u c : total (_update_short_term_memory u c).
Proof. apply (total_try_logger _ (fun e => _ ++ e)). Qed.

Lemma slider_total u c : total (_generate_slider_summary u c).
Proof. apply (total_try_logger _ (fun e => _ ++ e)). Qed.

Lemma long_term_total u c : total (_generate_long_term_memory u c).
Proof. apply (total_try_logger _ (fun e => _ ++ e)). Qed.

(** *** The prompts sent by the escalations *)

Lemma slider_calls u c (w : world) (l : list pystr) :
  faults w = [] -> list_at (redis w) (chat_key u c) l ->
  llm_calls (snd (_generate_slider_summary u c w)) = llm_calls w ++ slider_calls_of l.
Proof.
  intros Hf Hl. unfold _generate_slider_summary, slider_calls_of.
  rewrite get_key_chat, get_key_summary.
  unfold try_except, bind at 1 2, lift at 1.
  rewrite (lrange_run _ _ _ _ l Hf Hl), slice_from by lia.
  change (Z.to_nat 4) with 4%nat.
  destruct (drop 4 l) as [|x older]; [by rewrite app_nil_r|].
  destruct (conversation_lines (reverse (x :: older))) as [|t text];
    [by rewrite app_nil_r|].
  unfold bind at 1, llm_ainvoke.
  destruct (llm_script w) as [|[reply|] rest]; try reflexivity.
  unfold bind, lift. rewrite set_run by done. reflexivity.
Qed.

Lemma long_term_calls u c (w : world) (l : list pystr) :
  faults w = [] -> list_at (redis w) (chat_key u c) l ->
  llm_calls (snd (_generate_long_term_memory u c w)) = llm_calls w ++ long_term_calls_of l.
Proof.
  intros Hf Hl. unfold _generate_long_term_memory, long_term_calls_of.
  rewrite get_key_chat, get_key_long.
  unfold try_except, bind at 1 2, lift at 1.
  rewrite (lrange_run _ _ _ _ l Hf Hl), slice_prefix by lia.
  change (Z.to_nat (7 + 1)) with 8%nat.
  destruct (take 8 l) as [|x recent]; [by rewrite app_nil_r|].
  destruct (conversation_lines (reverse (x :: recent))) as [|t text];
    [by rewrite app_nil_r|].
  set (rest := fun response : pystr => _).
  assert (forall r, keeps (same llm_calls) (rest r)) as Hrest.
  { intros r. unfold rest. keeps_tac. }
  unfold bind at 1, llm_ainvoke.
  destruct (llm_script w) as [|[reply|] tl]; try reflexivity.
  match goal with |- context [rest reply ?w1] => pose proof (Hrest reply w1) as Hk end.
  unfold same in Hk. destruct (rest reply _) as [[[]|e] w2]; cbn [snd] in Hk;
    (transitivity (llm_calls w2); [reflexivity|rewrite Hk; reflexivity]).
Qed.

(** *** One ingestion *)

Lemma frame_weaken (ks ks' : list pystr) (w w' : world) :
  ks ⊆ ks' -> frame ks w w' -> frame ks' w w'.
Proof.
  intros Hs [Hr Hf]. split; [|done]. intros k Hk. apply Hr. set_solver.
Qed.

Lemma list_at_frame (ks : list pystr) (w w' : world) (k : pystr) (l : list pystr) :
  frame ks w w' -> k ∉ ks -> list_at (redis w) k l -> list_at (redis w') k l.
Proof. intros [Hr _] Hk. unfold list_at. by rewrite Hr. Qed.

Lemma escalate_spec u c (count : Z) (w : world) (l : list pystr) :
  faults w = [] -> list_at (redis w) (chat_key u c) l ->
  exists w', escalate u c count w = (Ok tt, w') /\
    frame [summary_key u c; long_term_key u] w w' /\
    chat_history w' = chat_history w /\
    llm_calls w' = llm_calls w ++ escalation_calls count l.
Proof.
  intros Hf Hl. unfold escalate, escalation_calls.
  destruct (keys_distinct u c) as (_ & Hcs & _ & Hcl & _).
  assert (exists w1, (if count mod 4 =? 0 then _generate_slider_summary u c else ret tt) w
                     = (Ok tt, w1) /\ frame [summary_key u c] w w1 /\
                     chat_history w1 = chat_history w /\
                     llm_calls w1 = llm_calls w ++
                       (if count mod 4 =? 0 then slider_calls_of l else []))
    as (w1 & E1 & F1 & C1 & L1).
  { destruct (count mod 4 =? 0).
    - destruct (total_run _ w (slider_total u c)) as [[] E]. eexists. split; [exact E|].
      split; [apply slider_frame|]. split; [apply slider_chat_history|].
      by apply slider_calls.
    - exists w. repeat split; try done. by rewrite app_nil_r. }
  assert (faults w1 = []) as Hf1 by (by apply F1).
  assert (list_at (redis w1) (chat_key u c) l) as Hl1.
  { eapply list_at_frame; [exact F1| |done]. set_solver. }
  assert (exists w2, (if count mod 8 =? 0 then _generate_long_term_memory u c else ret tt) w1
                     = (Ok tt, w2) /\ frame [long_term_key u] w1 w2 /\
                     chat_history w2 = chat_history w1 /\
                     llm_calls w2 = llm_calls w1 ++
                       (if count mod 8 =? 0 then long_term_calls_of l else []))
    as (w2 & E2 & F2 & C2 & L2).
  { destruct (count mod 8 =? 0).
    - destruct (total_run _ w1 (long_term_total u c)) as [[] E]. eexists. split; [exact E|].
      split; [apply long_term_frame|]. split; [apply long_term_chat_history|].
      by apply long_term_calls.
    - exists w1. repeat split; try done. by rewrite app_nil_r. }
  exists w2. split; [|split; [|split]].
  - eapply bind_step; [exact E1|exact E2].
  - transitivity w1; eapply frame_weaken; try eassumption; set_solver.
  - congruence.
  - rewrite L2, L1, app_assoc. reflexivity.
Qed.

Lemma add_message_step u c (msg : Message) (w : world) (l : list pystr) (n : Z) :
  faults w = [] ->
  list_at (redis w) (chat_key u c) l ->
  count_at (redis w) (count_key u c) n ->
  0 <= n < int64_max ->
  exists w', add_message u c msg w = (Ok tt, w') /\
    faults w' = [] /\
    redis w' !! chat_key u c = Some (RList (take 8 (msg_json_of msg :: l))) /\
    redis w' !! short_key u c = Some (RList (reverse (take 4 (msg_json_of msg :: l)))) /\
    redis w' !! count_key u c = Some (RStr (str_of_int (n + 1))) /\
    chat_history w' = chat_history w ++ [chat_doc_of u c msg] /\
    llm_calls w' = llm_calls w ++ escalation_calls (n + 1) (take 8 (msg_json_of msg :: l)).
Proof.
  intros Hf Hl Hc Hn.
  destruct (keys_distinct u c) as (Hcs & Hcsum & Hcc & Hcl & Hssum & Hsc & Hsl & Hsumc & _ & Hcountl).
  set (j := msg_json_of msg).
  set (w1 := set_chat_history (chat_history w ++ [chat_doc_of u c msg]) w).
  set (w2 := set_redis (<[chat_key u c := RList (j :: l)]> (redis w1)) w1).
  set (w3 := set_redis (<[chat_key u c := RList (take 8 (j :: l))]> (redis w2)) w2).
  set (w4 := set_redis (<[short_key u c := RList (reverse (take 4 (take 8 (j :: l))))]>
                          (redis w3)) w3).
  set (w5 := set_redis (<[count_key u c := RStr (str_of_int (n + 1))]> (redis w4)) w4).
  set (w6 := set_logs (logs w5 ++ [(INFO, py "Message count for " ++ u ++ py "/" ++ c
                                            ++ py ": " ++ str_of_int (n + 1))]) w5).
  assert (list_at (redis w6) (chat_key u c) (take 8 (j :: l))) as Hl6.
  { left. unfold w6, w5, w4, w3. wsimpl.
    rewrite !lookup_insert_ne by done. apply lookup_insert_eq. }
  destruct (escalate_spec u c (n + 1) w6 _ Hf Hl6) as (w' & Ee & [Fr Ff] & Ech & Ecalls).
  exists w'. split; [|split; [|split; [|split; [|split; [|split]]]]].
  - unfold add_message. apply try_ok. cbn zeta. fold j.
    eapply bind_step.
    { unfold chat_history_insert_one. rewrite mongo_call_run by done. reflexivity. }
    cbn [fst snd]. fold w1. rewrite get_key_chat, get_key_count.
    eapply bind_step; [reflexivity|cbn beta].
    destruct (lpush_run (chat_key u c) j w1 l Hf Hl) as [m Hp].
    eapply bind_step; [exact Hp|cbn beta]. fold w2.
    eapply bind_step.
    { apply (ltrim_run _ w2 l j); [done|]. apply lookup_insert_eq. }
    cbn beta. fold w3.
    eapply bind_step.
    { apply (update_short_term_run u c w3 j (take 7 l)); [done|]. apply lookup_insert_eq. }
    cbn beta. fold w4.
    eapply bind_step; [reflexivity|cbn beta].
    eapply bind_step.
    { apply (incr_run _ w4 n); [done| |done].
      unfold count_at, w4, w3, w2, w1. wsimpl. by rewrite !lookup_insert_ne. }
    cbn beta. fold w5.
    eapply bind_step; [reflexivity|cbn beta]. fold w6.
    exact Ee.
  - by apply Ff.
  - rewrite Fr by set_solver. destruct Hl6 as [E|[_ E]]; [done|discriminate E].
  - rewrite Fr by set_solver. unfold w6, w5, w4. wsimpl.
    rewrite lookup_insert_ne by done. rewrite lookup_insert_eq.
    rewrite take_take. reflexivity.
  - rewrite Fr by set_solver. unfold w6, w5. wsimpl. apply lookup_insert_eq.
  - rewrite Ech. reflexivity.
  - rewrite Ecalls. reflexivity.
Qed.

(** *** A run of ingestions *)

Lemma take_app_take (a b : list pystr) (n : nat) :
  take n (a ++ take n b) = take n (a ++ b).
Proof. rewrite !take_app, take_take. do 2 f_equal. lia. Qed.

Lemma ingest_all_spec u c (ts : list Message) :
  forall (t : Message) (w : world) (l : list pystr) (n : Z),
  faults w = [] ->
  list_at (redis w) (chat_key u c) l ->
  count_at (redis w) (count_key u c) n ->
  0 <= n -> n + Z.of_nat (length (t :: ts)) <= int64_max ->
  let buffer := take 8 (reverse (msg_json_of <$> t :: ts) ++ l) in
  exists w', ingest_all u c (t :: ts) w = (Ok tt, w') /\
    faults w' = [] /\
    redis w' !! chat_key u c = Some (RList buffer) /\
    redis w' !! short_key u c = Some (RList (reverse (take 4 buffer))) /\
    redis w' !! count_key u c
      = Some (RStr (str_of_int (n + Z.of_nat (length (t :: ts))))) /\
    chat_history w' = chat_history w ++ (chat_doc_of u c <$> t :: ts) /\
    llm_calls w' = llm_calls w ++ calls_spec n l (t :: ts).
Proof.
  induction ts as [|t' ts IH]; intros t w l n Hf Hl Hc Hn Hmax buffer.
  - destruct (add_message_step u c t w l n Hf Hl Hc) as (w' & E & Hf' & Hb & Hs & Hk & Hh & Hcalls).
    { cbn [length] in Hmax. lia. }
    exists w'. unfold buffer. cbn [fmap list_fmap reverse rev_append app length].
    change (reverse [msg_json_of t] ++ l) with (msg_json_of t :: l).
    rewrite take_take. change (4 `min` 8)%nat with 4%nat.
    repeat split; try done.
    + unfold ingest_all. cbn [for_each]. eapply bind_step; [exact E|reflexivity].
    + cbn [calls_spec]. by rewrite app_nil_r.
  - destruct (add_message_step u c t w l n Hf Hl Hc) as (w1 & E & Hf' & Hb & Hs & Hk & Hh & Hcalls).
    { cbn [length] in Hmax. lia. }
    destruct (IH t' w1 (take 8 (msg_json_of t :: l)) (n + 1)) as
      (w' & E' & Hf2 & Hb2 & Hs2 & Hk2 & Hh2 & Hcalls2); try done.
    { by left. }
    { by left. }
    { lia. }
    { cbn [length] in *. lia. }
    exists w'.
    assert (buffer = take 8 (reverse (msg_json_of <$> t' :: ts)
                             ++ take 8 (msg_json_of t :: l))) as ->.
    { unfold buffer. rewrite take_app_take.
      rewrite (fmap_cons _ t), reverse_cons, <- app_assoc. reflexivity. }
    repeat split; try done.
    + unfold ingest_all in *. cbn [for_each]. eapply bind_step; [exact E|exact E'].
    + rewrite Hk2. do 3 f_equal. cbn [length]. lia.
    + rewrite Hh2, Hh, <- app_assoc. reflexivity.
    + rewrite Hcalls2, Hcalls, <- app_assoc. reflexivity.
Qed.

(** *** Session transfer and context assembly *)

Lemma total_ret {A} (a : A) : total (ret a).
Proof. intros w. by eexists. Qed.

Lemma total_logger lv msg : total (logger lv msg).
Proof. intros w. by eexists. Qed.

Lemma total_bind {A B} (m : M A) (k : A -> M B) :
  total m -> (forall a, total (k a)) -> total (bind m k).
Proof.
  intros Hm Hk w. unfold bind. destruct (Hm w) as [a Ha].
  destruct (m w) as [r w1]. cbn [fst] in Ha. subst r. apply Hk.
Qed.

Lemma total_try_body {A} (body : M A) (h : pystr -> M A) :
  total body -> total (try_except body h).
Proof.
  intros Hb w. unfold try_except. destruct (Hb w) as [a Ha].
  destruct (body w) as [r w1]. cbn [fst] in Ha. subst r. by eexists.
Qed.

Lemma total_try_handler {A} (body : M A) (h : pystr -> M A) :
  (forall e, total (h e)) -> total (try_except body h).
Proof.
  intros Hh w. unfold try_except. destruct (body w) as [[a|e] w1]; [by eexists|apply Hh].
Qed.

Lemma save_total u c : total (save_short_term_on_logout u c).
Proof. apply (total_try_logger _ (fun e => _ ++ e)). Qed.

Lemma clear_total u c : total (clear_redis_on_logout u c).
Proof. apply (total_try_logger _ (fun e => _ ++ e)). Qed.

Lemma load_total u c : total (load_short_term_on_login u c).
Proof. apply (total_try_logger _ (fun e => _ ++ e)). Qed.

Lemma get_context_total u c : total (get_context_for_search u c).
Proof.
  apply total_try_handler. intros e. apply total_bind; [apply total_logger|].
  intros _. apply total_ret.
Qed.

Lemma login_endpoint_total u c : total (login_endpoint u c).
Proof.
  apply total_try_body, total_bind; [apply total_logger|]. intros _. apply load_total.
Qed.

Lemma logout_endpoint_total u c : total (logout_endpoint u c).
Proof.
  apply total_try_body, total_bind; [apply total_logger|]. intros _.
  apply total_bind; [apply save_total|]. intros _. apply clear_total.
Qed.

Lemma save_frame u c : keeps (frame []) (save_short_term_on_logout u c).
Proof. unfold save_short_term_on_logout. keeps_tac. Qed.

Lemma clear_frame u c :
  keeps (frame [short_key u c; summary_key u c; chat_key u c; count_key u c])
        (clear_redis_on_logout u c).
Proof. unfold clear_redis_on_logout. keeps_tac. Qed.

Lemma load_frame u c :
  keeps (frame [short_key u c; summary_key u c]) (load_short_term_on_login u c).
Proof. unfold load_short_term_on_login. keeps_tac. Qed.

Lemma get_context_frame u c : keeps (frame []) (get_context_for_search u c).
Proof. unfold get_context_for_search. keeps_tac. Qed.

Lemma login_endpoint_frame u c :
  keeps (frame [short_key u c; summary_key u c]) (login_endpoint u c).
Proof. unfold login_endpoint. keeps_tac. Qed.

Lemma get_run_str (k : pystr) (w : world) (s : pystr) :
  faults w = [] -> str_at (redis w) k s ->
  exists o, redis_call (Redis.get k) w = (Ok o, w) /\ or_empty o = s.
Proof.
  intros Hf [Hs|[Hs ->]].
  - exists (Some s). by rewrite (get_run _ _ s).
  - exists None. by rewrite get_run_none.
Qed.

Lemma slice_all (l : list pystr) : Redis.slice l 0 (-1) = l.
Proof. by rewrite slice_from. Qed.

Lemma for_each_fmap {A B} (f : A -> B) (l : list A) (body : B -> M unit) :
  for_each (f <$> l) body = for_each l (fun x => body (f x)).
Proof. induction l as [|x l IH]; cbn [for_each fmap list_fmap]; [done|]. by rewrite <- IH. Qed.

Lemma save_run u c (w : world) (l : list pystr) (s : pystr) :
  faults w = [] -> list_at (redis w) (short_key u c) l ->
  str_at (redis w) (summary_key u c) s ->
  save_short_term_on_logout u c w
  = (Ok tt, set_logs (logs w ++ [(INFO, py "Saved short-term memory for " ++ u
                                          ++ py "/" ++ c)])
                     (put_snapshot u c (snapshot_of l s) w)).
Proof.
  intros Hf Hl Hs. unfold save_short_term_on_logout. apply try_ok.
  rewrite get_key_short, get_key_summary.
  eapply bind_step; [reflexivity|cbn beta].
  eapply bind_step; [by apply lrange_run|cbn beta].
  eapply bind_step; [reflexivity|cbn beta].
  destruct (get_run_str _ w s Hf Hs) as (o & Eg & Eo).
  eapply bind_step; [exact Eg|cbn beta zeta].
  rewrite slice_all, Eo. unfold snapshot_of.
  destruct (omap json_loads l) as [|d ds] eqn:El; destruct s as [|ch s'];
    (eapply bind_step;
     [first [reflexivity
            |unfold short_term_memory_upsert; rewrite mongo_call_run by done; reflexivity]
     |reflexivity]).
Qed.

Lemma del_step (k : pystr) (w : world) :
  faults w = [] ->
  (redis_call (Redis.del k) ;;; ret tt) w = (Ok tt, set_redis (delete k (redis w)) w).
Proof.
  intros Hf. destruct (del_run k w Hf) as [n E]. eapply bind_step; [exact E|reflexivity].
Qed.

Lemma clear_run u c (w : world) :
  faults w = [] ->
  clear_redis_on_logout u c w
  = (Ok tt, set_logs (logs w ++ [(INFO, py "Cleared Redis data for " ++ u
                                          ++ py "/" ++ c)])
                     (set_redis (cleared u c (redis w)) w)).
Proof.
  intros Hf. unfold clear_redis_on_logout. apply try_ok.
  rewrite get_key_short, get_key_summary, get_key_chat, get_key_count.
  do 4 (eapply bind_step; [reflexivity|cbn beta]).
  cbn [for_each].
  eapply bind_step.
  { do 4 (eapply bind_step; [by apply del_step|]). reflexivity. }
  reflexivity.
Qed.

Lemma load_run u c (w : world) (d : snapshot) :
  faults w = [] -> short_term_memory w !! (u, c) = Some d ->
  load_short_term_on_login u c w
  = (Ok tt, set_logs (logs w ++ [(INFO, py "Loaded short-term memory for " ++ u
                                          ++ py "/" ++ c)])
                     (set_redis (restored u c d (redis w)) w)).
Proof.
  intros Hf Hd. unfold load_short_term_on_login. apply try_ok.
  eapply bind_step.
  { unfold short_term_memory_find_one. rewrite mongo_call_run by done. reflexivity. }
  cbn [fst snd]. rewrite Hd, get_key_short, get_key_summary.
  eapply bind_step; [reflexivity|cbn beta].
  destruct (del_run (short_key u c) w Hf) as [n En].
  eapply bind_step; [exact En|cbn beta].
  unfold restored.
  assert (for_each (s_messages d)
            (fun msg_data => redis_call (Redis.rpush (short_key u c) (json_dumps msg_data)) ;;; ret tt)
            (set_redis (delete (short_key u c) (redis w)) w)
          = (Ok tt, set_redis (Redis.store_list (short_key u c)
                                 (json_dumps <$> s_messages d) (redis w)) w)) as Ep.
  { rewrite <- (for_each_fmap json_dumps (s_messages d)
                  (fun y => redis_call (Redis.rpush (short_key u c) y) ;;; ret tt)).
    destruct (json_dumps <$> s_messages d) as [|x xs]; [reflexivity|].
    erewrite (rpush_all _ xs x _ []); [|done|].
    - wsimpl. unfold Redis.store_list. by rewrite insert_delete_eq.
    - right. wsimpl. by rewrite lookup_delete_eq. }
  eapply bind_step; [exact Ep|cbn beta].
  destruct (s_slider_summary d) as [|ch s'].
  - eapply bind_step; [reflexivity|reflexivity].
  - eapply bind_step.
    { eapply bind_step; [reflexivity|cbn beta]. by rewrite set_run. }
    reflexivity.
Qed.

Lemma load_run_none u c (w : world) :
  faults w = [] -> short_term_memory w !! (u, c) = None ->
  load_short_term_on_login u c w = (Ok tt, w).
Proof.
  intros Hf Hd. unfold load_short_term_on_login. apply try_ok.
  eapply bind_step.
  { unfold short_term_memory_find_one. rewrite mongo_call_run by done. reflexivity. }
  cbn [fst snd]. by rewrite Hd.
Qed.

Lemma logout_run u c (w : world) (l : list pystr) (s : pystr) :
  faults w = [] -> list_at (redis w) (short_key u c) l ->
  str_at (redis w) (summary_key u c) s ->
  exists w', logout_endpoint u c w = (Ok tt, w') /\
    faults w' = [] /\
    redis w' = cleared u c (redis w) /\
    short_term_memory w' = short_term_memory (put_snapshot u c (snapshot_of l s) w) /\
    chat_history w' = chat_history w /\
    long_term_memory w' = long_term_memory w /\
    llm_calls w' = llm_calls w.
Proof.
  intros Hf Hl Hs. unfold logout_endpoint. eexists. split.
  - apply try_ok.
    eapply bind_step; [reflexivity|cbn beta].
    eapply bind_step; [by apply save_run|cbn beta].
    apply clear_run. wsimpl. by destruct (snapshot_of l s).
  - wsimpl. destruct (snapshot_of l s); wsimpl; done.
Qed.

Lemma login_run u c (w : world) (d : snapshot) :
  faults w = [] -> short_term_memory w !! (u, c) = Some d ->
  exists w', login_endpoint u c w = (Ok tt, w') /\
    faults w' = [] /\
    redis w' = restored u c d (redis w) /\
    short_term_memory w' = short_term_memory w /\
    chat_history w' = chat_history w /\
    long_term_memory w' = long_term_memory w /\
    llm_calls w' = llm_calls w.
Proof.
  intros Hf Hd. unfold login_endpoint. eexists. split.
  - apply try_ok. eapply bind_step; [reflexivity|cbn beta]. by apply load_run.
  - wsimpl. done.
Qed.

Lemma login_run_none u c (w : world) :
  faults w = [] -> short_term_memory w !! (u, c) = None ->
  exists w', login_endpoint u c w = (Ok tt, w') /\
    faults w' = [] /\
    redis w' = redis w /\
    short_term_memory w' = short_term_memory w /\
    chat_history w' = chat_history w /\
    long_term_memory w' = long_term_memory w /\
    llm_calls w' = llm_calls w.
Proof.
  intros Hf Hd. unfold login_endpoint. eexists. split.
  - apply try_ok. eapply bind_step; [reflexivity|cbn beta]. by apply load_run_none.
  - wsimpl. done.
Qed.

(** *** Any sequence of operations on one conversation *)

Lemma frame_nil_redis (w w' : world) : frame [] w w' -> redis w' = redis w.
Proof. intros [Hr _]. apply map_eq. intros k. apply Hr. apply not_elem_of_nil. Qed.

Lemma logout_any u c (w : world) :
  faults w = [] ->
  exists w', logout_endpoint u c w = (Ok tt, w') /\
    faults w' = [] /\ redis w' = cleared u c (redis w).
Proof.
  intros Hf. unfold logout_endpoint.
  set (w0 := set_logs (logs w ++ [(INFO, py "Logout request: user=" ++ u
                                           ++ py ", conv=" ++ c)]) w).
  destruct (total_run _ w0 (save_total u c)) as [[] Es].
  pose proof (save_frame u c w0) as Fs.
  set (w1 := snd (save_short_term_on_logout u c w0)) in *.
  assert (faults w1 = []) as Hf1 by (by apply Fs).
  eexists. split.
  - apply try_ok. eapply bind_step; [reflexivity|cbn beta]. fold w0.
    eapply bind_step; [exact Es|cbn beta]. by apply clear_run.
  - wsimpl. split; [done|]. by rewrite (frame_nil_redis w0 w1 Fs).
Qed.

Lemma cleared_lookup (u c : pystr) (m : Redis.keyspace) :
  cleared u c m !! chat_key u c = None /\ cleared u c m !! count_key u c = None /\
  cleared u c m !! short_key u c = None /\ cleared u c m !! summary_key u c = None /\
  (forall k : pystr,
      k ∉ [short_key u c; summary_key u c; chat_key u c; count_key u c] ->
      cleared u c m !! k = m !! k).
Proof.
  destruct (keys_distinct u c) as (Hcs & Hcsum & Hcc & _ & Hssum & Hsc & _ & Hsumc & _).
  unfold cleared. repeat split.
  - rewrite lookup_delete_ne by done. apply lookup_delete_eq.
  - apply lookup_delete_eq.
  - rewrite !lookup_delete_ne by done. apply lookup_delete_eq.
  - rewrite !lookup_delete_ne by done. apply lookup_delete_eq.
  - intros k Hk. rewrite !not_elem_of_cons in Hk. destruct Hk as (?&?&?&?&_).
    by rewrite !lookup_delete_ne.
Qed.

Lemma run_op_spec u c (o : op) (w : world) (l : list pystr) (n : Z) :
  faults w = [] ->
  list_at (redis w) (chat_key u c) l ->
  count_at (redis w) (count_key u c) n ->
  0 <= n < int64_max ->
  exists w', run_op u c o w = (Ok tt, w') /\
    faults w' = [] /\
    list_at (redis w') (chat_key u c) (buffer_model l [o]) /\
    count_at (redis w') (count_key u c) (count_model n [o]).
Proof.
  intros Hf Hl Hc Hn.
  destruct (keys_distinct u c) as (Hcs & Hcsum & Hcc & _ & Hssum & Hsc & _ & Hsumc & _).
  destruct o as [m| | |]; cbn [run_op buffer_model count_model].
  - destruct (add_message_step u c m w l n Hf Hl Hc Hn) as (w' & E & Hf' & Hb & _ & Hk & _).
    exists w'. repeat split; try done; by left.
  - destruct (total_run _ w (login_endpoint_total u c)) as [[] E].
    pose proof (login_endpoint_frame u c w) as [Hr Hf'].
    eexists. split; [exact E|]. split; [by apply Hf'|].
    unfold list_at, count_at. rewrite !Hr; [done| |];
      rewrite !not_elem_of_cons; repeat split; auto using not_elem_of_nil.
  - destruct (logout_any u c w Hf) as (w' & E & Hf' & Hr).
    exists w'. split; [exact E|]. split; [done|].
    destruct (cleared_lookup u c (redis w)) as (Hch & Hco & _).
    unfold list_at, count_at. rewrite Hr. split; right; done.
  - destruct (total_run _ w (get_context_total u c)) as [ctx E].
    pose proof (get_context_frame u c w) as Fr.
    eexists. split; [eapply bind_step; [exact E|reflexivity]|].
    split; [by apply Fr|].
    unfold list_at, count_at. by rewrite (frame_nil_redis _ _ Fr).
Qed.

Lemma count_model_bounds (ops : list op) (n : Z) :
  0 <= n -> 0 <= count_model n ops <= n + Z.of_nat (length ops).
Proof.
  revert n. induction ops as [|o ops IH]; intros n Hn; cbn [count_model length].
  - lia.
  - destruct o; [specialize (IH (n + 1))|specialize (IH n)|specialize (IH 0)|specialize (IH n)];
      lia.
Qed.

Lemma buffer_model_length (ops : list op) (l : list pystr) :
  (length l <= 8)%nat -> (length (buffer_model l ops) <= 8)%nat.
Proof.
  revert l. induction ops as [|o ops IH]; intros l Hl; cbn [buffer_model]; [done|].
  destruct o; apply IH; try done.
  - rewrite length_take. lia.
  - cbn. lia.
Qed.

Lemma run_ops_spec u c (ops : list op) :
  forall (w : world) (l : list pystr) (n : Z),
  faults w = [] ->
  list_at (redis w) (chat_key u c) l ->
  count_at (redis w) (count_key u c) n ->
  0 <= n -> n + Z.of_nat (length ops) <= int64_max ->
  exists w', run_ops u c ops w = (Ok tt, w') /\
    faults w' = [] /\
    list_at (redis w') (chat_key u c) (buffer_model l ops) /\
    count_at (redis w') (count_key u c) (count_model n ops).
Proof.
  induction ops as [|o ops IH]; intros w l n Hf Hl Hc Hn Hmax.
  - exists w. by repeat split.
  - cbn [length] in Hmax.
    destruct (run_op_spec u c o w l n Hf Hl Hc) as (w1 & E1 & Hf1 & Hl1 & Hc1); [lia|].
    pose proof (count_model_bounds [o] n Hn) as Hb. cbn [length] in Hb.
    destruct (IH w1 _ _ Hf1 Hl1 Hc1) as (w' & E' & Hf' & Hl' & Hc'); [lia|lia|].
    exists w'. split; [|split; [done|split]].
    + unfold run_ops in *. cbn [for_each]. eapply bind_step; [exact E1|exact E'].
    + destruct o; exact Hl'.
    + destruct o; exact Hc'.
Qed.

(** *** The counter under any failure schedule *)

Lemma bind_lift {A B : Type} (a : A) (k : A -> M B) (w : world) :
  bind (lift (Ok a)) k w = k a w.
Proof. reflexivity. Qed.

Lemma bind_rule {A B : Type} (P : world -> Prop) (Q : result B * world -> Prop)
    (m : M A) (k : A -> M B) (w : world) :
  P w ->
  (forall w0, P w0 -> P (snd (m w0))) ->
  (forall a w1, P w1 -> Q (k a w1)) ->
  (forall e w1, P w1 -> Q (Exc e, w1)) ->
  Q (bind m k w).
Proof.
  intros HP Hm Hk He. unfold bind. specialize (Hm w HP).
  destruct (m w) as [[a|e] w1]; cbn [snd] in Hm; auto.
Qed.

Lemma keeps_weaken (ks ks' : list pystr) {A} (m : M A) :
  ks ⊆ ks' -> keeps (frame ks) m -> keeps (frame ks') m.
Proof. intros Hs Hm w. eapply frame_weaken; [exact Hs|apply Hm]. Qed.

Lemma count_at_frame (ks : list pystr) (w w' : world) (k : pystr) (n : Z) :
  frame ks w w' -> k ∉ ks -> count_at (redis w) k n -> count_at (redis w') k n.
Proof. intros [Hr _] Hk. unfold count_at. by rewrite Hr. Qed.

Lemma add_message_frame u c (msg : Message) :
  keeps (frame [chat_key u c; short_key u c; count_key u c;
                summary_key u c; long_term_key u])
        (add_message u c msg).
Proof. unfold add_message. keeps_tac. Qed.

Lemma incr_counts (k : pystr) (w : world) (n : Z) :
  0 <= n -> count_at (redis w) k n ->
  match redis_call (Redis.incr k) w with
  | (Ok v, w') => v = n + 1 /\ count_at (redis w') k (n + 1)
  | (Exc _, w') => count_at (redis w') k n
  end.
Proof.
  intros Hn Hc. unfold redis_call, next_fault.
  assert (forall w0 : world, redis w0 = redis w ->
            match (let '(r, m) := Redis.incr k (redis w0) in (r, set_redis m w0)) with
            | (Ok v, w') => v = n + 1 /\ count_at (redis w') k (n + 1)
            | (Exc _, w') => count_at (redis w') k n
            end) as Hop.
  { intros w0 ->. unfold Redis.incr.
    destruct Hc as [Hc | [Hc ->]]; rewrite Hc.
    - rewrite parse_int64_str_of_nonneg by done. unfold in_int64.
      destruct (_ && _); wsimpl; [|by left].
      destruct (n <? int64_max); wsimpl; [|by left].
      split; [done|]. left. apply lookup_insert_eq.
    - wsimpl. split; [done|]. left. apply lookup_insert_eq. }
  destruct (faults w) as [|[e|] fs].
  - apply (Hop w eq_refl).
  - exact Hc.
  - apply (Hop (set_faults fs w) eq_refl).
Qed.

Ltac bind_rule_tac P Q :=
  match goal with
  | |- Q (bind ?m ?k ?w0) => apply (bind_rule P Q m k w0)
  end.

Lemma add_message_counts u c (msg : Message) (w : world) (n : Z) :
  0 <= n -> count_at (redis w) (count_key u c) n ->
  match add_message u c msg w with
  | (Ok _, w') => count_at (redis w') (count_key u c) (n + 1)
  | (Exc _, w') => count_at (redis w') (count_key u c) n
  end.
Proof.
  intros Hn Hc.
  destruct (keys_distinct u c)
    as (Hcs & Hcsum & Hcc & Hcl & Hssum & Hsc & Hsl & Hsumc & Hsuml & Hcountl).
  set (P := fun w0 : world => count_at (redis w0) (count_key u c) n).
  set (Q := fun x : result unit * world =>
              match x with
              | (Ok _, w') => count_at (redis w') (count_key u c) (n + 1)
              | (Exc _, w') => count_at (redis w') (count_key u c) n
              end).
  assert (forall (ks : list pystr) (A : Type) (m : M A),
            count_key u c ∉ ks -> keeps (frame ks) m ->
            forall w0, P w0 -> P (snd (m w0))) as Hpres.
  { intros ks A m Hk Hm w0 HP. eapply count_at_frame; [apply Hm|done|done]. }
  change (Q (add_message u c msg w)). unfold add_message, try_except.
  match goal with
  | |- Q (match ?b w with _ => _ end) =>
      cut (Q (b w)); [intros Hb; destruct (b w) as [[a|e] w1]; exact Hb|]
  end.
  rewrite get_key_chat, get_key_count. cbn zeta.
  bind_rule_tac P Q; [done| |intros _ w1 H1|by intros].
  { apply (Hpres []); [apply not_elem_of_nil|]. unfold chat_history_insert_one. keeps_tac. }
  rewrite bind_lift.
  bind_rule_tac P Q; [done| |intros _ w3 H3|by intros].
  { apply (Hpres [chat_key u c]); [|keeps_tac].
    rewrite not_elem_of_cons. split; [done|apply not_elem_of_nil]. }
  bind_rule_tac P Q; [done| |intros _ w4 H4|by intros].
  { apply (Hpres [chat_key u c]); [|keeps_tac].
    rewrite not_elem_of_cons. split; [done|apply not_elem_of_nil]. }
  bind_rule_tac P Q; [done| |intros _ w5 H5|by intros].
  { apply (Hpres [short_key u c] _ (_update_short_term_memory u c));
      [|apply update_short_term_frame].
    rewrite not_elem_of_cons. split; [done|apply not_elem_of_nil]. }
  rewrite bind_lift.
  pose proof (incr_counts (count_key u c) w5 n Hn H5) as Hi.
  unfold bind at 1. destruct (redis_call _ w5) as [[v|e] w7]; [|exact Hi].
  destruct Hi as [-> H7].
  set (rest := bind _ _).
  assert (total rest) as Ht.
  { unfold rest. apply total_bind; [apply total_logger|]. intros _.
    apply total_bind; [|intros _];
      (match goal with |- total (if ?b then _ else _) => destruct b end);
      first [apply slider_total|apply long_term_total|apply total_ret]. }
  assert (keeps (frame [summary_key u c; long_term_key u]) rest) as Hk.
  { unfold rest. apply keeps_bind; [typeclasses eauto|apply keeps_frame_logger|intros _].
    apply keeps_bind; [typeclasses eauto| |intros _];
      (match goal with |- keeps _ (if ?b then _ else _) => destruct b end);
      try (apply keeps_ret; typeclasses eauto).
    - apply (keeps_weaken [summary_key u c]); [set_solver|apply slider_frame].
    - apply (keeps_weaken [long_term_key u]); [set_solver|apply long_term_frame]. }
  destruct (total_run rest w7 Ht) as [[] E]. rewrite E. unfold Q.
  eapply count_at_frame; [apply Hk| |done].
  rewrite !not_elem_of_cons. repeat split; auto using not_elem_of_nil.
Qed.

(** Whatever fails, an ingestion that returns normally has trimmed the
    buffer. *)
Lemma ltrim_bounds u c (w : world) :
  match redis_call (Redis.ltrim (chat_key u c) 0 7) w with
  | (Ok _, w') => buffer_bounded u c w'
  | (Exc _, _) => True
  end.
Proof.
  unfold redis_call, next_fault.
  assert (forall w0 : world,
            match (let '(r, m) := Redis.ltrim (chat_key u c) 0 7 (redis w0) in
                   (r, set_redis m w0)) with
            | (Ok _, w') => buffer_bounded u c w'
            | (Exc _, _) => True
            end) as Hop.
  { intros w0. unfold Redis.ltrim, buffer_bounded.
    destruct (redis w0 !! chat_key u c) as [[l|s]|] eqn:E; wsimpl; [|done|].
    - rewrite slice_prefix by lia. unfold Redis.store_list.
      destruct (take (Z.to_nat (7 + 1)) l) as [|x xs] eqn:Et; intros l'.
      + by rewrite lookup_delete_eq.
      + rewrite lookup_insert_eq. intros [= <-]. rewrite <- Et, length_take. lia.
    - intros l'. by rewrite E. }
  destruct (faults w) as [|[e|] fs]; [apply Hop|done|apply Hop].
Qed.

Lemma buffer_bounded_frame (ks : list pystr) u c (w w' : world) :
  frame ks w w' -> chat_key u c ∉ ks -> buffer_bounded u c w -> buffer_bounded u c w'.
Proof. intros [Hr _] Hk Hb l. rewrite Hr by done. apply Hb. Qed.

Lemma add_message_trims u c (msg : Message) (w : world) :
  match add_message u c msg w with
  | (Ok _, w') => buffer_bounded u c w'
  | (Exc _, _) => True
  end.
Proof.
  destruct (keys_distinct u c)
    as (Hcs & Hcsum & Hcc & Hcl & Hssum & Hsc & Hsl & Hsumc & Hsuml & Hcountl).
  set (T := fun _ : world => True).
  set (P := buffer_bounded u c).
  set (Q := fun x : result unit * world =>
              match x with
              | (Ok _, w') => buffer_bounded u c w'
              | (Exc _, _) => True
              end).
  change (Q (add_message u c msg w)). unfold add_message, try_except.
  match goal with
  | |- Q (match ?b w with _ => _ end) =>
      cut (Q (b w)); [intros Hb; destruct (b w) as [[a|e] w1]; [exact Hb|done]|]
  end.
  rewrite get_key_chat, get_key_count. cbn zeta.
  bind_rule_tac T Q; [done|done|intros _ w1 _|done].
  rewrite bind_lift.
  bind_rule_tac T Q; [done|done|intros _ w2 _|done].
  pose proof (ltrim_bounds u c w2) as Ht.
  unfold bind at 1. destruct (redis_call _ w2) as [[[]|e] w3]; [|done].
  set (rest := bind _ _).
  assert (keeps (frame [short_key u c; count_key u c; summary_key u c; long_term_key u])
                rest) as Hk.
  { unfold rest.
    apply keeps_bind; [typeclasses eauto| |intros _].
    { apply (keeps_weaken [short_key u c]); [set_solver|apply update_short_term_frame]. }
    apply keeps_bind_lift.
    apply keeps_bind; [typeclasses eauto|keeps_leaf|intros count].
    apply keeps_bind; [typeclasses eauto|apply keeps_frame_logger|intros _].
    apply keeps_bind; [typeclasses eauto| |intros _];
      (match goal with |- keeps _ (if ?b then _ else _) => destruct b end);
      try (apply keeps_ret; typeclasses eauto).
    - apply (keeps_weaken [summary_key u c]); [set_solver|apply slider_frame].
    - apply (keeps_weaken [long_term_key u]); [set_solver|apply long_term_frame]. }
  specialize (Hk w3). destruct (rest w3) as [[[]|e] w4]; [|done].
  cbn [snd] in Hk. unfold Q. eapply buffer_bounded_frame; [exact Hk| |exact Ht].
  rewrite !not_elem_of_cons. repeat split; auto using not_elem_of_nil.
Qed.

Lemma attempt_all_counts u c (turns : list Message) :
  forall (w : world) (n : Z),
  0 <= n -> count_at (redis w) (count_key u c) n ->
  count_at (redis (snd (attempt_all u c turns w))) (count_key u c)
           (n + Z.of_nat (fst (attempt_all u c turns w))).
Proof.
  induction turns as [|t ts IH]; intros w n Hn Hc; cbn [attempt_all].
  - cbn [fst snd]. by rewrite Z.add_0_r.
  - pose proof (add_message_counts u c t w n Hn Hc) as Hstep.
    destruct (add_message u c t w) as [[[]|e] w1].
    + specialize (IH w1 (n + 1) ltac:(lia) Hstep).
      destruct (attempt_all u c ts w1) as [k w']. cbn [fst snd] in *.
      replace (n + Z.of_nat (S k)) with (n + 1 + Z.of_nat k) by lia. done.
    + by apply IH.
Qed.

(** *** Long-term points *)

Lemma extract_points_spec (content : pystr) :
  extract_points content
  = take 5 (bullet_points content
            ++ drop (length (bullet_points content)) five_placeholders).
Proof.
  unfold extract_points.
  destruct (bullet_points content) as [|a [|b [|c [|d [|e rest]]]]]; reflexivity.
Qed.

Lemma extract_points_length (content : pystr) : length (extract_points content) = 5%nat.
Proof.
  rewrite extract_points_spec.
  destruct (bullet_points content) as [|a [|b [|c [|d [|e rest]]]]]; reflexivity.
Qed.

Lemma long_term_run u c (w : world) (l pts : list pystr) (reply : pystr)
    (rest : list (option pystr)) (t : pystr) (text : list pystr) :
  faults w = [] ->
  list_at (redis w) (chat_key u c) l ->
  conversation_lines (reverse (take 8 l)) = t :: text ->
  llm_script w = Some reply :: rest ->
  list_at (redis w) (long_term_key u) pts ->
  let points := extract_points (strip reply) in
  exists w', _generate_long_term_memory u c w = (Ok tt, w') /\
    redis w' = <[long_term_key u := RList (pts ++ points)]> (redis w) /\
    long_term_memory w' = long_term_memory w ++ [mkBatch u points c] /\
    llm_calls w' = llm_calls w ++ [long_term_prompt (t :: text)].
Proof.
  intros Hf Hl Hlines Hscript Hpts points.
  pose proof (extract_points_length (strip reply)) as Hlen. fold points in Hlen.
  destruct points as [|x xs] eqn:Ep; [discriminate Hlen|].
  eexists. split.
  - unfold _generate_long_term_memory. apply try_ok.
    rewrite get_key_chat, get_key_long.
    eapply bind_step; [reflexivity|cbn beta].
    eapply bind_step; [by apply lrange_run|cbn beta].
    rewrite slice_prefix by lia. change (Z.to_nat (7 + 1)) with 8%nat.
    destruct (take 8 l) as [|y ys] eqn:Et; [discriminate Hlines|].
    rewrite Hlines.
    eapply bind_step.
    { unfold llm_ainvoke. rewrite Hscript. reflexivity. }
    cbn beta zeta. fold points. rewrite Ep.
    eapply bind_step; [reflexivity|cbn beta].
    eapply bind_step; [by apply (rpush_all _ xs x _ pts)|cbn beta].
    eapply bind_step.
    { unfold long_term_memory_insert_one. rewrite mongo_call_run by done. reflexivity. }
    reflexivity.
  - wsimpl. done.
Qed.

(** *** Logout followed by login *)

Lemma omap_loads_well_formed (l : list pystr) :
  Forall well_formed l -> json_dumps <$> omap json_loads l = l.
Proof.
  induction 1 as [|x l (d & Hd & Hx) _ IH]; [done|].
  cbn [omap list_omap]. rewrite Hd. cbn [fmap list_fmap] in *. by rewrite Hx, IH.
Qed.

Lemma restored_lookup (u c : pystr) (d : snapshot) (m : Redis.keyspace) :
  list_at (restored u c d (cleared u c m)) (short_key u c) (json_dumps <$> s_messages d) /\
  str_at (restored u c d (cleared u c m)) (summary_key u c) (s_slider_summary d) /\
  (forall k : pystr, k ∉ [short_key u c; summary_key u c] ->
     restored u c d (cleared u c m) !! k = cleared u c m !! k).
Proof.
  destruct (keys_distinct u c) as (Hcs & Hcsum & Hcc & _ & Hssum & Hsc & _ & Hsumc & _).
  destruct (cleared_lookup u c m) as (_ & _ & Hshort & Hsum & _).
  unfold restored, Redis.store_list, list_at, str_at.
  assert (summary_key u c <> short_key u c) as Hsums by done.
  destruct (json_dumps <$> s_messages d) as [|x xs], (s_slider_summary d) as [|ch s'];
    (split; [|split];
     [ first [ left; by rewrite ?lookup_insert_ne, ?lookup_insert_eq by done
             | right; by rewrite ?lookup_insert_ne, ?lookup_delete_eq by done ]
     | first [ left; by rewrite ?lookup_insert_ne, ?lookup_insert_eq by done
             | right;
               by rewrite ?lookup_insert_ne, ?lookup_delete_ne, ?Hsum by done ]
     | intros k Hk; rewrite !not_elem_of_cons in Hk; destruct Hk as (?&?&_);
       by rewrite ?lookup_insert_ne, ?lookup_delete_ne by done ]).
Qed.

(** *** Logout when the snapshot write fails *)

Lemma save_fails u c (w : world) (l : list pystr) (s : pystr) (e : pystr) :
  faults w = [None; None; Some e] ->
  list_at (redis w) (short_key u c) l ->
  str_at (redis w) (summary_key u c) s ->
  snapshot_of l s <> None ->
  save_short_term_on_logout u c w
  = (Ok tt, set_logs (logs w ++ [(ERROR, py "Error saving short-term memory: " ++ e)])
                     (set_faults [] w)).
Proof.
  intros Hf Hl Hs Hsnap. unfold save_short_term_on_logout.
  rewrite get_key_short, get_key_summary.
  destruct w as [r ch st lt f sc calls lg]. wsimpl. subst f.
  set (w := mkWorld r ch st lt [None; None; Some e] sc calls lg).
  assert (redis_call (Redis.lrange (short_key u c) 0 (-1)) w
          = (Ok l, set_faults [None; Some e] w)) as E1.
  { unfold redis_call, next_fault, Redis.lrange, w. wsimpl.
    destruct Hl as [-> | [-> ->]]; by rewrite ?slice_all. }
  assert (exists o, redis_call (Redis.get (summary_key u c)) (set_faults [None; Some e] w)
                    = (Ok o, set_faults [Some e] w) /\ or_empty o = s) as (o & E2 & Eo).
  { unfold redis_call, next_fault, Redis.get, w. wsimpl.
    destruct Hs as [-> | [-> ->]]; eexists; split; reflexivity. }
  rewrite (try_exc _ _ w (set_faults [] w) e); [reflexivity|].
  eapply bind_step; [reflexivity|cbn beta].
  eapply bind_step; [exact E1|cbn beta].
  eapply bind_step; [reflexivity|cbn beta].
  eapply bind_step; [exact E2|cbn beta zeta]. rewrite Eo.
  unfold snapshot_of in Hsnap.
  apply bind_raise.
  destruct (omap json_loads l) as [|d ds], s as [|a s']; try done;
    by unfold short_term_memory_upsert, mongo_call, next_fault.
Qed.

(** *** Store failures *)

Lemma redis_call_next {A} (op : Redis.keyspace -> result A * Redis.keyspace)
    (w : world) (fs : list (option pystr)) :
  faults w = None :: fs ->
  redis_call op w
  = (fst (op (redis w)), set_redis (snd (op (redis w))) (set_faults fs w)).
Proof.
  intros Hf. unfold redis_call, next_fault. rewrite Hf. wsimpl.
  by destruct (op (redis w)).
Qed.

Lemma redis_call_fault {A} (op : Redis.keyspace -> result A * Redis.keyspace)
    (w : world) (e : pystr) (fs : list (option pystr)) :
  faults w = Some e :: fs -> redis_call op w = (Exc e, set_faults fs w).
Proof. intros Hf. unfold redis_call, next_fault. by rewrite Hf. Qed.

Lemma mongo_call_next {A} (op : world -> A * world) (w : world) (fs : list (option pystr)) :
  faults w = None :: fs ->
  mongo_call op w = (Ok (fst (op (set_faults fs w))), snd (op (set_faults fs w))).
Proof.
  intros Hf. unfold mongo_call, next_fault. rewrite Hf.
  by destruct (op (set_faults fs w)).
Qed.

Lemma raises_bind_lift {A B} (a : A) (k : A -> M B) (w : world) :
  raises (k a) w -> raises (bind (lift (Ok a)) k) w.
Proof. done. Qed.

Lemma raises_bind_fault {A B : Type} (op : Redis.keyspace -> result A * Redis.keyspace)
    (k : A -> M B) (w : world) (e : pystr) (fs : list (option pystr)) :
  faults w = Some e :: fs -> raises (bind (redis_call op) k) w.
Proof.
  intros Hf. exists e, (set_faults fs w). apply bind_raise. by apply redis_call_fault.
Qed.

Lemma raises_bind_next {A B : Type} (op : Redis.keyspace -> result A * Redis.keyspace)
    (k : A -> M B) (w : world) (fs : list (option pystr)) :
  faults w = None :: fs ->
  (forall a m, raises (k a) (set_redis m (set_faults fs w))) ->
  raises (bind (redis_call op) k) w.
Proof.
  intros Hf Hk. unfold raises, bind. rewrite (redis_call_next op w fs Hf).
  destruct (op (redis w)) as [[a|e] m]; cbn [fst snd]; [apply Hk|by eexists _, _].
Qed.

Lemma try_reraise {A} (body : M A) (f : pystr -> pystr) (w wX : world) (e : pystr) :
  body w = (Exc e, wX) ->
  try_except body (fun e => logger ERROR (f e) ;;; raise e) w
  = (Exc e, set_logs (logs wX ++ [(ERROR, f e)]) wX).
Proof. intros E. unfold try_except. by rewrite E. Qed.

Lemma del_result (k : pystr) (m : Redis.keyspace) :
  exists n, Redis.del k m = (Ok n, delete k m).
Proof.
  unfold Redis.del. destruct (m !! k) eqn:E; eexists; [done|]. by rewrite delete_id.
Qed.

Lemma rpush_result (k v : pystr) (m : Redis.keyspace) :
  m !! k = None -> Redis.rpush k v m = (Ok 1, <[k := RList [v]]> m).
Proof. intros E. unfold Redis.rpush. by rewrite E. Qed.

Lemma update_short_term_next u c (w : world) (j : pystr) (fs : list (option pystr)) :
  faults w = None :: None :: None :: fs ->
  redis w !! chat_key u c = Some (RList [j]) ->
  exists w', _update_short_term_memory u c w = (Ok tt, w') /\
    faults w' = fs /\
    (forall k : pystr, k <> short_key u c -> redis w' !! k = redis w !! k).
Proof.
  intros Hf Hl. destruct w as [r ch st lt f sc calls lg]. wsimpl. subst f.
  unfold _update_short_term_memory. eexists. split.
  - apply try_ok. rewrite get_key_chat, get_key_short.
    eapply bind_step; [reflexivity|cbn beta].
    eapply bind_step; [reflexivity|cbn beta].
    eapply bind_step.
    { erewrite redis_call_next by reflexivity. unfold Redis.lrange. wsimpl.
      rewrite Hl. reflexivity. }
    cbn beta. rewrite slice_prefix by lia. wsimpl.
    change (reverse (take (Z.to_nat (3 + 1)) [j])) with [j].
    destruct (del_result (short_key u c) r) as [n En].
    eapply bind_step.
    { erewrite redis_call_next by reflexivity. wsimpl. rewrite En. reflexivity. }
    cbn beta. wsimpl. cbn [for_each].
    eapply bind_step; [|reflexivity].
    eapply bind_step; [|reflexivity].
    erewrite redis_call_next by reflexivity. wsimpl.
    rewrite rpush_result by apply lookup_delete_eq. reflexivity.
  - wsimpl. split; [done|]. intros k Hk.
    by rewrite lookup_insert_ne, lookup_delete_ne.
Qed.

(** *** Context assembly *)

Lemma get_context_run u c (w : world) (l pts b : list pystr) (s : pystr) :
  faults w = [] ->
  list_at (redis w) (short_key u c) l ->
  str_at (redis w) (summary_key u c) s ->
  list_at (redis w) (long_term_key u) pts ->
  list_at (redis w) (chat_key u c) b ->
  get_context_for_search u c w
  = (Ok (mkContext (omap json_loads l) s pts (omap json_loads (reverse (take 8 b)))), w).
Proof.
  intros Hf Hl Hs Hp Hb. unfold get_context_for_search. apply try_ok.
  rewrite get_key_short, get_key_summary, get_key_long, get_key_chat.
  eapply bind_step; [reflexivity|cbn beta].
  eapply bind_step; [by apply lrange_run|cbn beta].
  eapply bind_step; [reflexivity|cbn beta].
  destruct (get_run_str _ w s Hf Hs) as (o & Eg & Eo).
  eapply bind_step; [exact Eg|cbn beta].
  eapply bind_step; [reflexivity|cbn beta].
  eapply bind_step; [by apply lrange_run|cbn beta].
  eapply bind_step; [reflexivity|cbn beta].
  eapply bind_step; [by apply lrange_run|cbn beta].
  rewrite !slice_all, Eo, slice_prefix by lia. reflexivity.
Qed.

Section Laws.

Context `{!JsonLaws}.

Lemma format_turn_msg (m : Message) : format_turn (msg_json_of m) = Some (line_of m).
Proof.
  unfold format_turn, msg_json_of, line_of.
  by rewrite loads_dumps_msg, item_role, item_content.
Qed.

Lemma conversation_lines_msgs (ms : list Message) :
  conversation_lines (msg_json_of <$> ms) = line_of <$> ms.
Proof.
  unfold conversation_lines. induction ms as [|m ms IH]; [done|].
  cbn [fmap list_fmap omap list_omap]. rewrite format_turn_msg. cbn [fmap list_fmap] in IH.
  by rewrite IH.
Qed.

Lemma slider_calls_of_msgs (ms : list Message) :
  slider_calls_of (msg_json_of <$> ms) = slider_calls_msgs ms.
Proof.
  unfold slider_calls_of, slider_calls_msgs.
  rewrite <- fmap_drop. destruct (drop 4 ms) as [|m older]; [done|].
  cbn [fmap list_fmap].
  change (msg_json_of m :: (msg_json_of <$> older)) with (msg_json_of <$> m :: older).
  rewrite <- fmap_reverse, conversation_lines_msgs.
  destruct (reverse (m :: older)) as [|x xs] eqn:E; [|done].
  apply (f_equal length) in E. rewrite length_reverse in E. discriminate E.
Qed.

Lemma long_term_calls_of_msgs (ms : list Message) :
  long_term_calls_of (msg_json_of <$> ms) = long_term_calls_msgs ms.
Proof.
  unfold long_term_calls_of, long_term_calls_msgs.
  rewrite <- fmap_take. destruct (take 8 ms) as [|m recent]; [done|].
  cbn [fmap list_fmap].
  change (msg_json_of m :: (msg_json_of <$> recent)) with (msg_json_of <$> m :: recent).
  rewrite <- fmap_reverse, conversation_lines_msgs.
  destruct (reverse (m :: recent)) as [|x xs] eqn:E; [|done].
  apply (f_equal length) in E. rewrite length_reverse in E. discriminate E.
Qed.

Lemma calls_spec_msgs (turns : list Message) :
  forall (n : Z) (ms : list Message),
  calls_spec n (msg_json_of <$> ms) turns = calls_msgs n ms turns.
Proof.
  induction turns as [|t ts IH]; intros n ms; [done|].
  cbn [calls_spec calls_msgs]. unfold escalation_calls.
  change (msg_json_of t :: (msg_json_of <$> ms)) with (msg_json_of <$> t :: ms).
  by rewrite <- fmap_take, IH, slider_calls_of_msgs, long_term_calls_of_msgs.
Qed.

End Laws.

(** *** The lines of a reply and its bullet-marked lines *)

Lemma split_on_nonempty (sep : N) (s : pystr) : split_on sep s <> [].
Proof.
  induction s as [|ch s IH]; cbn [split_on]; [done|].
  destruct (N.eqb ch sep); [done|]. by destruct (split_on sep s).
Qed.

Lemma join_cons (sep x : pystr) (l : list pystr) :
  l <> [] -> join sep (x :: l) = x ++ sep ++ join sep l.
Proof. by destruct l. Qed.

Lemma join_split_on (s : pystr) : join [nl] (split_on nl s) = s.
Proof.
  induction s as [|ch s IH]; [done|]. cbn [split_on].
  pose proof (split_on_nonempty nl s) as Hne.
  destruct (N.eqb_spec ch nl) as [->|Hch].
  - by rewrite join_cons, IH.
  - destruct (split_on nl s) as [|h t]; [done|].
    destruct t as [|h' t]; cbn [join] in *; by rewrite <- IH.
Qed.

Lemma split_on_lines (s : pystr) : Forall (fun line => nl ∉ line) (split_on nl s).
Proof.
  induction s as [|ch s IH]; cbn [split_on].
  - constructor; [apply not_elem_of_nil|constructor].
  - destruct (N.eqb_spec ch nl) as [->|Hch].
    + constructor; [apply not_elem_of_nil|done].
    + pose proof (split_on_nonempty nl s) as Hne.
      destruct (split_on nl s) as [|h t]; [done|].
      inversion_clear IH as [|? ? Hh Ht]. constructor; [|done].
      rewrite not_elem_of_cons. split; [congruence|done].
Qed.

Lemma split_on_app (x rest : pystr) :
  nl ∉ x -> split_on nl (x ++ nl :: rest) = x :: split_on nl rest.
Proof.
  induction x as [|ch x IH]; intros Hx; cbn [app split_on].
  - by rewrite N.eqb_refl.
  - apply not_elem_of_cons in Hx as [Hch Hx].
    destruct (N.eqb_spec ch nl) as [E|_]; [congruence|]. by rewrite IH.
Qed.

Lemma split_on_line (x : pystr) : nl ∉ x -> split_on nl x = [x].
Proof.
  induction x as [|ch x IH]; intros Hx; cbn [split_on]; [done|].
  apply not_elem_of_cons in Hx as [Hch Hx].
  destruct (N.eqb_spec ch nl) as [E|_]; [congruence|]. by rewrite IH.
Qed.

Lemma lines_of_split_on (text : pystr) (lines : list pystr) :
  lines_of text lines <-> lines = split_on nl text.
Proof.
  split.
  - intros (Hne & <- & Hl). destruct Hl as [|x l Hx Hl]; [done|]. clear Hne.
    revert x Hx. induction Hl as [|y l Hy Hl IH]; intros x Hx.
    + cbn [join]. by rewrite split_on_line.
    + rewrite join_cons by done. cbn [app]. rewrite split_on_app by done.
      by rewrite <- IH.
  - intros ->. split; [apply split_on_nonempty|]. split; [apply join_split_on|].
    apply split_on_lines.
Qed.

Lemma startswith_take2 (a b : N) (s : pystr) :
  startswith [a; b] s = bool_decide (take 2 s = [a; b]).
Proof.
  destruct s as [|x [|y s]]; cbn [startswith take].
  - by rewrite bool_decide_eq_false_2.
  - rewrite andb_false_r. by rewrite bool_decide_eq_false_2.
  - rewrite andb_true_r.
    destruct (N.eqb_spec a x) as [->|Ha], (N.eqb_spec b y) as [->|Hb]; cbn [andb];
      first [by rewrite bool_decide_eq_true_2
            |rewrite bool_decide_eq_false_2; [done|congruence]].
Qed.

Lemma bullet_points_spec (content : pystr) :
  bullet_points content = spec_kept_points (split_on nl content).
Proof.
  unfold bullet_points, spec_kept_points.
  induction (split_on nl content) as [|line lines IH]; [done|].
  cbn [omap list_omap List.filter]. cbn zeta.
  assert (is_bullet (strip line) = spec_bullet_marked line) as ->.
  { unfold is_bullet, spec_bullet_marked.
    change (py "- ") with [45%N; 32%N]. by rewrite !startswith_take2. }
  destruct (spec_bullet_marked line); cbn [fmap list_fmap] in *;
    first [exact IH|f_equal; exact IH].
Qed.

(** *** Failures inside a method without a handler *)

Lemma strict_ret {A} (a : A) : strict (ret a).
Proof. intros w. exists 0%nat. split; [lia|]. split; [done|]. intros j e Hj. lia. Qed.

Lemma strict_lift {A} (r : result A) : strict (lift r).
Proof. intros w. exists 0%nat. split; [lia|]. split; [done|]. intros j e Hj. lia. Qed.

Lemma strict_logger lv msg : strict (logger lv msg).
Proof. intros w. exists 0%nat. split; [lia|]. split; [done|]. intros j e Hj. lia. Qed.

Lemma strict_llm p : strict (llm_ainvoke p).
Proof.
  intros w. exists 0%nat. unfold llm_ainvoke.
  destruct (llm_script w) as [|[reply|] rest];
    (split; [lia|]; split; [done|]; intros j e Hj; lia).
Qed.

Lemma strict_redis {A} (op : Redis.keyspace -> result A * Redis.keyspace) :
  strict (redis_call op).
Proof.
  intros w. unfold redis_call, next_fault.
  destruct (faults w) as [|f fs] eqn:Hf; wsimpl.
  - exists 0%nat. destruct (op (redis w)).
    split; [cbn [length]; lia|]. split; [done|]. intros j e Hj. lia.
  - exists 1%nat. cbn [length]. split; [lia|].
    destruct f as [e|]; [|destruct (op _)]; wsimpl; (split; [done|]);
      intros j e' Hj Hl; assert (j = 0%nat) as -> by lia; cbn in Hl; by simplify_eq.
Qed.

Lemma strict_mongo {A} (op : world -> A * world) :
  (forall w, faults (snd (op w)) = faults w) -> strict (mongo_call op).
Proof.
  intros Hop w. unfold mongo_call, next_fault.
  destruct (faults w) as [|f fs] eqn:Hf; wsimpl.
  - exists 0%nat. pose proof (Hop w) as Hw. destruct (op w). wsimpl.
    split; [cbn [length]; lia|]. split; [by rewrite Hw, Hf|]. intros j e Hj. lia.
  - exists 1%nat. cbn [length]. split; [lia|].
    destruct f as [e|]; wsimpl.
    + split; [done|]. intros j e' Hj Hl. assert (j = 0%nat) as -> by lia.
      cbn in Hl. by simplify_eq.
    + pose proof (Hop (set_faults fs w)) as Hw. destruct (op _). wsimpl.
      split; [done|]. intros j e' Hj Hl. assert (j = 0%nat) as -> by lia.
      cbn in Hl. by simplify_eq.
Qed.

Lemma strict_bind {A B} (m : M A) (k : A -> M B) :
  strict m -> (forall a, strict (k a)) -> strict (bind m k).
Proof.
  intros Hm Hk w. destruct (Hm w) as (k1 & Hk1 & Hd1 & He1). unfold bind.
  destruct (m w) as [[a|e] w1]; cbn [fst snd] in *.
  - destruct (Hk a w1) as (k2 & Hk2 & Hd2 & He2).
    rewrite Hd1, length_drop in Hk2. rewrite Hd1, drop_drop in Hd2.
    exists (k1 + k2)%nat. split; [lia|]. split; [done|].
    intros j e Hj Hl.
    destruct (decide (j < k1)%nat) as [Hlt|Hge].
    { by destruct (He1 j e Hlt Hl) as [_ ?]. }
    destruct (He2 (j - k1)%nat e) as [Hs Hr]; [lia| |].
    { rewrite Hd1, lookup_drop. rewrite <- Hl. f_equal. lia. }
    split; [lia|done].
  - exists k1. split; [done|]. split; [done|]. intros j e0 Hj Hl.
    by destruct (He1 j e0 Hj Hl) as [? [= ->]].
Qed.

Lemma strict_for_each {A} (l : list A) (body : A -> M unit) :
  (forall x, strict (body x)) -> strict (for_each l body).
Proof.
  intros Hb. induction l as [|x l IH]; cbn [for_each]; [apply strict_ret|].
  apply strict_bind; [apply Hb|]. intros _. apply IH.
Qed.

Ltac strict_tac :=
  repeat
    (cbn [for_each];
     first
       [ apply strict_for_each; intros ?
       | apply strict_ret
       | apply strict_lift
       | apply strict_logger
       | apply strict_llm
       | apply strict_redis
       | apply strict_mongo; intros ?; reflexivity
       | progress rewrite ?get_key_chat, ?get_key_short, ?get_key_summary,
           ?get_key_long, ?get_key_count
       | apply strict_bind; [|intros ?]
       | match goal with
         | |- strict (match ?x with _ => _ end) => destruct x
         | |- strict (if ?x then _ else _) => destruct x
         end ]).

(** A handler that logs and returns: when the store call that fails is
    made by the body, the line logged last carries its exception. *)
Lemma swallowed_and_logged (body : M unit) (f : pystr -> pystr) (w : world)
    (i : nat) (e : pystr) (fs : list (option pystr)) :
  strict body ->
  faults w = replicate i None ++ Some e :: fs ->
  faults (snd (try_except body (fun e => logger ERROR (f e)) w)) = fs ->
  exists wX, body w = (Exc e, wX) /\
    try_except body (fun e => logger ERROR (f e)) w
    = (Ok tt, set_logs (logs wX ++ [(ERROR, f e)]) wX).
Proof.
  intros Hs Hf Hfs. destruct (Hs w) as (k & Hk & Hd & He).
  unfold try_except in *. destruct (body w) as [[[]|e'] wX] eqn:Eb; cbn [fst snd] in *.
  - assert (k = S i) as ->.
    { rewrite Hfs in Hd. apply (f_equal length) in Hd.
      rewrite length_drop, Hf, length_app, length_replicate in Hd.
      rewrite Hf, length_app, length_replicate in Hk. cbn [length] in *. lia. }
    destruct (He i e) as [_ Hr]; [lia| |done].
    rewrite Hf, lookup_app_r by (rewrite length_replicate; lia).
    by rewrite length_replicate, Nat.sub_diag.
  - cbv [logger] in Hfs. wsimpl.
    assert (k = S i) as ->.
    { rewrite Hfs in Hd. apply (f_equal length) in Hd.
      rewrite length_drop, Hf, length_app, length_replicate in Hd.
      rewrite Hf, length_app, length_replicate in Hk. cbn [length] in *. lia. }
    destruct (He i e) as [_ Hr]; [lia| |].
    { rewrite Hf, lookup_app_r by (rewrite length_replicate; lia).
      by rewrite length_replicate, Nat.sub_diag. }
    simplify_eq. by exists wX.
Qed.

Lemma bind_ok_inv {A B} (m : M A) (k : A -> M B) (w w' : world) (b : B) :
  bind m k w = (Ok b, w') -> exists a w1, m w = (Ok a, w1) /\ k a w1 = (Ok b, w').
Proof.
  unfold bind. destruct (m w) as [[a|e] w1]; [|done]. intros E. by exists a, w1.
Qed.

(** ** The specified properties *)

(** C1. After ingesting any non-empty sequence of turns into a conversation
    whose buffer and counter are new, the short-term window is the
    oldest-first list of the (at most) four newest turns, and it is exactly
    the reversal of the first four entries of the buffer just written:
    whatever the short-term key held before plays no part. *)
Theorem short_term_window_rebuilt (u c : pystr) (turns : list Message) (w : world) :
  turns <> [] ->
  redis w !! chat_key u c = None ->
  redis w !! count_key u c = None ->
  faults w = [] ->
  Z.of_nat (length turns) <= int64_max ->
  exists w' buffer,
    ingest_all u c turns w = (Ok tt, w') /\
    redis w' !! chat_key u c = Some (RList buffer) /\
    redis w' !! short_key u c = Some (RList (reverse (take 4 buffer))) /\
    reverse (take 4 buffer) = msg_json_of <$> drop (length turns - 4) turns.
Proof.
  intros Hne Hchat Hcount Hf Hmax. destruct turns as [|t ts]; [done|].
  destruct (ingest_all_spec u c ts t w [] 0) as (w' & E & _ & Hb & Hs & _); try done.
  { by right. }
  { by right. }
  rewrite app_nil_r in Hb, Hs.
  exists w', (take 8 (reverse (msg_json_of <$> t :: ts))).
  repeat split; try done.
  rewrite take_take. change (4 `min` 8)%nat with 4%nat.
  by rewrite last_four, length_fmap, fmap_drop.
Qed.

(** C2. After ingesting N turns into a new conversation the buffer holds the
    min(N,8) newest turns, newest first; after any sequence of ingestions,
    logins, logouts and context reads the buffer has at most 8 entries; and
    under any schedule of store failures an ingestion that returns normally
    leaves at most 8 entries. *)
Theorem recent_buffer_bounded (u c : pystr) (turns : list Message) (ops : list op)
    (w : world) :
  redis w !! chat_key u c = None ->
  redis w !! count_key u c = None ->
  faults w = [] ->
  Z.of_nat (length turns) <= int64_max ->
  Z.of_nat (length ops) <= int64_max ->
  (exists w',
     ingest_all u c turns w = (Ok tt, w') /\
     list_at (redis w') (chat_key u c) (take 8 (reverse (msg_json_of <$> turns))) /\
     length (take 8 (reverse (msg_json_of <$> turns))) = (length turns `min` 8)%nat) /\
  (exists w' l,
     run_ops u c ops w = (Ok tt, w') /\
     list_at (redis w') (chat_key u c) l /\ (length l <= 8)%nat) /\
  (forall (w0 w' : world) (msg : Message),
     add_message u c msg w0 = (Ok tt, w') -> buffer_bounded u c w').
Proof.
  intros Hchat Hcount Hf Hmax Hmax'. split; [|split].
  - destruct turns as [|t ts].
    + exists w. repeat split; by right.
    + destruct (ingest_all_spec u c ts t w [] 0) as (w' & E & _ & Hb & _); try done.
      { by right. }
      { by right. }
      rewrite app_nil_r in Hb. exists w'. repeat split; [done|by left|].
      rewrite length_take, length_reverse, length_fmap. lia.
  - destruct (run_ops_spec u c ops w [] 0) as (w' & E & _ & Hb & _); try done.
    { by right. }
    { by right. }
    exists w', (buffer_model [] ops). repeat split; [done..|].
    apply buffer_model_length. cbn. lia.
  - intros w0 w' msg E. pose proof (add_message_trims u c msg w0) as Ht.
    by rewrite E in Ht.
Qed.

(** C3. After N ingestions into a new conversation the counter is N; over
    any sequence of operations it goes up by one at each ingestion, is put
    back to zero by logout only, and is left alone by login and by context
    reads. Under any schedule of store failures, and whatever the other keys
    hold, the counter equals the number of ingestions that returned
    normally: an ingestion that raises does not count, one that returns
    counts once. *)
Theorem message_count_exact (u c : pystr) (turns : list Message) (ops : list op)
    (w : world) :
  redis w !! chat_key u c = None ->
  redis w !! count_key u c = None ->
  faults w = [] ->
  Z.of_nat (length turns) <= int64_max ->
  Z.of_nat (length ops) <= int64_max ->
  (exists w',
     ingest_all u c turns w = (Ok tt, w') /\
     count_at (redis w') (count_key u c) (Z.of_nat (length turns))) /\
  (exists w',
     run_ops u c ops w = (Ok tt, w') /\
     count_at (redis w') (count_key u c) (count_model 0 ops)) /\
  (forall (w0 : world) (attempts : list Message),
     redis w0 !! count_key u c = None ->
     count_at (redis (snd (attempt_all u c attempts w0))) (count_key u c)
              (Z.of_nat (fst (attempt_all u c attempts w0)))).
Proof.
  intros Hchat Hcount Hf Hmax Hmax'. split; [|split].
  - destruct turns as [|t ts].
    + exists w. repeat split; by right.
    + destruct (ingest_all_spec u c ts t w [] 0) as (w' & E & _ & _ & _ & Hk & _); try done.
      { by right. }
      { by right. }
      exists w'. split; [done|]. by left.
  - destruct (run_ops_spec u c ops w [] 0) as (w' & E & _ & _ & Hk); try done.
    { by right. }
    { by right. }
    by exists w'.
  - intros w0 attempts Hnone.
    apply (attempt_all_counts u c attempts w0 0); [done|by right].
Qed.

(** C4 (as the code has it). Eight turns ingested into a new conversation
    make exactly two model calls: one summary request whose input is turns
    1-4 (the turns older than the short-term window), oldest first, and one
    extraction request whose input is turns 1-8, oldest first; the chat log
    gains exactly these eight rows. The summary escalation reads the buffer
    from offset 4 on and changes nothing when that range is empty. *)
Theorem eight_turns_escalation `{!JsonLaws} (u c : pystr) (turns : list Message) (w : world) :
  length turns = 8%nat ->
  redis w !! chat_key u c = None ->
  redis w !! count_key u c = None ->
  faults w = [] ->
  (exists w',
     ingest_all u c turns w = (Ok tt, w') /\
     llm_calls w' = llm_calls w ++
       [slider_prompt (line_of <$> take 4 turns); long_term_prompt (line_of <$> turns)] /\
     chat_history w' = chat_history w ++ (chat_doc_of u c <$> turns)) /\
  (forall (w0 : world) (l : list pystr),
     faults w0 = [] -> list_at (redis w0) (chat_key u c) l ->
     llm_calls (snd (_generate_slider_summary u c w0))
       = llm_calls w0 ++ slider_calls_of l /\
     (drop 4 l = [] -> _generate_slider_summary u c w0 = (Ok tt, w0))).
Proof.
  intros Hlen Hchat Hcount Hf. split.
  - destruct turns as [|t1 [|t2 [|t3 [|t4 [|t5 [|t6 [|t7 [|t8 [|t9 ts]]]]]]]]];
      try discriminate Hlen.
    destruct (ingest_all_spec u c [t2; t3; t4; t5; t6; t7; t8] t1 w [] 0)
      as (w' & E & _ & _ & _ & _ & Hh & Hcalls); try done.
    { by right. }
    { by right. }
    exists w'. split; [done|]. split; [|done].
    rewrite Hcalls. f_equal.
    change (@nil pystr) with (msg_json_of <$> (@nil Message)).
    rewrite calls_spec_msgs. reflexivity.
  - intros w0 l Hf0 Hl. split; [by apply slider_calls|].
    intros Hd. unfold _generate_slider_summary. apply try_ok.
    rewrite get_key_chat. eapply bind_step; [reflexivity|cbn beta].
    eapply bind_step; [by apply lrange_run|cbn beta].
    rewrite slice_from by lia. change (Z.to_nat 4) with 4%nat. by rewrite Hd.
Qed.

(** C5. When the chat-log append raises, [add_message] raises the same
    exception, the chat log gains no row and no hot-tier key is touched. *)
Theorem chat_log_failure_aborts (u c : pystr) (msg : Message) (w : world)
    (e : pystr) (fs : list (option pystr)) :
  faults w = Some e :: fs ->
  exists w',
    add_message u c msg w = (Exc e, w') /\
    redis w' = redis w /\
    chat_history w' = chat_history w /\
    logs w' = logs w ++ [(ERROR, py "Error adding message: " ++ e)].
Proof.
  intros Hf. eexists. split.
  - unfold add_message. rewrite (try_exc _ _ w (set_faults fs w) e); [reflexivity|].
    eapply bind_raise. unfold chat_history_insert_one, mongo_call, next_fault.
    by rewrite Hf.
  - wsimpl. done.
Qed.

(** C6 (as the code has it). A hot-store failure inside the short-term
    rebuild or inside either escalation is swallowed there, and the line
    logged last carries its text; a failure of the buffer push, of the trim
    or of the counter increment, in any state and for any reason, is logged
    and raised again by [add_message], like the chat-log failure;
    [process_conversation] absorbs whatever [add_message] raises and always
    returns a reply. *)
Theorem hot_store_failures_in_ingestion
    (agent : pystr -> pystr -> Message -> M (option pystr)) (now : world -> pystr)
    (u c : pystr) (msg : Message) (text : pystr) :
  (total (_update_short_term_memory u c) /\
   total (_generate_slider_summary u c) /\
   total (_generate_long_term_memory u c)) /\
  (forall (w : world) (i : nat) (e : pystr) (fs : list (option pystr)),
     faults w = replicate i None ++ Some e :: fs ->
     (faults (snd (_update_short_term_memory u c w)) = fs ->
      last (logs (snd (_update_short_term_memory u c w)))
      = Some (ERROR, py "Error updating short-term memory: " ++ e)) /\
     (faults (snd (_generate_slider_summary u c w)) = fs ->
      last (logs (snd (_generate_slider_summary u c w)))
      = Some (ERROR, py "Error generating slider summary: " ++ e)) /\
     (faults (snd (_generate_long_term_memory u c w)) = fs ->
      last (logs (snd (_generate_long_term_memory u c w)))
      = Some (ERROR, py "Error generating long-term memory: " ++ e))) /\
  (forall (w w1 w2 : world) (e : pystr),
     before_push u c msg w = (Ok tt, w1) ->
     redis_call (Redis.lpush (chat_key u c) (msg_json_of msg)) w1 = (Exc e, w2) ->
     add_message u c msg w
     = (Exc e, set_logs (logs w2 ++ [(ERROR, py "Error adding message: " ++ e)]) w2)) /\
  (forall (w w1 w2 : world) (e : pystr),
     before_trim u c msg w = (Ok tt, w1) ->
     redis_call (Redis.ltrim (chat_key u c) 0 7) w1 = (Exc e, w2) ->
     add_message u c msg w
     = (Exc e, set_logs (logs w2 ++ [(ERROR, py "Error adding message: " ++ e)]) w2)) /\
  (forall (w w1 w2 : world) (e : pystr),
     before_count u c msg w = (Ok tt, w1) ->
     redis_call (Redis.incr (count_key u c)) w1 = (Exc e, w2) ->
     add_message u c msg w
     = (Exc e, set_logs (logs w2 ++ [(ERROR, py "Error adding message: " ++ e)]) w2)) /\
  total (process_conversation agent now u c text).
Proof.
  split; [|split; [|split; [|split; [|split]]]].
  - split; [apply update_short_term_total|].
    split; [apply slider_total|apply long_term_total].
  - intros w i e fs Hf.
    assert (forall (body : M unit) (f : pystr -> pystr), strict body ->
              faults (snd (try_except body (fun e => logger ERROR (f e)) w)) = fs ->
              last (logs (snd (try_except body (fun e => logger ERROR (f e)) w)))
              = Some (ERROR, f e)) as Hlog.
    { intros body f Hs Hfs.
      destruct (swallowed_and_logged body f w i e fs Hs Hf Hfs) as (wX & _ & ->).
      wsimpl. apply last_snoc. }
    split; [|split]; intros Hfs.
    + apply (Hlog _ (fun e => py "Error updating short-term memory: " ++ e)); [|exact Hfs].
      strict_tac.
    + apply (Hlog _ (fun e => py "Error generating slider summary: " ++ e)); [|exact Hfs].
      strict_tac.
    + apply (Hlog _ (fun e => py "Error generating long-term memory: " ++ e)); [|exact Hfs].
      strict_tac.
  - intros w w1 w2 e E1 E2. unfold add_message.
    apply (try_reraise _ (fun e => py "Error adding message: " ++ e)).
    eapply bind_step; [exact E1|cbn beta]. rewrite get_key_chat.
    eapply bind_step; [reflexivity|cbn beta].
    apply bind_raise. exact E2.
  - intros w w1 w2 e E1 E2.
    apply bind_ok_inv in E1 as ([] & w0 & E0 & E1).
    apply bind_ok_inv in E1 as (n & w0' & Ep & [= <-]).
    unfold add_message.
    apply (try_reraise _ (fun e => py "Error adding message: " ++ e)).
    eapply bind_step; [exact E0|cbn beta]. rewrite get_key_chat.
    eapply bind_step; [reflexivity|cbn beta].
    eapply bind_step; [exact Ep|cbn beta].
    apply bind_raise. exact E2.
  - intros w w1 w2 e E1 E2.
    apply bind_ok_inv in E1 as ([] & wa & E1 & E3).
    apply bind_ok_inv in E1 as ([] & w0 & E0 & E1).
    apply bind_ok_inv in E1 as (n & w0' & Ep & [= <-]).
    apply bind_ok_inv in E3 as ([] & wb & Et & Eu).
    unfold add_message.
    apply (try_reraise _ (fun e => py "Error adding message: " ++ e)).
    eapply bind_step; [exact E0|cbn beta]. rewrite get_key_chat, get_key_count.
    eapply bind_step; [reflexivity|cbn beta].
    eapply bind_step; [exact Ep|cbn beta].
    eapply bind_step; [exact Et|cbn beta].
    eapply bind_step; [exact Eu|cbn beta].
    eapply bind_step; [reflexivity|cbn beta].
    apply bind_raise. exact E2.
  - unfold process_conversation. apply total_try_handler. intros e.
    apply total_bind; [|intros; apply total_ret].
    apply total_try_handler. intros; apply total_ret.
Qed.

(** C7. Whenever the extractor returns text, the point list has exactly 5
    elements: the bullet-marked lines of the reply in order (each without
    its marker), followed by the placeholders numbered by position when
    fewer than five were found, cut to five; and this list is both appended
    to the user's hot long-term list and written as one new durable
    batch. *)
Theorem long_term_batch_of_five u c (w : world) (l pts : list pystr) (reply : pystr)
    (rest : list (option pystr)) (t : pystr) (text : list pystr) :
  faults w = [] ->
  list_at (redis w) (chat_key u c) l ->
  conversation_lines (reverse (take 8 l)) = t :: text ->
  llm_script w = Some reply :: rest ->
  list_at (redis w) (long_term_key u) pts ->
  let bullets := bullet_points (strip reply) in
  let points := extract_points (strip reply) in
  lines_of (strip reply) (split_on nl (strip reply)) /\
  (forall lines, lines_of (strip reply) lines -> bullets = spec_kept_points lines) /\
  length points = 5%nat /\
  points = take 5 (bullets ++ drop (length bullets) five_placeholders) /\
  exists w', _generate_long_term_memory u c w = (Ok tt, w') /\
    redis w' !! long_term_key u = Some (RList (pts ++ points)) /\
    long_term_memory w' = long_term_memory w ++ [mkBatch u points c].
Proof.
  intros Hf Hl Hlines Hscript Hpts bullets points.
  split; [by apply lines_of_split_on|].
  split.
  { intros lines Hlines'. apply lines_of_split_on in Hlines' as ->.
    apply bullet_points_spec. }
  split; [apply extract_points_length|]. split; [apply extract_points_spec|].
  destruct (long_term_run u c w l pts reply rest t text) as (w' & E & Hr & Hm & _);
    try done.
  exists w'. split; [done|]. split; [|done].
  rewrite Hr. apply lookup_insert_eq.
Qed.

(** C8 (as the code has it). A logout followed by a login brings back the
    short-term window and the summary that were there at logout, provided
    the window holds serialized turns and one of the two is non-empty (so
    that a snapshot is written); the buffer and the counter are deleted by
    the logout and not brought back; the long-term list, hot and durable, is
    untouched. Login alone changes no key but the window and the summary,
    and changes nothing at all when there is no snapshot. *)
Theorem logout_login_restores (u c : pystr) (w : world) (l : list pystr) (s : pystr) :
  faults w = [] ->
  list_at (redis w) (short_key u c) l ->
  str_at (redis w) (summary_key u c) s ->
  Forall well_formed l ->
  l <> [] \/ s <> [] ->
  (exists w1 w2,
     logout_endpoint u c w = (Ok tt, w1) /\
     login_endpoint u c w1 = (Ok tt, w2) /\
     list_at (redis w2) (short_key u c) l /\
     str_at (redis w2) (summary_key u c) s /\
     redis w2 !! chat_key u c = None /\
     redis w2 !! count_key u c = None /\
     redis w2 !! long_term_key u = redis w !! long_term_key u /\
     long_term_memory w2 = long_term_memory w) /\
  (forall (w0 : world) (k : pystr),
     k ∉ [short_key u c; summary_key u c] ->
     redis (snd (login_endpoint u c w0)) !! k = redis w0 !! k) /\
  (forall w0 : world,
     faults w0 = [] -> short_term_memory w0 !! (u, c) = None ->
     redis (snd (login_endpoint u c w0)) = redis w0).
Proof.
  intros Hf Hl Hs Hwf Hne.
  destruct (keys_distinct u c)
    as (Hcs & Hcsum & Hcc & Hcl & Hssum & Hsc & Hsl & Hsumc & Hsuml & Hcountl).
  split; [|split].
  - destruct (logout_run u c w l s Hf Hl Hs) as (w1 & E1 & Hf1 & Hr1 & Hm1 & _ & Hlt1 & _).
    pose proof (omap_loads_well_formed l Hwf) as Hround.
    assert (snapshot_of l s = Some (mkSnapshot (omap json_loads l) s)) as Hsnap.
    { unfold snapshot_of. destruct (omap json_loads l) as [|d ds] eqn:E; [|done].
      destruct s as [|ch s']; [|done]. destruct Hne as [Hne|Hne]; [|done].
      by rewrite <- Hround in Hne. }
    rewrite Hsnap in Hm1. cbn [put_snapshot] in Hm1. wsimpl.
    destruct (login_run u c w1 (mkSnapshot (omap json_loads l) s) Hf1)
      as (w2 & E2 & _ & Hr2 & _ & _ & Hlt2 & _).
    { rewrite Hm1. apply lookup_insert_eq. }
    exists w1, w2. rewrite Hr2, Hr1.
    destruct (restored_lookup u c (mkSnapshot (omap json_loads l) s) (redis w))
      as (Hrl & Hrs & Hrk).
    destruct (cleared_lookup u c (redis w)) as (Hch & Hco & _ & _ & Hck).
    cbn [s_messages s_slider_summary] in Hrl, Hrs. rewrite Hround in Hrl.
    repeat split; try done.
    + rewrite Hrk; [done|]. rewrite !not_elem_of_cons. auto using not_elem_of_nil.
    + rewrite Hrk; [done|]. rewrite !not_elem_of_cons. auto using not_elem_of_nil.
    + rewrite Hrk, Hck; [done| |]; rewrite !not_elem_of_cons;
        repeat split; auto using not_elem_of_nil.
    + congruence.
  - intros w0 k Hk. by apply (login_endpoint_frame u c w0).
  - intros w0 Hf0 Hnone.
    destruct (login_run_none u c w0 Hf0 Hnone) as (w' & E & _ & Hr & _).
    by rewrite E.
Qed.

(** C9 (as the code has it). The context read never fails. When the i-th
    of its four reads (short-term window, summary, long-term list, recent
    buffer) raises, every field of the result is its empty default, whatever
    the other regions hold; when no read raises, the four regions are
    returned, elements that do not decode being skipped one by one. *)
Theorem context_reads_degrade_together (u c : pystr) (w : world) (i : nat)
    (e : pystr) (fs : list (option pystr)) :
  (i < 4)%nat ->
  faults w = replicate i None ++ Some e :: fs ->
  total (get_context_for_search u c) /\
  (exists w', get_context_for_search u c w = (Ok empty_context, w')) /\
  (forall (w0 : world) (l pts b : list pystr) (s : pystr),
     faults w0 = [] ->
     list_at (redis w0) (short_key u c) l ->
     str_at (redis w0) (summary_key u c) s ->
     list_at (redis w0) (long_term_key u) pts ->
     list_at (redis w0) (chat_key u c) b ->
     get_context_for_search u c w0
     = (Ok (mkContext (omap json_loads l) s pts
                      (omap json_loads (reverse (take 8 b)))), w0)).
Proof.
  intros Hi Hf. split; [apply get_context_total|]. split; [|apply get_context_run].
  assert (forall body : M context, raises body w ->
            exists w', try_except body
                         (fun e => logger ERROR (py "Error getting context: " ++ e) ;;;
                                   ret empty_context) w
                       = (Ok empty_context, w')) as Htry.
  { intros body (e' & wX & E). eexists. unfold try_except. rewrite E. reflexivity. }
  unfold get_context_for_search. apply Htry.
  rewrite get_key_short, get_key_summary, get_key_long, get_key_chat.
  destruct i as [|[|[|[|i]]]]; [| | | |lia]; cbn [replicate app] in Hf;
    repeat
      match goal with
      | |- raises (bind (lift (Ok _)) _) _ => apply raises_bind_lift; cbn beta
      | |- raises (bind (redis_call _) _) _ =>
          first
            [ eapply raises_bind_fault; wsimpl; first [exact Hf|reflexivity]
            | eapply raises_bind_next;
              [wsimpl; first [exact Hf|reflexivity]|intros ? ?; cbn beta] ]
      end.
Qed.

(** C10. When the snapshot upsert raises during logout, the exception is
    logged inside the save step, the four hot-tier keys are deleted all the
    same, no snapshot is written, and the endpoint returns normally: the
    window and the summary are gone for good, and a later login finds
    nothing more recent than the previous snapshot, if any. *)
Theorem logout_clears_after_failed_snapshot (u c : pystr) (w : world)
    (l : list pystr) (s e : pystr) :
  faults w = [None; None; Some e] ->
  list_at (redis w) (short_key u c) l ->
  str_at (redis w) (summary_key u c) s ->
  snapshot_of l s <> None ->
  exists w',
    logout_endpoint u c w = (Ok tt, w') /\
    short_term_memory w' = short_term_memory w /\
    redis w' !! short_key u c = None /\
    redis w' !! summary_key u c = None /\
    redis w' !! chat_key u c = None /\
    redis w' !! count_key u c = None /\
    (ERROR, py "Error saving short-term memory: " ++ e) ∈ logs w'.
Proof.
  intros Hf Hl Hs Hsnap. eexists. split.
  - unfold logout_endpoint. apply try_ok.
    eapply bind_step; [reflexivity|cbn beta].
    eapply bind_step; [by apply (save_fails u c _ l s e)|cbn beta].
    by apply clear_run.
  - wsimpl. destruct (cleared_lookup u c (redis w)) as (Hch & Hco & Hsh & Hsu & _).
    repeat split; try done.
    rewrite !elem_of_app, !list_elem_of_singleton. auto.
Qed.


(** ** Further properties of the code *)

(** *** Key naming *)

Lemma str_eqb_eq (a b : pystr) : str_eqb a b = true <-> a = b.
Proof.
  revert b. induction a as [|x a IH]; intros [|y b]; cbn [str_eqb]; try done.
  rewrite andb_true_iff, N.eqb_eq, IH. split; [by intros [-> ->]|by intros [= -> ->]].
Qed.

Lemma get_key_cases (k u : pystr) (c : option pystr) (r : pystr) :
  _get_redis_key k u c = Ok r ->
  (k = py "short_term" /\ r = py "short_term:" ++ u ++ py ":" ++ fmt_opt c) \/
  (k = py "slider_summary" /\ r = py "slider_summary:" ++ u ++ py ":" ++ fmt_opt c) \/
  (k = py "long_term" /\ r = py "long_term:" ++ u) \/
  (k = py "chat_history" /\ r = py "chat_history:" ++ u ++ py ":" ++ fmt_opt c) \/
  (k = py "message_count" /\ r = py "message_count:" ++ u ++ py ":" ++ fmt_opt c).
Proof.
  unfold _get_redis_key.
  repeat match goal with
         | |- context [str_eqb k ?s] =>
             let E := fresh "E" in destruct (str_eqb k s) eqn:E;
             [apply str_eqb_eq in E|clear E]
         end; intros [= <-]; auto 10.
Qed.

(** X1. Keys of two different kinds are different strings, whatever the
    user and conversation identifiers are: no identifier can make, say, a
    counter key coincide with a buffer key. *)
Theorem key_kinds_never_collide (k1 k2 u1 u2 : pystr) (c1 c2 : option pystr)
    (r1 r2 : pystr) :
  _get_redis_key k1 u1 c1 = Ok r1 ->
  _get_redis_key k2 u2 c2 = Ok r2 ->
  k1 <> k2 -> r1 <> r2.
Proof.
  intros H1 H2 Hk.
  destruct (get_key_cases _ _ _ _ H1) as [[-> ->]|[[-> ->]|[[-> ->]|[[-> ->]|[-> ->]]]]];
  destruct (get_key_cases _ _ _ _ H2) as [[-> ->]|[[-> ->]|[[-> ->]|[[-> ->]|[-> ->]]]]];
  try done;
  intros E; apply (f_equal (take 2)) in E; vm_compute in E; discriminate E.
Qed.

Lemma app_sep_inj (sep : N) (a b a' b' : pystr) :
  sep ∉ a -> sep ∉ a' -> a ++ sep :: b = a' ++ sep :: b' -> a = a' /\ b = b'.
Proof.
  revert a'. induction a as [|x a IH]; intros [|y a'] Ha Ha'; cbn [app].
  - by intros [= ->].
  - intros [= -> _]. exfalso. apply Ha'. left.
  - intros [= -> _]. exfalso. apply Ha. left.
  - intros [= -> E]. destruct (IH a') as [-> ->]; try done.
    + intros Hin. apply Ha. by right.
    + intros Hin. apply Ha'. by right.
Qed.

(** X2. For user identifiers without a colon, a key determines the user
    and (except for the long-term kind, which has no conversation part)
    the conversation it was made for. *)
Theorem keys_of_colon_free_users_are_injective (k u1 u2 c1 c2 r : pystr) :
  58%N ∉ u1 -> 58%N ∉ u2 ->
  _get_redis_key k u1 (Some c1) = Ok r ->
  _get_redis_key k u2 (Some c2) = Ok r ->
  u1 = u2 /\ (k <> py "long_term" -> c1 = c2).
Proof.
  intros Hu1 Hu2 H1 H2.
  destruct (get_key_cases _ _ _ _ H1) as [[-> E1]|[[-> E1]|[[-> E1]|[[-> E1]|[-> E1]]]]];
  destruct (get_key_cases _ _ _ _ H2) as [[K E2]|[[K E2]|[[K E2]|[[K E2]|[K E2]]]]];
  try (vm_compute in K; discriminate K); clear K; subst r; cbn [fmt_opt] in E2;
  apply app_inv_head in E2;
  first [ apply (app_sep_inj 58%N) in E2; [|done..]; by destruct E2 as [-> ->]
        | by subst ].
Qed.

(** X3. A colon can move between the two identifiers: the user [a:b] in
    conversation [c] and the user [a] in conversation [b:c] get the same
    key of every conversation-scoped kind, so the two share their buffer,
    window, summary and counter. *)
Theorem colon_moves_between_identifiers (k a b c : pystr) :
  k <> py "long_term" ->
  _get_redis_key k (a ++ py ":" ++ b) (Some c)
  = _get_redis_key k a (Some (b ++ py ":" ++ c)).
Proof.
  intros Hk. unfold _get_redis_key. cbn [fmt_opt].
  repeat match goal with
         | |- context [str_eqb k ?s] =>
             let E := fresh "E" in destruct (str_eqb k s) eqn:E;
             [apply str_eqb_eq in E|clear E]
         end; try done; by rewrite <- ?app_assoc.
Qed.

(** *** The durable collections *)

#[local] Instance grows_preorder : PreOrder grows.
Proof.
  split.
  - by intros w.
  - intros w1 w2 w3 [H1 H2] [H3 H4]. split; etrans; eauto.
Qed.

Lemma keeps_grows_prim {A} (m : M A) :
  (forall w, grows w (snd (m w))) -> keeps grows m.
Proof. intros Hm w. apply Hm. Qed.

Ltac grows_leaf :=
  apply keeps_grows_prim; intros ?;
  cbv [chat_history_insert_one long_term_memory_insert_one
       short_term_memory_upsert short_term_memory_find_one
       redis_call mongo_call next_fault logger llm_ainvoke grows];
  repeat case_match; simplify_eq; wsimpl;
  split; first [done|by apply prefix_app_r].

Lemma add_message_grows u c (msg : Message) : keeps grows (add_message u c msg).
Proof. unfold add_message. keeps_tac; grows_leaf. Qed.

Lemma login_endpoint_grows u c : keeps grows (login_endpoint u c).
Proof. unfold login_endpoint. keeps_tac; grows_leaf. Qed.

Lemma logout_endpoint_grows u c : keeps grows (logout_endpoint u c).
Proof. unfold logout_endpoint. keeps_tac; grows_leaf. Qed.

Lemma get_context_grows u c : keeps grows (get_context_for_search u c).
Proof. unfold get_context_for_search. keeps_tac; grows_leaf. Qed.

(** X4. The chat log and the long-term batches are append-only: whatever
    operations run against a conversation and whichever store calls fail,
    the rows that were there are still there afterwards, in the same order
    and in front of the new ones. *)
Theorem durable_logs_only_grow (u c : pystr) (ops : list op) (w : world) :
  grows w (snd (run_ops u c ops w)).
Proof.
  revert w. change (keeps grows (run_ops u c ops)).
  apply keeps_for_each; [typeclasses eauto|]. intros [m| | |]; cbn [run_op].
  - apply add_message_grows.
  - apply login_endpoint_grows.
  - apply logout_endpoint_grows.
  - apply keeps_bind; [typeclasses eauto|apply get_context_grows|].
    intros _. apply keeps_ret. typeclasses eauto.
Qed.

(** X5. Ingestion writes the chat-log row before anything else: when the
    append itself does not fail, the row is in the log after the call
    whether the call then returns or raises, and nothing else is added. *)
Theorem turn_is_logged_first (u c : pystr) (msg : Message) (w : world) :
  fst (next_fault w) = None ->
  chat_history (snd (add_message u c msg w))
  = chat_history w ++ [chat_doc_of u c msg].
Proof.
  intros Hf. unfold add_message.
  match goal with
  | |- context [try_except (bind ?m ?k) ?h] =>
      assert (keeps (same chat_history) (k tt)) as Hk by keeps_tac;
      set (tail := k) in *
  end.
  unfold try_except, bind, chat_history_insert_one, mongo_call.
  destruct (next_fault w) as [o w0] eqn:E. cbn [fst] in Hf. subst o.
  assert (chat_history w0 = chat_history w) as <-.
  { unfold next_fault in E. destruct (faults w); by simplify_eq. }
  specialize (Hk (set_chat_history (chat_history w0 ++ [chat_doc_of u c msg]) w0)).
  unfold same in Hk.
  destruct (tail tt _) as [[[]|e] w2]; cbv [logger raise]; wsimpl; by rewrite Hk.
Qed.

(** *** The two escalations *)

Lemma next_fault_inv (w w0 : world) (o : option pystr) :
  next_fault w = (o, w0) ->
  redis w0 = redis w /\ chat_history w0 = chat_history w /\
  short_term_memory w0 = short_term_memory w /\
  long_term_memory w0 = long_term_memory w /\
  llm_script w0 = llm_script w /\ llm_calls w0 = llm_calls w /\ logs w0 = logs w.
Proof. unfold next_fault. destruct (faults w); intros [= <- <-]; done. Qed.

Lemma lrange_keeps (k : pystr) (a b : Z) (m : Redis.keyspace) :
  snd (Redis.lrange k a b m) = m.
Proof. unfold Redis.lrange. by repeat case_match. Qed.

(** X6. When the model replies, the summary key is set to the reply with
    its surrounding whitespace removed, whatever the key held before. *)
Theorem summary_is_the_stripped_reply (u c : pystr) (w : world) (l : list pystr)
    (reply : pystr) (rest : list (option pystr)) :
  faults w = [] ->
  list_at (redis w) (chat_key u c) l ->
  conversation_lines (reverse (drop 4 l)) <> [] ->
  llm_script w = Some reply :: rest ->
  exists w', _generate_slider_summary u c w = (Ok tt, w') /\
    redis w' = <[summary_key u c := RStr (strip reply)]> (redis w) /\
    llm_script w' = rest.
Proof.
  intros Hf Hl Hlines Hs. unfold _generate_slider_summary.
  rewrite get_key_chat, get_key_summary.
  destruct (drop 4 l) as [|x older] eqn:Ed; [done|].
  destruct (conversation_lines (reverse (x :: older))) as [|t text] eqn:Ec; [done|].
  eexists. split.
  - apply try_ok.
    eapply bind_step; [reflexivity|cbn beta].
    eapply bind_step; [by apply lrange_run|cbn beta].
    rewrite slice_from by lia. change (Z.to_nat 4) with 4%nat. rewrite Ed, Ec.
    eapply bind_step; [unfold llm_ainvoke; rewrite Hs; reflexivity|cbn beta zeta].
    eapply bind_step; [reflexivity|cbn beta].
    eapply bind_step; [by apply set_run|cbn beta].
    reflexivity.
  - by wsimpl.
Qed.

Lemma llm_fails (w w0 : world) (p : pystr) :
  (forall reply, head (llm_script w) <> Some (Some reply)) ->
  llm_script w0 = llm_script w ->
  exists e w1, llm_ainvoke p w0 = (Exc e, w1) /\
    redis w1 = redis w0 /\ long_term_memory w1 = long_term_memory w0.
Proof.
  intros Hm Hs. unfold llm_ainvoke. rewrite Hs.
  destruct (llm_script w) as [|[reply|] rest]; [| |]; try by eexists _, _.
  by destruct (Hm reply).
Qed.

(** X7. When the model call fails, neither escalation changes anything
    that is stored: the keyspace, and with it the previous summary and the
    long-term list, and the long-term batches are as before, whichever
    store calls fail besides. *)
Theorem model_failure_changes_nothing (u c : pystr) (w : world) :
  (forall reply, head (llm_script w) <> Some (Some reply)) ->
  redis (snd (_generate_slider_summary u c w)) = redis w /\
  redis (snd (_generate_long_term_memory u c w)) = redis w /\
  long_term_memory (snd (_generate_long_term_memory u c w)) = long_term_memory w.
Proof.
  intros Hm.
  unfold _generate_slider_summary, _generate_long_term_memory.
  rewrite get_key_chat, get_key_summary, get_key_long.
  unfold try_except, bind, lift, redis_call.
  destruct (next_fault w) as [[e|] w0] eqn:E;
    apply next_fault_inv in E as (Hr & _ & _ & Hl & Hs & _).
  { cbv [logger]. by wsimpl. }
  pose proof (lrange_keeps (chat_key u c) 4 (-1) (redis w0)) as K1.
  pose proof (lrange_keeps (chat_key u c) 0 7 (redis w0)) as K2.
  destruct (Redis.lrange _ 4 _ _) as [[older|e1] m1];
  destruct (Redis.lrange _ 0 7 _) as [[recent|e2] m2]; cbn [snd] in K1, K2; subst m1 m2;
  repeat match goal with
         | |- context [match ?x with [] => _ | _ :: _ => _ end] => destruct x
         end;
  repeat match goal with
         | |- context [llm_ainvoke ?p ?w1] =>
             let e := fresh "e" in let w2 := fresh "w2" in
             let E := fresh "E" in let R := fresh "R" in let L := fresh "L" in
             destruct (llm_fails w w1 p Hm) as (e & w2 & E & R & L); [by wsimpl|];
             rewrite E; clear E
         end;
  cbv [logger ret]; wsimpl; repeat split; congruence.
Qed.

Lemma lrange_next (k : pystr) (a b : Z) (w : world) (l : list pystr)
    (fs : list (option pystr)) :
  faults w = None :: fs -> list_at (redis w) k l ->
  redis_call (Redis.lrange k a b) w = (Ok (Redis.slice l a b), set_faults fs w).
Proof.
  intros Hf Hl. rewrite (redis_call_next _ w fs Hf). unfold Redis.lrange.
  destruct Hl as [-> | [-> ->]]; cbn [fst snd]; by rewrite ?slice_nil.
Qed.

Lemma mongo_call_fault {A} (op : world -> A * world) (w : world) (e : pystr)
    (fs : list (option pystr)) :
  faults w = Some e :: fs -> mongo_call op w = (Exc e, set_faults fs w).
Proof. intros Hf. unfold mongo_call, next_fault. by rewrite Hf. Qed.

Lemma rpush_next (k v : pystr) (w : world) (l0 : list pystr) (fs : list (option pystr)) :
  faults w = None :: fs -> list_at (redis w) k l0 ->
  (redis_call (Redis.rpush k v) ;;; ret tt) w
  = (Ok tt, set_redis (<[k := RList (l0 ++ [v])]> (redis w)) (set_faults fs w)).
Proof.
  intros Hf Hl. unfold bind. rewrite (redis_call_next _ w fs Hf). unfold Redis.rpush.
  destruct Hl as [-> | [-> ->]]; reflexivity.
Qed.

Lemma rpush_through (key : pystr) (xs : list pystr) :
  forall (w : world) (l0 : list pystr) (fs : list (option pystr)),
  faults w = replicate (length xs) None ++ fs ->
  list_at (redis w) key l0 ->
  exists w', for_each xs (fun y => redis_call (Redis.rpush key y) ;;; ret tt) w = (Ok tt, w') /\
    list_at (redis w') key (l0 ++ xs) /\ faults w' = fs /\
    long_term_memory w' = long_term_memory w.
Proof.
  induction xs as [|x xs IH]; intros w l0 fs Hf Hl.
  - exists w. by rewrite app_nil_r.
  - cbn [length replicate app] in Hf. cbn [for_each].
    destruct (IH (set_redis (<[key := RList (l0 ++ [x])]> (redis w))
                    (set_faults (replicate (length xs) None ++ fs) w))
                 (l0 ++ [x]) fs) as (w' & E & Hl' & Hf' & Hm'); [done| |].
    { left. wsimpl. apply lookup_insert_eq. }
    exists w'. split; [|by rewrite <- app_assoc in Hl'].
    eapply bind_step; [|exact E]. by apply rpush_next.
Qed.

Lemma rpush_until_fault (key : pystr) (xs : list pystr) :
  forall (k : nat) (w : world) (l0 : list pystr) (e : pystr) (fs : list (option pystr)),
  faults w = replicate k None ++ Some e :: fs ->
  (k < length xs)%nat ->
  list_at (redis w) key l0 ->
  exists w', for_each xs (fun y => redis_call (Redis.rpush key y) ;;; ret tt) w = (Exc e, w') /\
    list_at (redis w') key (l0 ++ take k xs) /\ faults w' = fs /\
    long_term_memory w' = long_term_memory w.
Proof.
  induction xs as [|x xs IH]; intros k w l0 e fs Hf Hk Hl; [cbn [length] in Hk; lia|].
  cbn [for_each]. destruct k as [|k]; cbn [replicate app] in Hf.
  - exists (set_faults fs w). rewrite take_0, app_nil_r. split; [|done].
    apply bind_raise, bind_raise. by apply redis_call_fault.
  - destruct (IH k (set_redis (<[key := RList (l0 ++ [x])]> (redis w))
                      (set_faults (replicate k None ++ Some e :: fs) w))
                 (l0 ++ [x]) e fs) as (w' & E & Hl' & Hf' & Hm'); [done| | |].
    { cbn [length] in Hk. lia. }
    { left. wsimpl. apply lookup_insert_eq. }
    exists w'. split; [|by rewrite <- app_assoc in Hl'].
    eapply bind_step; [|exact E]. by apply rpush_next.
Qed.

(** X8. The extraction is not atomic. When the store fails after [k] of the
    five points have been appended to the hot long-term list (the sixth
    call is the durable insert), those [k] points stay in the hot list, no
    durable batch is written for them, and the method still returns
    normally. *)
Theorem partial_extraction_stays_in_hot_list (u c : pystr) (w : world)
    (l pts : list pystr) (reply e : pystr) (rest fs : list (option pystr)) (k : nat) :
  faults w = None :: replicate k None ++ Some e :: fs ->
  (k <= 5)%nat ->
  list_at (redis w) (chat_key u c) l ->
  conversation_lines (reverse (take 8 l)) <> [] ->
  list_at (redis w) (long_term_key u) pts ->
  llm_script w = Some reply :: rest ->
  exists w', _generate_long_term_memory u c w = (Ok tt, w') /\
    list_at (redis w') (long_term_key u) (pts ++ take k (extract_points (strip reply))) /\
    long_term_memory w' = long_term_memory w.
Proof.
  intros Hf Hk Hl Hlines Hp Hs. unfold _generate_long_term_memory.
  rewrite get_key_chat, get_key_long.
  destruct (take 8 l) as [|x recent] eqn:Et; [done|].
  destruct (conversation_lines (reverse (x :: recent))) as [|t text] eqn:Ec; [done|].
  set (points := extract_points (strip reply)).
  assert (length points = 5%nat) as Hlen by apply extract_points_length.
  set (w1 := set_llm rest (llm_calls w ++ [long_term_prompt (t :: text)])
               (set_faults (replicate k None ++ Some e :: fs) w)).
  assert (exists w2, (for_each points
              (fun point => redis_call (Redis.rpush (long_term_key u) point) ;;; ret tt) ;;;
            long_term_memory_insert_one (mkBatch u points c) ;;;
            logger INFO (py "Generated long-term memory for " ++ u)) w1 = (Exc e, w2) /\
            list_at (redis w2) (long_term_key u) (pts ++ take k points) /\
            long_term_memory w2 = long_term_memory w) as (w2 & E & Hl2 & Hm2).
  { destruct (decide (k < 5)%nat) as [Hlt|Hge].
    - destruct (rpush_until_fault (long_term_key u) points k w1 pts e fs)
        as (w2 & E & Hl2 & _ & Hm2); [done|lia|done|].
      exists w2. split; [|done]. by apply bind_raise.
    - assert (k = 5%nat) as -> by lia.
      destruct (rpush_through (long_term_key u) points w1 pts (Some e :: fs))
        as (w2 & E & Hl2 & Hf2 & Hm2); [by rewrite Hlen|done|].
      exists (set_faults fs w2). rewrite take_ge by lia. split; [|done].
      eapply bind_step; [exact E|cbn beta]. apply bind_raise.
      unfold long_term_memory_insert_one. by apply mongo_call_fault. }
  eexists. split.
  - erewrite try_exc; [reflexivity|].
    eapply bind_step; [reflexivity|cbn beta].
    eapply bind_step; [by apply (lrange_next _ _ _ _ l)|cbn beta].
    rewrite slice_prefix by lia. change (Z.to_nat (7 + 1)) with 8%nat. rewrite Et, Ec.
    eapply bind_step; [unfold llm_ainvoke; wsimpl; rewrite Hs; reflexivity|cbn beta zeta].
    eapply bind_step; [reflexivity|cbn beta].
    exact E.
  - cbv [logger]. by wsimpl.
Qed.

(** *** Reading the memory *)

(** X9. Reading the memory state never fails and never writes: whatever
    store calls fail, the endpoint returns a context, and the keyspace, the
    three durable collections and the record of model calls are as before. *)
Theorem reading_memory_changes_nothing (u c : pystr) (w : world) :
  (exists ctx, fst (get_memory_endpoint u c w) = Ok ctx) /\
  redis (snd (get_memory_endpoint u c w)) = redis w /\
  chat_history (snd (get_memory_endpoint u c w)) = chat_history w /\
  short_term_memory (snd (get_memory_endpoint u c w)) = short_term_memory w /\
  long_term_memory (snd (get_memory_endpoint u c w)) = long_term_memory w /\
  llm_calls (snd (get_memory_endpoint u c w)) = llm_calls w.
Proof.
  split; [apply total_try_body, get_context_total|].
  split; [apply frame_nil_redis|repeat split]; revert w;
    match goal with
    | |- forall w, ?f (snd _) = _ => change (keeps (same f) (get_memory_endpoint u c))
    | |- _ => change (keeps (frame []) (get_memory_endpoint u c))
    end;
    unfold get_memory_endpoint, get_context_for_search; keeps_tac.
Qed.

#[local] Instance kinds_kept_preorder u c : PreOrder (kinds_kept u c).
Proof.
  split.
  - intros w. split; [by eauto|]. intros p Hp. by exists p.
  - intros w1 w2 w3 [S1 L1] [S2 L2]. split.
    + intros s Hs. destruct (S1 s Hs) as [s' Hs']. eauto.
    + intros p Hp. destruct (L1 p Hp) as (p' & Hpp & Hp').
      destruct (L2 p' Hp') as (p'' & Hpp' & Hp''). exists p''. split; [by etrans|done].
Qed.

Lemma kinds_kept_of_lookup u c (w w' : world) :
  redis w' !! summary_key u c = redis w !! summary_key u c ->
  redis w' !! long_term_key u = redis w !! long_term_key u ->
  kinds_kept u c w w'.
Proof.
  intros Hs Hl. unfold kinds_kept, str_at, list_at. rewrite Hs, Hl.
  split; [by eauto|]. intros p Hp. by exists p.
Qed.

Lemma keeps_kinds_of_frame u c (ks : list pystr) {A} (m : M A) :
  summary_key u c ∉ ks -> long_term_key u ∉ ks ->
  keeps (frame ks) m -> keeps (kinds_kept u c) m.
Proof.
  intros Hs Hl Hm w. destruct (Hm w) as [Hr _]. apply kinds_kept_of_lookup; by apply Hr.
Qed.

Lemma keeps_kinds_set u c (v : pystr) :
  keeps (kinds_kept u c) (redis_call (Redis.set (summary_key u c) v)).
Proof.
  intros w. unfold redis_call, next_fault.
  destruct (faults w) as [|[e|] fs]; cbn [Redis.set]; wsimpl;
    try (by apply kinds_kept_of_lookup);
    (split; [intros s _; exists v; left; apply lookup_insert_eq|]);
    intros p Hp; exists p; (split; [done|]);
    unfold list_at in *; wsimpl; rewrite !lookup_insert_ne by key_neq; done.
Qed.

Lemma keeps_kinds_rpush u c (v : pystr) :
  keeps (kinds_kept u c) (redis_call (Redis.rpush (long_term_key u) v)).
Proof.
  assert (forall m : Redis.keyspace,
    (snd (Redis.rpush (long_term_key u) v m) !! summary_key u c = m !! summary_key u c) /\
    (forall p, list_at m (long_term_key u) p ->
       exists p', p `prefix_of` p' /\
         list_at (snd (Redis.rpush (long_term_key u) v m)) (long_term_key u) p')) as Hop.
  { intros m. unfold Redis.rpush, list_at.
    destruct (m !! long_term_key u) as [[l|s]|] eqn:E; cbn [snd].
    - split; [rewrite lookup_insert_ne; [done|key_neq]|].
      intros p [[= <-]|[? _]]; [|done]. exists (l ++ [v]).
      split; [by apply prefix_app_r|]. left. apply lookup_insert_eq.
    - split; [done|]. intros p [?|[? _]]; done.
    - split; [rewrite lookup_insert_ne; [done|key_neq]|].
      intros p [?|[_ ->]]; [done|]. exists [v].
      split; [apply prefix_nil|]. left. apply lookup_insert_eq. }
  intros w. unfold redis_call, next_fault.
  destruct (faults w) as [|[e|] fs]; wsimpl; try (by apply kinds_kept_of_lookup);
    destruct (Hop (redis w)) as [Hs Hl];
    destruct (Redis.rpush _ _ _) as [r m]; wsimpl;
    (split; [intros s; unfold str_at; wsimpl; rewrite Hs; eauto|exact Hl]).
Qed.

Lemma summary_long_outside u c :
  (summary_key u c ∉ [chat_key u c; short_key u c; count_key u c]) /\
  (long_term_key u ∉ [chat_key u c; short_key u c; count_key u c]).
Proof.
  rewrite !not_elem_of_cons. repeat split; first [apply not_elem_of_nil|key_neq].
Qed.

Ltac kinds_leaf u c :=
  first [ apply keeps_kinds_set
        | apply keeps_kinds_rpush
        | apply (keeps_kinds_of_frame u c [chat_key u c; short_key u c; count_key u c]);
          [apply summary_long_outside|apply summary_long_outside|keeps_leaf] ].

Lemma add_message_kinds u c (msg : Message) : keeps (kinds_kept u c) (add_message u c msg).
Proof. unfold add_message. keeps_tac; kinds_leaf u c. Qed.

Lemma reverse_take_reverse {A} (k : nat) (l : list A) :
  reverse (take k (reverse l)) = drop (length l - k) l.
Proof. by rewrite take_reverse, reverse_involutive. Qed.

Section MoreLaws.

Context `{!JsonLaws}.

Lemma loads_msgs (ms : list Message) :
  omap json_loads (msg_json_of <$> ms) = msg_data_of <$> ms.
Proof.
  induction ms as [|m ms IH]; [done|].
  cbn [fmap list_fmap omap list_omap]. unfold msg_json_of at 1.
  rewrite loads_dumps_msg. cbn [fmap list_fmap] in IH. by rewrite IH.
Qed.

Lemma ingest_then_read (u c : pystr) (t : Message) (ts : list Message) (w : world)
    (s0 : pystr) (p0 : list pystr) :
  faults w = [] ->
  redis w !! chat_key u c = None ->
  redis w !! count_key u c = None ->
  str_at (redis w) (summary_key u c) s0 ->
  list_at (redis w) (long_term_key u) p0 ->
  Z.of_nat (length (t :: ts)) <= int64_max ->
  exists w1 s1 p1, ingest_all u c (t :: ts) w = (Ok tt, w1) /\
    faults w1 = [] /\
    list_at (redis w1) (short_key u c)
      (msg_json_of <$> drop (length (t :: ts) - 4) (t :: ts)) /\
    list_at (redis w1) (chat_key u c)
      (reverse (msg_json_of <$> drop (length (t :: ts) - 8) (t :: ts))) /\
    str_at (redis w1) (summary_key u c) s1 /\
    list_at (redis w1) (long_term_key u) p1 /\ p0 `prefix_of` p1.
Proof.
  intros Hf Hb Hc Hs Hp Hmax.
  destruct (ingest_all_spec u c ts t w [] 0) as (w1 & E & Hf1 & Hb1 & Hs1 & _);
    [done|by right|by right|lia|lia|].
  assert (keeps (kinds_kept u c) (ingest_all u c (t :: ts))) as K.
  { apply keeps_for_each; [typeclasses eauto|]. intros m. apply add_message_kinds. }
  specialize (K w). rewrite E in K. destruct K as [Ks Kl]. cbn [snd] in Ks, Kl.
  destruct (Ks s0 Hs) as [s1 Hs1']. destruct (Kl p0 Hp) as (p1 & Hpp & Hp1).
  exists w1, s1, p1. rewrite app_nil_r in *.
  repeat split; try done.
  - left. rewrite Hs1, take_take. change (4 `min` 8)%nat with 4%nat.
    by rewrite reverse_take_reverse, length_fmap, fmap_drop.
  - left. rewrite Hb1. f_equal.
    rewrite <- (reverse_involutive (take 8 _)).
    by rewrite reverse_take_reverse, length_fmap, fmap_drop.
Qed.

(** X10. What is ingested can be read back: after a successful run of
    ingestions into a new conversation, the context holds the last four
    turns as its short-term messages and the last eight as its recent
    history, both oldest first and as the dicts that were serialized, and
    the long-term points still begin with the points held before. *)
Theorem context_after_ingestion (u c : pystr) (t : Message) (ts : list Message)
    (w : world) (s0 : pystr) (p0 : list pystr) :
  faults w = [] ->
  redis w !! chat_key u c = None ->
  redis w !! count_key u c = None ->
  str_at (redis w) (summary_key u c) s0 ->
  list_at (redis w) (long_term_key u) p0 ->
  Z.of_nat (length (t :: ts)) <= int64_max ->
  exists w1 ctx, ingest_all u c (t :: ts) w = (Ok tt, w1) /\
    get_context_for_search u c w1 = (Ok ctx, w1) /\
    short_term_messages ctx = msg_data_of <$> drop (length (t :: ts) - 4) (t :: ts) /\
    recent_history ctx = msg_data_of <$> drop (length (t :: ts) - 8) (t :: ts) /\
    p0 `prefix_of` long_term_points ctx.
Proof.
  intros Hf Hb Hc Hs Hp Hmax.
  destruct (ingest_then_read u c t ts w s0 p0) as
    (w1 & s1 & p1 & E & Hf1 & Hw & Hb1 & Hs1 & Hp1 & Hpp); try done.
  exists w1. eexists. split; [exact E|]. split.
  - eapply (get_context_run u c w1); eassumption.
  - cbn [short_term_messages recent_history long_term_points].
    rewrite loads_msgs. split; [done|]. split; [|done].
    rewrite take_ge, reverse_involutive, loads_msgs; [done|].
    rewrite length_reverse, length_fmap, length_drop. cbn [length]. lia.
Qed.

Lemma slider_window (all : list Message) :
  (8 <= length all)%nat ->
  slider_calls_msgs (take 8 (reverse all))
  = [slider_prompt (line_of <$> take 4 (drop (length all - 8) all))].
Proof.
  intros Hlen. unfold slider_calls_msgs.
  assert (reverse (drop 4 (take 8 (reverse all))) = take 4 (drop (length all - 8) all)) as Hr.
  { rewrite <- (reverse_take_reverse 8 all), (take_reverse _ 4).
    do 2 f_equal. rewrite length_take, length_reverse. lia. }
  destruct (drop 4 (take 8 (reverse all))) as [|m older] eqn:E.
  - apply (f_equal length) in E.
    rewrite length_drop, length_take, length_reverse in E. cbn [length] in E. lia.
  - by rewrite Hr.
Qed.

Lemma slider_no_window (all : list Message) :
  (length all <= 4)%nat -> slider_calls_msgs (take 8 (reverse all)) = [].
Proof.
  intros Hlen. unfold slider_calls_msgs. rewrite drop_ge; [done|].
  rewrite length_take, length_reverse. lia.
Qed.

Lemma long_term_window (all : list Message) :
  all <> [] ->
  long_term_calls_msgs (take 8 (reverse all))
  = [long_term_prompt (line_of <$> drop (length all - 8) all)].
Proof.
  intros Hne. unfold long_term_calls_msgs. rewrite take_take. change (8 `min` 8)%nat with 8%nat.
  destruct (take 8 (reverse all)) as [|m recent] eqn:E.
  - apply (f_equal length) in E. rewrite length_take, length_reverse in E.
    destruct all; [done|]. cbn [length] in E. lia.
  - by rewrite <- E, reverse_take_reverse.
Qed.

(** X11. Which turns each escalation reads, for a conversation of any
    length: when the [n]-th turn is ingested into a conversation that was
    new, the summary is requested exactly when [n] is a multiple of four and
    at least eight, over the turns [n-7 .. n-4] (the four just before the
    window); the extraction is requested exactly when [n] is a multiple of
    eight, over the turns [n-7 .. n]. *)
Theorem escalation_windows (u c : pystr) (turns : list Message) (t : Message) (w : world) :
  faults w = [] ->
  redis w !! chat_key u c = None ->
  redis w !! count_key u c = None ->
  Z.of_nat (length (turns ++ [t])) <= int64_max ->
  exists w1 w2, ingest_all u c turns w = (Ok tt, w1) /\
    add_message u c t w1 = (Ok tt, w2) /\
    llm_calls w2 = llm_calls w1
      ++ (if (Z.of_nat (length (turns ++ [t])) mod 4 =? 0)
             && (8 <=? Z.of_nat (length (turns ++ [t])))
          then [slider_prompt
                  (line_of <$> take 4 (drop (length (turns ++ [t]) - 8) (turns ++ [t])))]
          else [])
      ++ (if Z.of_nat (length (turns ++ [t])) mod 8 =? 0
          then [long_term_prompt
                  (line_of <$> drop (length (turns ++ [t]) - 8) (turns ++ [t]))]
          else []).
Proof.
  intros Hf Hb Hc Hmax. rewrite length_app in Hmax. cbn [length] in Hmax.
  assert (exists w1, ingest_all u c turns w = (Ok tt, w1) /\ faults w1 = [] /\
            list_at (redis w1) (chat_key u c) (take 8 (reverse (msg_json_of <$> turns))) /\
            count_at (redis w1) (count_key u c) (Z.of_nat (length turns)))
    as (w1 & E1 & Hf1 & Hb1 & Hc1).
  { destruct turns as [|t0 ts].
    - exists w. repeat split; try done; by right.
    - destruct (ingest_all_spec u c ts t0 w [] 0) as (w1 & E & Hf1 & Hb1 & _ & Hc1 & _);
        [done|by right|by right|lia|lia|].
      exists w1. rewrite app_nil_r in Hb1. repeat split; try done; by left. }
  destruct (add_message_step u c t w1 _ _ Hf1 Hb1 Hc1) as (w2 & E2 & _ & _ & _ & _ & _ & Hcalls);
    [lia|].
  exists w1, w2. split; [done|]. split; [done|]. rewrite Hcalls. f_equal.
  set (all := turns ++ [t]).
  assert (take 8 (msg_json_of t :: take 8 (reverse (msg_json_of <$> turns)))
          = msg_json_of <$> take 8 (reverse all)) as ->.
  { rewrite take_cons_take by lia. unfold all.
    by rewrite fmap_take, fmap_reverse, fmap_app, reverse_app. }
  assert (Z.of_nat (length turns) + 1 = Z.of_nat (length all)) as ->.
  { unfold all. rewrite length_app. cbn [length]. lia. }
  assert (all <> []) as Hne by (unfold all; by destruct turns).
  assert (0 < length all)%nat as Hpos by (destruct all; [done|cbn [length]; lia]).
  unfold escalation_calls. rewrite slider_calls_of_msgs, long_term_calls_of_msgs.
  rewrite (long_term_window all Hne). f_equal.
  destruct (Z.eqb_spec (Z.of_nat (length all) mod 4) 0) as [Hm|Hm]; [|done].
  destruct (Z.leb_spec 8 (Z.of_nat (length all))) as [H8|H8]; cbn [andb].
  - apply slider_window. lia.
  - apply slider_no_window. apply Z.mod_divide in Hm; [|lia].
    destruct Hm as [q Hq]. lia.
Qed.

End MoreLaws.

(** *** Sessions *)

Lemma cleared_cleared (u c : pystr) (m : Redis.keyspace) :
  cleared u c (cleared u c m) = cleared u c m.
Proof.
  apply map_eq. intros k.
  destruct (cleared_lookup u c m) as (Hch & Hco & Hsh & Hsu & _).
  destruct (cleared_lookup u c (cleared u c m)) as (Hch' & Hco' & Hsh' & Hsu' & Hother).
  destruct (decide (k ∈ [short_key u c; summary_key u c; chat_key u c; count_key u c]))
    as [Hin|Hout]; [|by apply Hother].
  rewrite !elem_of_cons in Hin.
  destruct Hin as [->|[->|[->|[->|Hin]]]]; [congruence..|].
  by apply elem_of_nil in Hin.
Qed.

(** X12. A second logout in a row keeps what the first one saved: with the
    window and the summary gone there is nothing to save, so the snapshot
    is not overwritten by an empty one, and the keyspace stays cleared. *)
Theorem second_logout_keeps_the_snapshot (u c : pystr) (w : world)
    (l : list pystr) (s : pystr) :
  faults w = [] ->
  list_at (redis w) (short_key u c) l ->
  str_at (redis w) (summary_key u c) s ->
  exists w1 w2, logout_endpoint u c w = (Ok tt, w1) /\
    logout_endpoint u c w1 = (Ok tt, w2) /\
    short_term_memory w2 = short_term_memory w1 /\
    redis w2 = redis w1.
Proof.
  intros Hf Hl Hs.
  destruct (logout_run u c w l s Hf Hl Hs) as (w1 & E1 & Hf1 & Hr1 & _).
  destruct (cleared_lookup u c (redis w)) as (_ & _ & Hsh & Hsu & _).
  destruct (logout_run u c w1 [] [] Hf1) as (w2 & E2 & _ & Hr2 & Hst2 & _).
  { right. by rewrite Hr1. }
  { right. by rewrite Hr1. }
  exists w1, w2. repeat split; try done.
  by rewrite Hr2, Hr1, cleared_cleared.
Qed.

Lemma restored_restored (u c : pystr) (d : snapshot) (m : Redis.keyspace) :
  restored u c d (restored u c d m) = restored u c d m.
Proof.
  assert (summary_key u c <> short_key u c) as Hne by key_neq.
  assert (short_key u c <> summary_key u c) as Hne' by key_neq.
  unfold restored, Redis.store_list.
  destruct (json_dumps <$> s_messages d) as [|x xs], (s_slider_summary d) as [|ch s'].
  - apply delete_delete_eq.
  - by rewrite delete_insert_ne, delete_delete_eq, insert_insert_eq.
  - apply insert_insert_eq.
  - apply map_eq. intros k.
    destruct (decide (k = summary_key u c)) as [->|Hk1]; [by rewrite !lookup_insert_eq|].
    rewrite !(lookup_insert_ne _ (summary_key u c)) by done.
    destruct (decide (k = short_key u c)) as [->|Hk2]; [by rewrite !lookup_insert_eq|].
    by rewrite !lookup_insert_ne by done.
Qed.

(** X13. Login is idempotent on the hot tier: a repeated login leaves the
    keyspace as the first one made it. *)
Theorem login_twice_is_login_once (u c : pystr) (w : world) :
  faults w = [] ->
  exists w1 w2, login_endpoint u c w = (Ok tt, w1) /\
    login_endpoint u c w1 = (Ok tt, w2) /\
    redis w2 = redis w1.
Proof.
  intros Hf. destruct (short_term_memory w !! (u, c)) as [d|] eqn:Ed.
  - destruct (login_run u c w d Hf Ed) as (w1 & E1 & Hf1 & Hr1 & Hst1 & _).
    destruct (login_run u c w1 d Hf1) as (w2 & E2 & _ & Hr2 & _); [by rewrite Hst1|].
    exists w1, w2. repeat split; try done. by rewrite Hr2, Hr1, restored_restored.
  - destruct (login_run_none u c w Hf Ed) as (w1 & E1 & Hf1 & Hr1 & Hst1 & _).
    destruct (login_run_none u c w1 Hf1) as (w2 & E2 & _ & Hr2 & _); [by rewrite Hst1|].
    by exists w1, w2.
Qed.

(** X14. The window that login restores is not added to. After a logout
    and a login, the first turn ingested finds the buffer and the counter
    gone: the window becomes that turn alone and the counter restarts at 1,
    so the next escalations are counted from the login on. *)
Theorem restored_window_is_replaced_by_next_turn (u c : pystr) (w : world)
    (l : list pystr) (s : pystr) (t : Message) :
  faults w = [] ->
  list_at (redis w) (short_key u c) l ->
  str_at (redis w) (summary_key u c) s ->
  exists w1 w2 w3, logout_endpoint u c w = (Ok tt, w1) /\
    login_endpoint u c w1 = (Ok tt, w2) /\
    add_message u c t w2 = (Ok tt, w3) /\
    redis w3 !! short_key u c = Some (RList [msg_json_of t]) /\
    redis w3 !! chat_key u c = Some (RList [msg_json_of t]) /\
    redis w3 !! count_key u c = Some (RStr (str_of_int 1)).
Proof.
  intros Hf Hl Hs.
  destruct (logout_run u c w l s Hf Hl Hs) as (w1 & E1 & Hf1 & Hr1 & _).
  destruct (cleared_lookup u c (redis w)) as (Hch & Hco & _).
  destruct (total_run _ w1 (login_endpoint_total u c)) as [[] E2].
  pose proof (login_endpoint_frame u c w1) as [Hr2 Hf2].
  set (w2 := snd (login_endpoint u c w1)) in *.
  assert (forall k, k = chat_key u c \/ k = count_key u c ->
            k ∉ [short_key u c; summary_key u c]) as Hout.
  { intros k Hk. rewrite !not_elem_of_cons.
    repeat split; try apply not_elem_of_nil; destruct Hk as [-> | ->]; key_neq. }
  destruct (add_message_step u c t w2 [] 0) as (w3 & E3 & _ & Hb3 & Hs3 & Hc3 & _).
  { by apply Hf2. }
  { right. by rewrite Hr2, Hr1 by auto. }
  { right. by rewrite Hr2, Hr1 by auto. }
  { done. }
  by exists w1, w2, w3.
Qed.

Lemma del_until_fault (keys : list pystr) :
  forall (k : nat) (w : world) (e : pystr) (fs : list (option pystr)),
  faults w = replicate k None ++ Some e :: fs ->
  (k < length keys)%nat ->
  exists w', for_each keys (fun key => redis_call (Redis.del key) ;;; ret tt) w = (Exc e, w') /\
    redis w' = foldl (fun m key => delete key m) (redis w) (take k keys) /\
    faults w' = fs.
Proof.
  induction keys as [|x keys IH]; intros k w e fs Hf Hk; [cbn [length] in Hk; lia|].
  cbn [for_each]. destruct k as [|k]; cbn [replicate app] in Hf.
  - exists (set_faults fs w). split; [|done].
    apply bind_raise, bind_raise. by apply redis_call_fault.
  - destruct (IH k (set_redis (delete x (redis w))
                      (set_faults (replicate k None ++ Some e :: fs) w)) e fs)
      as (w' & E & Hr' & Hf'); [done|cbn [length] in Hk; lia|].
    exists w'. split; [|done].
    eapply bind_step; [|exact E].
    unfold bind. rewrite (redis_call_next _ w _ Hf).
    destruct (del_result x (redis w)) as [n ->]. reflexivity.
Qed.

(** X15. The clearing stops at the first delete that fails: the keys
    before it (in the order window, summary, buffer, counter) are deleted,
    the failing one and those after it are left as they were, and the
    method returns normally all the same. *)
Theorem failed_delete_ends_the_clearing (u c : pystr) (w : world) (k : nat)
    (e : pystr) (fs : list (option pystr)) :
  faults w = replicate k None ++ Some e :: fs ->
  (k < 4)%nat ->
  exists w', clear_redis_on_logout u c w = (Ok tt, w') /\
    redis w' = foldl (fun m key => delete key m) (redis w)
                 (take k [short_key u c; summary_key u c; chat_key u c; count_key u c]).
Proof.
  intros Hf Hk. unfold clear_redis_on_logout.
  rewrite get_key_short, get_key_summary, get_key_chat, get_key_count.
  destruct (del_until_fault
              [short_key u c; summary_key u c; chat_key u c; count_key u c] k w e fs Hf Hk)
    as (w' & E & Hr & _).
  eexists. split.
  - erewrite try_exc; [reflexivity|].
    do 4 (eapply bind_step; [reflexivity|cbn beta]).
    apply bind_raise. exact E.
  - cbv [logger]. by wsimpl.
Qed.

(** X16. The session endpoints hide every failure: whichever store calls
    fail, login and logout return normally, and neither changes the chat
    log, the long-term batches or the hot long-term list: all three are
    after the call exactly what they were before. *)
Theorem session_endpoints_hide_failures (u c : pystr) (w : world) :
  (fst (login_endpoint u c w) = Ok tt /\ fst (logout_endpoint u c w) = Ok tt) /\
  (chat_history (snd (login_endpoint u c w)) = chat_history w /\
   long_term_memory (snd (login_endpoint u c w)) = long_term_memory w /\
   redis (snd (login_endpoint u c w)) !! long_term_key u = redis w !! long_term_key u) /\
  (chat_history (snd (logout_endpoint u c w)) = chat_history w /\
   long_term_memory (snd (logout_endpoint u c w)) = long_term_memory w /\
   redis (snd (logout_endpoint u c w)) !! long_term_key u = redis w !! long_term_key u).
Proof.
  assert (keeps (frame [short_key u c; summary_key u c; chat_key u c; count_key u c])
            (logout_endpoint u c)) as Hout.
  { unfold logout_endpoint, save_short_term_on_logout, clear_redis_on_logout. keeps_tac. }
  assert (forall ks : list pystr, ks ⊆ [short_key u c; summary_key u c; chat_key u c; count_key u c] ->
            long_term_key u ∉ ks) as Hl.
  { intros ks Hks Hin. apply Hks in Hin. rewrite !elem_of_cons in Hin.
    destruct Hin as [E|[E|[E|[E|E]]]]; [revert E; key_neq..|by apply elem_of_nil in E]. }
  assert (keeps (same chat_history) (login_endpoint u c)) as Hin1.
  { unfold login_endpoint, load_short_term_on_login. keeps_tac. }
  assert (keeps (same long_term_memory) (login_endpoint u c)) as Hin2.
  { unfold login_endpoint, load_short_term_on_login. keeps_tac. }
  assert (keeps (same chat_history) (logout_endpoint u c)) as Hout1.
  { unfold logout_endpoint, save_short_term_on_logout, clear_redis_on_logout. keeps_tac. }
  assert (keeps (same long_term_memory) (logout_endpoint u c)) as Hout2.
  { unfold logout_endpoint, save_short_term_on_logout, clear_redis_on_logout. keeps_tac. }
  split; [split|split; split; [|split| |split]].
  - destruct (login_endpoint_total u c w) as [[] E]. exact E.
  - destruct (logout_endpoint_total u c w) as [[] E]. exact E.
  - apply (Hin1 w).
  - apply (Hin2 w).
  - apply (login_endpoint_frame u c w). apply Hl. set_solver.
  - apply (Hout1 w).
  - apply (Hout2 w).
  - apply (Hout w). by apply Hl.
Qed.

(** *** A conversation turn *)

Section TurnProofs.

Variable agent_ainvoke : pystr -> pystr -> Message -> M (option pystr).
Variable utcnow : world -> pystr.

Lemma process_conversation_total u c text :
  total (process_conversation agent_ainvoke utcnow u c text).
Proof.
  apply total_try_handler. intros e.
  apply total_bind; [|intros _; apply total_ret].
  apply total_try_handler. intros _. apply total_ret.
Qed.

(** X17. A chat turn whose store calls succeed and whose agent replies
    ingests two turns, the user's text as [human] and the reply as
    [assistant]: two rows are appended to the chat log in that order, the
    counter advances by two, and the reply is returned. *)
Theorem chat_turn_ingests_two_turns (u c text reply : pystr) (w : world)
    (l : list pystr) (n : Z) :
  faults w = [] ->
  list_at (redis w) (chat_key u c) l ->
  count_at (redis w) (count_key u c) n ->
  0 <= n -> n + 2 <= int64_max ->
  (forall w1, faults w1 = [] ->
     exists w1', agent_ainvoke u c (mkMessage (py "human") text (utcnow w)) w1
                 = (Ok (Some reply), w1') /\
       faults w1' = [] /\ redis w1' = redis w1 /\ chat_history w1' = chat_history w1) ->
  exists w' t2, process_conversation agent_ainvoke utcnow u c text w = (Ok reply, w') /\
    count_at (redis w') (count_key u c) (n + 2) /\
    list_at (redis w') (chat_key u c)
      (take 8 (msg_json_of (mkMessage (py "assistant") reply t2)
               :: msg_json_of (mkMessage (py "human") text (utcnow w)) :: l)) /\
    chat_history w' = chat_history w
      ++ [mkChatDoc u c (py "human") text (utcnow w);
          mkChatDoc u c (py "assistant") reply t2].
Proof.
  intros Hf Hl Hc Hn Hmax Hagent.
  set (m1 := mkMessage (py "human") text (utcnow w)) in *.
  destruct (add_message_step u c m1 w l n Hf Hl Hc) as (w1 & E1 & Hf1 & Hb1 & _ & Hc1 & Hh1 & _);
    [lia|].
  destruct (Hagent w1 Hf1) as (w1' & Ea & Hf1' & Hr1' & Hh1').
  set (m2 := mkMessage (py "assistant") reply (utcnow w1')).
  destruct (add_message_step u c m2 w1' (take 8 (msg_json_of m1 :: l)) (n + 1))
    as (w2 & E2 & _ & Hb2 & _ & Hc2 & Hh2 & _);
    [done|left; by rewrite Hr1'|left; by rewrite Hr1'|lia|].
  exists w2, (utcnow w1'). split; [|split; [|split]].
  - unfold process_conversation. apply try_ok.
    eapply bind_step; [reflexivity|cbn beta]. fold m1.
    eapply bind_step; [exact E1|cbn beta].
    eapply bind_step; [exact Ea|cbn beta].
    eapply bind_step; [reflexivity|cbn beta]. fold m2.
    eapply bind_step; [exact E2|reflexivity].
  - left. rewrite Hc2. do 3 f_equal. lia.
  - left. rewrite Hb2. by rewrite take_cons_take by lia.
  - rewrite Hh2, Hh1', Hh1, <- app_assoc. reflexivity.
Qed.

(** X18. When the agent raises, the turn still ends normally: the text
    returned is the apology followed by the exception text, and that same
    text is ingested as the [assistant] turn after the user's. *)
Theorem agent_failure_becomes_an_apology (u c text e : pystr) (w : world)
    (l : list pystr) (n : Z) :
  faults w = [] ->
  list_at (redis w) (chat_key u c) l ->
  count_at (redis w) (count_key u c) n ->
  0 <= n -> n + 2 <= int64_max ->
  (forall w1, faults w1 = [] ->
     exists w1', agent_ainvoke u c (mkMessage (py "human") text (utcnow w)) w1
                 = (Exc e, w1') /\
       faults w1' = [] /\ redis w1' = redis w1 /\ chat_history w1' = chat_history w1) ->
  exists w' t2,
    process_conversation agent_ainvoke utcnow u c text w
    = (Ok (py "I apologize, but I encountered an error: " ++ e), w') /\
    count_at (redis w') (count_key u c) (n + 2) /\
    chat_history w' = chat_history w
      ++ [mkChatDoc u c (py "human") text (utcnow w);
          mkChatDoc u c (py "assistant")
            (py "I apologize, but I encountered an error: " ++ e) t2].
Proof.
  intros Hf Hl Hc Hn Hmax Hagent.
  set (m1 := mkMessage (py "human") text (utcnow w)) in *.
  destruct (add_message_step u c m1 w l n Hf Hl Hc) as (w1 & E1 & Hf1 & Hb1 & _ & Hc1 & Hh1 & _);
    [lia|].
  destruct (Hagent w1 Hf1) as (w1' & Ea & Hf1' & Hr1' & Hh1').
  set (m2 := mkMessage (py "assistant")
               (py "I apologize, but I encountered an error: " ++ e) (utcnow w1')).
  destruct (add_message_step u c m2 w1' (take 8 (msg_json_of m1 :: l)) (n + 1))
    as (w2 & E2 & _ & _ & _ & Hc2 & Hh2 & _);
    [done|left; by rewrite Hr1'|left; by rewrite Hr1'|lia|].
  exists w2, (utcnow w1'). split; [|split].
  - unfold process_conversation.
    rewrite (try_exc _ _ w w1' e).
    + eapply bind_step; [|reflexivity].
      apply try_ok. eapply bind_step; [reflexivity|cbn beta]. exact E2.
    + eapply bind_step; [reflexivity|cbn beta]. fold m1.
      eapply bind_step; [exact E1|cbn beta].
      apply bind_raise. exact Ea.
  - left. rewrite Hc2. do 3 f_equal. lia.
  - rewrite Hh2, Hh1', Hh1, <- app_assoc. reflexivity.
Qed.

(** X19. When the chat log rejects the user's turn, the agent is not run:
    whatever the agent is, the turn returns the apology with the store's
    error text, and the apology is ingested as an [assistant] turn on its
    own, so the log holds an answer without its question. *)
Theorem rejected_user_turn_leaves_a_lone_apology (u c text e : pystr) (w : world)
    (l : list pystr) (n : Z) :
  faults w = [Some e] ->
  list_at (redis w) (chat_key u c) l ->
  count_at (redis w) (count_key u c) n ->
  0 <= n < int64_max ->
  exists w' t2,
    process_conversation agent_ainvoke utcnow u c text w
    = (Ok (py "I apologize, but I encountered an error: " ++ e), w') /\
    count_at (redis w') (count_key u c) (n + 1) /\
    chat_history w' = chat_history w
      ++ [mkChatDoc u c (py "assistant")
            (py "I apologize, but I encountered an error: " ++ e) t2].
Proof.
  intros Hf Hl Hc Hn.
  set (m1 := mkMessage (py "human") text (utcnow w)).
  set (wX := set_logs (logs (set_faults [] w) ++ [(ERROR, py "Error adding message: " ++ e)])
               (set_faults [] w)).
  assert (add_message u c m1 w = (Exc e, wX)) as E1.
  { unfold add_message. apply (try_reraise _ (fun e => py "Error adding message: " ++ e)).
    apply bind_raise. unfold chat_history_insert_one. by apply mongo_call_fault. }
  set (m2 := mkMessage (py "assistant")
               (py "I apologize, but I encountered an error: " ++ e) (utcnow wX)).
  destruct (add_message_step u c m2 wX l n) as (w2 & E2 & _ & _ & _ & Hc2 & Hh2 & _);
    [done|done|done|done|].
  exists w2, (utcnow wX). split; [|split].
  - unfold process_conversation.
    rewrite (try_exc _ _ w wX e).
    + eapply bind_step; [|reflexivity].
      apply try_ok. eapply bind_step; [reflexivity|cbn beta]. exact E2.
    + eapply bind_step; [reflexivity|cbn beta]. fold m1.
      apply bind_raise. exact E1.
  - by left.
  - by rewrite Hh2.
Qed.

(** X20. The chat endpoint always answers: whatever the agent does and
    whichever store calls fail, it returns a text and never reports an
    error to its caller. *)
Theorem chat_endpoint_always_answers (u c text : pystr) (w : world) :
  exists reply, fst (chat_endpoint agent_ainvoke utcnow u c text w) = Ok reply.
Proof.
  apply total_try_body. apply total_bind; [apply total_logger|]. intros _.
  apply total_bind; [apply process_conversation_total|]. intros response.
  apply total_bind; [apply total_logger|]. intros _. apply total_ret.
Qed.

End TurnProofs.

(** *** Searching the memory *)

Lemma get_context_fault u c (w : world) (i : nat) (e : pystr) (fs : list (option pystr)) :
  (i < 4)%nat ->
  faults w = replicate i None ++ Some e :: fs ->
  exists w', get_context_for_search u c w = (Ok empty_context, w').
Proof.
  intros Hi Hf.
  assert (forall body : M context, raises body w ->
            exists w', try_except body
                         (fun e => logger ERROR (py "Error getting context: " ++ e) ;;;
                                   ret empty_context) w
                       = (Ok empty_context, w')) as Htry.
  { intros body (e' & wX & E). eexists. unfold try_except. rewrite E. reflexivity. }
  unfold get_context_for_search. apply Htry.
  rewrite get_key_short, get_key_summary, get_key_long, get_key_chat.
  destruct i as [|[|[|[|i]]]]; [| | | |lia]; cbn [replicate app] in Hf;
    repeat
      match goal with
      | |- raises (bind (lift (Ok _)) _) _ => apply raises_bind_lift; cbn beta
      | |- raises (bind (redis_call _) _) _ =>
          first
            [ eapply raises_bind_fault; wsimpl; first [exact Hf|reflexivity]
            | eapply raises_bind_next;
              [wsimpl; first [exact Hf|reflexivity]|intros ? ?; cbn beta] ]
      end.
Qed.

Lemma get_context_llm_calls u c : keeps (same llm_calls) (get_context_for_search u c).
Proof. unfold get_context_for_search. keeps_tac. Qed.

Section SearchProofs.

Variable item_error : json -> pystr -> pystr.

Lemma keeps_map_m (R : world -> world -> Prop) `{!PreOrder R} {A B : Type}
    (f : A -> M B) (l : list A) :
  (forall x, keeps R (f x)) -> keeps R (map_m f l).
Proof.
  intros Hf. induction l as [|x l IH]; cbn [map_m].
  - by apply keeps_ret.
  - apply keeps_bind; [done|apply Hf|]. intros y.
    apply keeps_bind; [done|apply IH|]. intros ys. by apply keeps_ret.
Qed.

Lemma db_search_keeps (R : world -> world -> Prop) `{!PreOrder R} (q u c : pystr) :
  keeps R (get_context_for_search u c) ->
  (forall p, keeps R (llm_ainvoke p)) ->
  keeps R (db_search item_error q u c).
Proof.
  intros Hctx Hllm. unfold db_search.
  apply keeps_try; [done| |intros e; by apply keeps_ret].
  apply keeps_bind; [done|exact Hctx|]. intros ctx.
  apply keeps_bind; [done| |intros recent].
  - destruct (short_term_messages ctx); [by apply keeps_ret|].
    apply keeps_bind; [done| |intros lines; by apply keeps_ret].
    apply keeps_map_m; [done|]. intros msg. unfold message_line.
    repeat case_match; first [by apply keeps_ret|by apply keeps_raise].
  - cbn zeta. destruct (recent ++ _); [by apply keeps_ret|apply Hllm].
Qed.

(** X21. Searching the memory never raises and never writes: whichever
    store or model calls fail, it returns a text, and the keyspace and the
    three durable collections are as before. *)
Theorem search_never_raises_nor_writes (q u c : pystr) (w : world) :
  (exists r, fst (db_search item_error q u c w) = Ok r) /\
  redis (snd (db_search item_error q u c w)) = redis w /\
  chat_history (snd (db_search item_error q u c w)) = chat_history w /\
  short_term_memory (snd (db_search item_error q u c w)) = short_term_memory w /\
  long_term_memory (snd (db_search item_error q u c w)) = long_term_memory w.
Proof.
  split; [apply total_try_handler; intros e; apply total_ret|].
  split; [apply frame_nil_redis|repeat split]; revert w;
    match goal with
    | |- forall w, ?f (snd _) = _ => change (keeps (same f) (db_search item_error q u c))
    | |- _ => change (keeps (frame []) (db_search item_error q u c))
    end;
    (apply db_search_keeps;
     [typeclasses eauto|unfold get_context_for_search; keeps_tac|intros p; keeps_leaf]).
Qed.

(** X22. A failed read looks like an empty memory: when any of the four
    store reads behind the search fails, the search answers that there is
    no relevant information, without an error text and without calling the
    model. *)
Theorem failed_read_looks_like_empty_memory (q u c : pystr) (w : world) (i : nat)
    (e : pystr) (fs : list (option pystr)) :
  (i < 4)%nat ->
  faults w = replicate i None ++ Some e :: fs ->
  fst (db_search item_error q u c w)
  = Ok (py "No relevant information found in memory.") /\
  llm_calls (snd (db_search item_error q u c w)) = llm_calls w.
Proof.
  intros Hi Hf. destruct (get_context_fault u c w i e fs Hi Hf) as [w' E].
  pose proof (get_context_llm_calls u c w) as Hc. rewrite E in Hc.
  unfold db_search, try_except, bind. rewrite E. cbn. exact (conj eq_refl Hc).
Qed.

Lemma message_lines_run `{!JsonLaws} (ms : list Message) (w : world) :
  map_m (message_line item_error) (msg_data_of <$> ms) w
  = (Ok ((fun m => py "- " ++ line_of m) <$> ms), w).
Proof.
  induction ms as [|m ms IH]; [done|].
  cbn [fmap list_fmap map_m]. cbn [fmap list_fmap] in IH.
  eapply bind_step.
  { unfold message_line, msg_data_of. rewrite item_role, item_content. reflexivity. }
  eapply bind_step; [exact IH|reflexivity].
Qed.

(** X23. What the search sends to the model when the window is not empty:
    one prompt, made of the query and of the window's turns, the summary
    and the long-term points under their headings; the recent-history
    buffer is read but not used. The model's reply is returned as it is,
    and a failure of the model becomes an error text, not an exception. *)
Theorem search_prompt_of_memory `{!JsonLaws} (q u c : pystr) (w : world)
    (ms : list Message) (s : pystr) (pts b : list pystr) :
  faults w = [] ->
  list_at (redis w) (short_key u c) (msg_json_of <$> ms) ->
  str_at (redis w) (summary_key u c) s ->
  list_at (redis w) (long_term_key u) pts ->
  list_at (redis w) (chat_key u c) b ->
  ms <> [] ->
  exists w', db_search item_error q u c w
    = (Ok match head (llm_script w) with
          | Some (Some reply) => reply
          | _ => py "Error searching memory: " ++ py "language model call failed"
          end, w') /\
    llm_calls w' = llm_calls w
      ++ [db_search_prompt q
            (join [nl] (py "Recent Messages:"
                        :: ((fun m => py "- " ++ line_of m) <$> ms)
                        ++ summary_part s ++ points_part pts))].
Proof.
  intros Hf Hl Hs Hp Hb Hne.
  pose proof (get_context_run u c w _ pts b s Hf Hl Hs Hp Hb) as Ec.
  rewrite loads_msgs in Ec.
  destruct ms as [|m ms]; [done|].
  set (lines := (fun m => py "- " ++ line_of m) <$> m :: ms).
  set (prompt := db_search_prompt q _).
  unfold db_search, try_except.
  rewrite (bind_step _ _ w w _ (llm_ainvoke prompt w) Ec).
  - unfold llm_ainvoke.
    destruct (llm_script w) as [|[reply|] rest]; cbn [head]; eexists; split;
      first [reflexivity|by wsimpl].
  - cbn [short_term_messages slider_summary long_term_points fmap list_fmap].
    eapply bind_step.
    { eapply bind_step; [apply (message_lines_run (m :: ms))|reflexivity]. }
    reflexivity.
Qed.

End SearchProofs.

(** *** The cost of a run *)

Lemma requests_step (n : Z) :
  0 <= n ->
  requests_after (n + 1) - requests_after n
  = (if ((n + 1) mod 4 =? 0) && (8 <=? n + 1) then 1 else 0)
    + (if (n + 1) mod 8 =? 0 then 1 else 0).
Proof.
  intros Hn. unfold requests_after.
  destruct (Z.eqb_spec ((n + 1) mod 4) 0), (Z.eqb_spec ((n + 1) mod 8) 0),
    (Z.leb_spec 8 (n + 1)); cbn [andb]; Z.div_mod_to_equations; lia.
Qed.

Lemma calls_msgs_length (turns : list Message) :
  forall (n : Z) (ms : list Message),
  0 <= n -> Z.of_nat (length ms) = Z.min n 8 ->
  Z.of_nat (length (calls_msgs n ms turns))
  = requests_after (n + Z.of_nat (length turns)) - requests_after n.
Proof.
  induction turns as [|t ts IH]; intros n ms Hn Hms.
  - cbn [calls_msgs length]. rewrite Z.add_0_r. lia.
  - cbn [calls_msgs]. rewrite !length_app.
    assert (Z.of_nat (length (take 8 (t :: ms))) = Z.min (n + 1) 8) as Hms'.
    { rewrite length_take. cbn [length]. lia. }
    rewrite !Nat2Z.inj_add, (IH (n + 1) (take 8 (t :: ms))) by (done || lia).
    pose proof (requests_step n Hn) as Hstep.
    replace (n + Z.of_nat (length (t :: ts))) with (n + 1 + Z.of_nat (length ts))
      by (cbn [length]; lia).
    assert (Z.of_nat (length (if (n + 1) mod 4 =? 0
                               then slider_calls_msgs (take 8 (t :: ms)) else []))
            = if ((n + 1) mod 4 =? 0) && (8 <=? n + 1) then 1 else 0) as ->.
    { destruct ((n + 1) mod 4 =? 0) eqn:E4; [|done]. cbn [andb].
      unfold slider_calls_msgs.
      destruct (drop 4 (take 8 (t :: ms))) as [|x older] eqn:Ed;
        apply (f_equal length) in Ed; rewrite length_drop in Ed; cbn [length] in *;
        destruct (Z.leb_spec 8 (n + 1)); try done;
        apply Z.eqb_eq in E4; Z.div_mod_to_equations; lia. }
    assert (Z.of_nat (length (if (n + 1) mod 8 =? 0
                               then long_term_calls_msgs (take 8 (t :: ms)) else []))
            = if (n + 1) mod 8 =? 0 then 1 else 0) as ->.
    { destruct ((n + 1) mod 8 =? 0); [|done]. unfold long_term_calls_msgs.
      rewrite take_take. by change (take (8 `min` 8) (t :: ms)) with (t :: take 7 ms). }
    lia.
Qed.

(** X24. What a run costs: ingesting [n] turns into a new conversation
    makes [max (n/4 - 1) 0] summary requests and [n/8] extraction requests
    to the model, and no others. (The fourth ingestion asks for no summary:
    nothing is older than the window yet.) *)
Theorem model_requests_of_a_run `{!JsonLaws} (u c : pystr) (t : Message)
    (ts : list Message) (w : world) :
  faults w = [] ->
  redis w !! chat_key u c = None ->
  redis w !! count_key u c = None ->
  Z.of_nat (length (t :: ts)) <= int64_max ->
  exists w', ingest_all u c (t :: ts) w = (Ok tt, w') /\
    Z.of_nat (length (llm_calls w'))
    = Z.of_nat (length (llm_calls w)) + requests_after (Z.of_nat (length (t :: ts))).
Proof.
  intros Hf Hb Hc Hmax.
  destruct (ingest_all_spec u c ts t w [] 0) as (w' & E & _ & _ & _ & _ & _ & Hcalls);
    [done|by right|by right|lia|lia|].
  exists w'. split; [done|].
  rewrite Hcalls, length_app, Nat2Z.inj_add.
  change (@nil pystr) with (msg_json_of <$> @nil Message).
  rewrite calls_spec_msgs, calls_msgs_length by done.
  change (requests_after 0) with 0. by rewrite Z.add_0_l, Z.sub_0_r.
Qed.
End Proofs.

(** ** Closed instances

    The theorems applied to concrete conversations, with the length-prefixed
    serializer in the place of the [json] module. *)

Lemma wire_laws : @JsonLaws wire.
Proof.
  split; intros r c t; [|reflexivity..].
  cbn [json_loads json_dumps msg_dict wire]. unfold wire_loads, wire_dumps.
  rewrite !Nat2N.id.
  assert ((length r + length c <=? length (r ++ c ++ t))%nat = true) as ->.
  { apply Nat.leb_le. rewrite !length_app. lia. }
  rewrite take_app_length, drop_app_length, take_app_length.
  rewrite app_assoc, drop_app_length'; [done|]. by rewrite length_app.
Qed.

#[local] Existing Instance wire.
#[local] Existing Instance wire_laws.

Lemma short_term_window_rebuilt_witness :
  exists w' buffer,
    ingest_all demo_user demo_conv five_turns empty_world = (Ok tt, w') /\
    redis w' !! chat_key demo_user demo_conv = Some (RList buffer) /\
    redis w' !! short_key demo_user demo_conv = Some (RList (reverse (take 4 buffer))) /\
    reverse (take 4 buffer) = msg_json_of <$> drop (length five_turns - 4) five_turns.
Proof.
  apply (short_term_window_rebuilt demo_user demo_conv five_turns empty_world).
  - discriminate.
  - reflexivity.
  - reflexivity.
  - reflexivity.
  - vm_compute. discriminate.
Defined.

(** A window of four brought back by login is replaced, not extended, by
    the next ingestion: the buffer is new, so the window is that one turn. *)
Example window_is_rebuilt_after_login :
  let old := mkSnapshot (msg_dict (py "human") (py "old") <$> [py "1"; py "2"; py "3"; py "4"])
                        [] in
  let w := mkWorld ∅ [] {[ (demo_user, demo_conv) := old ]} [] [] [] [] [] in
  let w1 := snd (login_endpoint demo_user demo_conv w) in
  let w2 := snd (add_message demo_user demo_conv (turn 5) w1) in
  redis w1 !! short_key demo_user demo_conv
    = Some (RList (json_dumps <$> s_messages old)) /\
  redis w2 !! short_key demo_user demo_conv = Some (RList [msg_json_of (turn 5)]).
Proof. vm_compute. repeat split. Qed.

Lemma recent_buffer_bounded_witness :
  (exists w',
     ingest_all demo_user demo_conv eight_turns empty_world = (Ok tt, w') /\
     list_at (redis w') (chat_key demo_user demo_conv)
             (take 8 (reverse (msg_json_of <$> eight_turns))) /\
     length (take 8 (reverse (msg_json_of <$> eight_turns)))
       = (length eight_turns `min` 8)%nat) /\
  (exists w' l,
     run_ops demo_user demo_conv [Ingest (turn 1); Login; GetContext; Logout] empty_world
       = (Ok tt, w') /\
     list_at (redis w') (chat_key demo_user demo_conv) l /\ (length l <= 8)%nat) /\
  (forall (w0 w' : world) (msg : Message),
     add_message demo_user demo_conv msg w0 = (Ok tt, w') ->
     buffer_bounded demo_user demo_conv w').
Proof.
  apply (recent_buffer_bounded demo_user demo_conv eight_turns
           [Ingest (turn 1); Login; GetContext; Logout] empty_world).
  - reflexivity.
  - reflexivity.
  - reflexivity.
  - vm_compute. discriminate.
  - vm_compute. discriminate.
Defined.

(** Eleven turns: the three oldest have left the buffer. *)
Example eleven_turns_keep_eight :
  redis (snd (ingest_all demo_user demo_conv
                (turn <$> [1; 2; 3; 4; 5; 6; 7; 8; 9; 10; 11]%N) empty_world))
    !! chat_key demo_user demo_conv
  = Some (RList (msg_json_of <$> (turn <$> [11; 10; 9; 8; 7; 6; 5; 4]%N))).
Proof. vm_compute. reflexivity. Qed.

Lemma message_count_exact_witness :
  (exists w',
     ingest_all demo_user demo_conv five_turns empty_world = (Ok tt, w') /\
     count_at (redis w') (count_key demo_user demo_conv) (Z.of_nat (length five_turns))) /\
  (exists w',
     run_ops demo_user demo_conv [Ingest (turn 1); Logout; Login; Ingest (turn 2)] empty_world
       = (Ok tt, w') /\
     count_at (redis w') (count_key demo_user demo_conv)
              (count_model 0 [Ingest (turn 1); Logout; Login; Ingest (turn 2)])) /\
  (forall (w0 : world) (attempts : list Message),
     redis w0 !! count_key demo_user demo_conv = None ->
     count_at (redis (snd (attempt_all demo_user demo_conv attempts w0)))
              (count_key demo_user demo_conv)
              (Z.of_nat (fst (attempt_all demo_user demo_conv attempts w0)))).
Proof.
  apply (message_count_exact demo_user demo_conv five_turns
           [Ingest (turn 1); Logout; Login; Ingest (turn 2)] empty_world).
  - reflexivity.
  - reflexivity.
  - reflexivity.
  - vm_compute. discriminate.
  - vm_compute. discriminate.
Defined.

(** Three attempts, the second of which loses its buffer push: two counted. *)
Example attempts_with_a_failure :
  let r := attempt_all demo_user demo_conv [turn 1; turn 2; turn 3]
             (mkWorld ∅ [] ∅ []
                [None; None; None; None; None; None; None; None; Some (py "redis down")]
                [] [] []) in
  fst r = 2%nat /\
  redis (snd r) !! count_key demo_user demo_conv = Some (RStr (py "2")) /\
  length (chat_history (snd r)) = 3%nat.
Proof. vm_compute. repeat split. Qed.

Lemma eight_turns_escalation_witness :
  (exists w',
     ingest_all demo_user demo_conv eight_turns empty_world = (Ok tt, w') /\
     llm_calls w' = llm_calls empty_world ++
       [slider_prompt (line_of <$> take 4 eight_turns);
        long_term_prompt (line_of <$> eight_turns)] /\
     chat_history w' = chat_history empty_world
                       ++ (chat_doc_of demo_user demo_conv <$> eight_turns)) /\
  (forall (w0 : world) (l : list pystr),
     faults w0 = [] -> list_at (redis w0) (chat_key demo_user demo_conv) l ->
     llm_calls (snd (_generate_slider_summary demo_user demo_conv w0))
       = llm_calls w0 ++ slider_calls_of l /\
     (drop 4 l = [] -> _generate_slider_summary demo_user demo_conv w0 = (Ok tt, w0))).
Proof.
  apply (eight_turns_escalation demo_user demo_conv eight_turns empty_world).
  - reflexivity.
  - reflexivity.
  - reflexivity.
  - reflexivity.
Defined.

(** C4, as stated, fails: the summary request made while eight turns are
    ingested is not built from turns 5-8. *)
Lemma summary_input_is_not_turns_5_to_8 :
  llm_calls (snd (ingest_all demo_user demo_conv eight_turns empty_world))
  <> [slider_prompt (line_of <$> drop 4 eight_turns);
      long_term_prompt (line_of <$> eight_turns)].
Proof.
  intros E. vm_compute in E. discriminate E.
Qed.

Lemma chat_log_failure_aborts_witness :
  exists w',
    add_message demo_user demo_conv (turn 2) (demo_world [Some (py "mongo down")] [])
      = (Exc (py "mongo down"), w') /\
    redis w' = redis (demo_world [Some (py "mongo down")] []) /\
    chat_history w' = chat_history (demo_world [Some (py "mongo down")] []) /\
    logs w' = logs (demo_world [Some (py "mongo down")] [])
              ++ [(ERROR, py "Error adding message: " ++ py "mongo down")].
Proof.
  apply (chat_log_failure_aborts demo_user demo_conv (turn 2)
           (demo_world [Some (py "mongo down")] []) (py "mongo down") []).
  reflexivity.
Defined.

(** C6, as stated, fails: the chat-log append succeeds, the buffer push
    raises, and [add_message] raises the same exception to its caller. *)
Lemma push_failure_reaches_the_caller :
  fst (add_message demo_user demo_conv (turn 2)
         (demo_world [None; Some (py "redis down")] []))
  = Exc (py "redis down").
Proof. vm_compute. reflexivity. Qed.

(** The counter increment is the eighth store call of an ingestion into a
    buffer that already holds a turn; the rebuild's delete is the second
    store call of the rebuild. *)
Lemma hot_store_failures_in_ingestion_witness :
  let w := demo_world [None; None; None; None; None; None; None; Some (py "redis down")] [] in
  let w1 := snd (before_count demo_user demo_conv (turn 2) w) in
  let w2 := snd (redis_call (Redis.incr (count_key demo_user demo_conv)) w1) in
  let v := demo_world [None; Some (py "redis down")] [] in
  add_message demo_user demo_conv (turn 2) w
  = (Exc (py "redis down"),
     set_logs (logs w2 ++ [(ERROR, py "Error adding message: " ++ py "redis down")]) w2) /\
  last (logs (snd (_update_short_term_memory demo_user demo_conv v)))
  = Some (ERROR, py "Error updating short-term memory: " ++ py "redis down").
Proof.
  pose proof (hot_store_failures_in_ingestion demo_agent demo_clock
                demo_user demo_conv (turn 2) (py "hi")) as (_ & Hlog & _ & _ & Hcount & _).
  split.
  - apply Hcount with (w1 := snd (before_count demo_user demo_conv (turn 2)
                                    (demo_world [None; None; None; None; None; None; None;
                                                 Some (py "redis down")] []))).
    + vm_compute. reflexivity.
    + vm_compute. reflexivity.
  - apply (proj1 (Hlog (demo_world [None; Some (py "redis down")] []) 1%nat
                       (py "redis down") [] eq_refl)).
    vm_compute. reflexivity.
Defined.

Lemma long_term_batch_of_five_witness :
  let bullets := bullet_points (strip demo_reply) in
  let points := extract_points (strip demo_reply) in
  lines_of (strip demo_reply) (split_on nl (strip demo_reply)) /\
  (forall lines, lines_of (strip demo_reply) lines -> bullets = spec_kept_points lines) /\
  length points = 5%nat /\
  points = take 5 (bullets ++ drop (length bullets) five_placeholders) /\
  exists w', _generate_long_term_memory demo_user demo_conv
               (demo_world [] [Some demo_reply]) = (Ok tt, w') /\
    redis w' !! long_term_key demo_user = Some (RList ([] ++ points)) /\
    long_term_memory w'
      = long_term_memory (demo_world [] [Some demo_reply])
        ++ [mkBatch demo_user points demo_conv].
Proof.
  eapply (long_term_batch_of_five demo_user demo_conv (demo_world [] [Some demo_reply])
            [@msg_json_of wire (turn 1)] [] demo_reply []).
  - reflexivity.
  - left. vm_compute. reflexivity.
  - vm_compute. reflexivity.
  - reflexivity.
  - right. split; vm_compute; reflexivity.
Defined.

(** The reply of the examples has four lines, two of them bullet-marked. *)
Example kept_points_demo :
  split_on nl (strip demo_reply)
  = [py "Here you are:"; py "- likes tea"; py "-   lives in Oslo  "; py "not a bullet"] /\
  spec_kept_points (split_on nl (strip demo_reply)) = [py "likes tea"; py "lives in Oslo"].
Proof. vm_compute. split; reflexivity. Qed.

Example extract_points_demo :
  extract_points (strip demo_reply)
  = [py "likes tea"; py "lives in Oslo"; py "Context point 3";
     py "Context point 4"; py "Context point 5"].
Proof. vm_compute. reflexivity. Qed.

Example extract_points_round_bullets :
  extract_points ([8226; 32]%N ++ py "a" ++ [nl] ++ py "- b" ++ [nl] ++ py "-c" ++ [nl]
                  ++ py "  - d" ++ [nl] ++ py "- e" ++ [nl] ++ py "- f" ++ [nl] ++ py "- g")
  = [py "a"; py "b"; py "d"; py "e"; py "f"].
Proof. vm_compute. reflexivity. Qed.

Lemma logout_login_restores_witness :
  (exists w1 w2,
     logout_endpoint demo_user demo_conv (demo_world [] []) = (Ok tt, w1) /\
     login_endpoint demo_user demo_conv w1 = (Ok tt, w2) /\
     list_at (redis w2) (short_key demo_user demo_conv) [@msg_json_of wire (turn 1)] /\
     str_at (redis w2) (summary_key demo_user demo_conv) (py "earlier talk") /\
     redis w2 !! chat_key demo_user demo_conv = None /\
     redis w2 !! count_key demo_user demo_conv = None /\
     redis w2 !! long_term_key demo_user
       = redis (demo_world [] []) !! long_term_key demo_user /\
     long_term_memory w2 = long_term_memory (demo_world [] [])) /\
  (forall (w0 : world) (k : pystr),
     k ∉ [short_key demo_user demo_conv; summary_key demo_user demo_conv] ->
     redis (snd (login_endpoint demo_user demo_conv w0)) !! k = redis w0 !! k) /\
  (forall w0 : world,
     faults w0 = [] -> short_term_memory w0 !! (demo_user, demo_conv) = None ->
     redis (snd (login_endpoint demo_user demo_conv w0)) = redis w0).
Proof.
  apply (logout_login_restores demo_user demo_conv (demo_world [] [])
           [@msg_json_of wire (turn 1)] (py "earlier talk")).
  - reflexivity.
  - left. vm_compute. reflexivity.
  - left. vm_compute. reflexivity.
  - constructor; [|constructor]. eexists. split; vm_compute; reflexivity.
  - left. discriminate.
Defined.

(** Why the window or the summary must be non-empty: with both empty no
    snapshot is written, and the login brings back the one of an earlier
    session. *)
Example stale_snapshot_comes_back :
  let old := mkSnapshot [msg_dict (py "human") (py "old") (py "t")] (py "old summary") in
  let w := mkWorld ∅ [] {[ (demo_user, demo_conv) := old ]} [] [] [] [] [] in
  let w2 := snd (login_endpoint demo_user demo_conv
                   (snd (logout_endpoint demo_user demo_conv w))) in
  redis w !! short_key demo_user demo_conv = None /\
  redis w2 !! short_key demo_user demo_conv
    = Some (RList [json_dumps (msg_dict (py "human") (py "old") (py "t"))]) /\
  redis w2 !! summary_key demo_user demo_conv = Some (RStr (py "old summary")).
Proof. vm_compute. repeat split. Qed.

(** C8, as stated, fails: after one ingestion the buffer and the counter
    are there; after logout and login they are gone. *)
Lemma logout_deletes_buffer_and_counter :
  let w1 := snd (add_message demo_user demo_conv (turn 1) empty_world) in
  let w2 := snd (login_endpoint demo_user demo_conv
                   (snd (logout_endpoint demo_user demo_conv w1))) in
  redis w1 !! chat_key demo_user demo_conv = Some (RList [msg_json_of (turn 1)]) /\
  redis w2 !! chat_key demo_user demo_conv = None /\
  redis w1 !! count_key demo_user demo_conv = Some (RStr (py "1")) /\
  redis w2 !! count_key demo_user demo_conv = None.
Proof. vm_compute. repeat split. Qed.

Lemma context_reads_degrade_together_witness :
  total (get_context_for_search demo_user demo_conv) /\
  (exists w', get_context_for_search demo_user demo_conv
                (demo_world [None; Some (py "redis down")] [])
              = (Ok empty_context, w')) /\
  (forall (w0 : world) (l pts b : list pystr) (s : pystr),
     faults w0 = [] ->
     list_at (redis w0) (short_key demo_user demo_conv) l ->
     str_at (redis w0) (summary_key demo_user demo_conv) s ->
     list_at (redis w0) (long_term_key demo_user) pts ->
     list_at (redis w0) (chat_key demo_user demo_conv) b ->
     get_context_for_search demo_user demo_conv w0
     = (Ok (mkContext (omap json_loads l) s pts
                      (omap json_loads (reverse (take 8 b)))), w0)).
Proof.
  apply (context_reads_degrade_together demo_user demo_conv
           (demo_world [None; Some (py "redis down")] []) 1 (py "redis down") []).
  - lia.
  - reflexivity.
Defined.

(** C9, as stated, fails: the short-term window is read without error and
    holds a turn that decodes, the summary read raises, and the result has
    an empty short-term list all the same. *)
Lemma one_failed_read_empties_every_field :
  let w := demo_world [None; Some (py "redis down")] [] in
  fst (Redis.lrange (short_key demo_user demo_conv) 0 (-1) (redis w))
    = Ok [msg_json_of (turn 1)] /\
  omap json_loads [msg_json_of (turn 1)] = [msg_dict (role (turn 1)) (content (turn 1))
                                                     (timestamp (turn 1))] /\
  fst (get_context_for_search demo_user demo_conv w) = Ok empty_context.
Proof. vm_compute. repeat split. Qed.

Lemma logout_clears_after_failed_snapshot_witness :
  exists w',
    logout_endpoint demo_user demo_conv
      (demo_world [None; None; Some (py "mongo down")] []) = (Ok tt, w') /\
    short_term_memory w'
      = short_term_memory (demo_world [None; None; Some (py "mongo down")] []) /\
    redis w' !! short_key demo_user demo_conv = None /\
    redis w' !! summary_key demo_user demo_conv = None /\
    redis w' !! chat_key demo_user demo_conv = None /\
    redis w' !! count_key demo_user demo_conv = None /\
    (ERROR, py "Error saving short-term memory: " ++ py "mongo down") ∈ logs w'.
Proof.
  apply (logout_clears_after_failed_snapshot demo_user demo_conv
           (demo_world [None; None; Some (py "mongo down")] [])
           [@msg_json_of wire (turn 1)] (py "earlier talk") (py "mongo down")).
  - reflexivity.
  - left. vm_compute. reflexivity.
  - left. vm_compute. reflexivity.
  - vm_compute. discriminate.
Defined.

(** ** Closed instances of the further properties *)

Lemma key_kinds_never_collide_witness :
  short_key demo_user demo_conv <> count_key demo_user (py "C:x").
Proof.
  apply (key_kinds_never_collide (py "short_term") (py "message_count")
           demo_user demo_user (Some demo_conv) (Some (py "C:x"))).
  - reflexivity.
  - reflexivity.
  - intros E. vm_compute in E. discriminate E.
Defined.

Lemma keys_of_colon_free_users_are_injective_witness :
  demo_user = demo_user /\ (py "chat_history" <> py "long_term" -> demo_conv = demo_conv).
Proof.
  apply (keys_of_colon_free_users_are_injective (py "chat_history")
           demo_user demo_user demo_conv demo_conv (chat_key demo_user demo_conv)).
  - change (58%N ∉ [85%N]). rewrite not_elem_of_cons.
    split; [discriminate|apply not_elem_of_nil].
  - change (58%N ∉ [85%N]). rewrite not_elem_of_cons.
    split; [discriminate|apply not_elem_of_nil].
  - reflexivity.
  - reflexivity.
Defined.

Lemma colon_moves_between_identifiers_witness :
  _get_redis_key (py "chat_history") (py "a" ++ py ":" ++ py "b") (Some (py "c"))
  = _get_redis_key (py "chat_history") (py "a") (Some (py "b" ++ py ":" ++ py "c")).
Proof.
  apply (colon_moves_between_identifiers (py "chat_history") (py "a") (py "b") (py "c")).
  intros E. vm_compute in E. discriminate E.
Defined.

(** The buffer push fails after the row was logged: the call raises, and
    the row is in the log. *)
Lemma turn_is_logged_first_witness :
  let w := demo_world [None; Some (py "redis down")] [] in
  fst (add_message demo_user demo_conv (turn 2) w) = Exc (py "redis down") /\
  chat_history (snd (add_message demo_user demo_conv (turn 2) w))
  = chat_history w ++ [chat_doc_of demo_user demo_conv (turn 2)].
Proof.
  split; [vm_compute; reflexivity|].
  apply (turn_is_logged_first demo_user demo_conv (turn 2)
           (demo_world [None; Some (py "redis down")] [])).
  reflexivity.
Defined.

Lemma summary_is_the_stripped_reply_witness :
  exists w',
    _generate_slider_summary demo_user demo_conv
      (demo_full_world [] [Some (py "  they talked  "); None]) = (Ok tt, w') /\
    redis w' = <[summary_key demo_user demo_conv := RStr (strip (py "  they talked  "))]>
                 (redis (demo_full_world [] [Some (py "  they talked  "); None])) /\
    llm_script w' = [None].
Proof.
  apply (summary_is_the_stripped_reply demo_user demo_conv
           (demo_full_world [] [Some (py "  they talked  "); None])
           (reverse (msg_json_of <$> eight_turns)) (py "  they talked  ") [None]).
  - reflexivity.
  - left. apply lookup_insert_eq.
  - vm_compute. discriminate.
  - reflexivity.
Defined.

Lemma model_failure_changes_nothing_witness :
  let w := demo_full_world [] [None] in
  redis (snd (_generate_slider_summary demo_user demo_conv w)) = redis w /\
  redis (snd (_generate_long_term_memory demo_user demo_conv w)) = redis w /\
  long_term_memory (snd (_generate_long_term_memory demo_user demo_conv w))
  = long_term_memory w.
Proof.
  apply (model_failure_changes_nothing demo_user demo_conv (demo_full_world [] [None])).
  intros reply E. discriminate E.
Defined.

Lemma partial_extraction_stays_in_hot_list_witness :
  exists w',
    _generate_long_term_memory demo_user demo_conv
      (demo_full_world [None; None; None; Some (py "redis down")] [Some demo_reply])
    = (Ok tt, w') /\
    list_at (redis w') (long_term_key demo_user)
            ([] ++ take 2 (extract_points (strip demo_reply))) /\
    long_term_memory w'
    = long_term_memory
        (demo_full_world [None; None; None; Some (py "redis down")] [Some demo_reply]).
Proof.
  apply (partial_extraction_stays_in_hot_list demo_user demo_conv
           (demo_full_world [None; None; None; Some (py "redis down")] [Some demo_reply])
           (reverse (msg_json_of <$> eight_turns)) [] demo_reply (py "redis down") [] [] 2).
  - reflexivity.
  - lia.
  - left. apply lookup_insert_eq.
  - vm_compute. discriminate.
  - right. split; [|reflexivity]. vm_compute. reflexivity.
  - reflexivity.
Defined.

Lemma context_after_ingestion_witness :
  exists w1 ctx,
    ingest_all demo_user demo_conv (turn 1 :: (turn <$> [2; 3; 4; 5]%N)) empty_world
      = (Ok tt, w1) /\
    get_context_for_search demo_user demo_conv w1 = (Ok ctx, w1) /\
    short_term_messages ctx
      = msg_data_of <$> drop (length (turn 1 :: (turn <$> [2; 3; 4; 5]%N)) - 4)
                             (turn 1 :: (turn <$> [2; 3; 4; 5]%N)) /\
    recent_history ctx
      = msg_data_of <$> drop (length (turn 1 :: (turn <$> [2; 3; 4; 5]%N)) - 8)
                             (turn 1 :: (turn <$> [2; 3; 4; 5]%N)) /\
    [] `prefix_of` long_term_points ctx.
Proof.
  apply (context_after_ingestion demo_user demo_conv (turn 1) (turn <$> [2; 3; 4; 5]%N)
           empty_world [] []).
  - reflexivity.
  - reflexivity.
  - reflexivity.
  - right. split; reflexivity.
  - right. split; reflexivity.
  - vm_compute. discriminate.
Defined.

Lemma escalation_windows_witness :
  exists w1 w2,
    ingest_all demo_user demo_conv (turn <$> [1; 2; 3; 4; 5; 6; 7]%N) empty_world
      = (Ok tt, w1) /\
    add_message demo_user demo_conv (turn 8) w1 = (Ok tt, w2) /\
    llm_calls w2 = llm_calls w1
      ++ (if (Z.of_nat (length ((turn <$> [1; 2; 3; 4; 5; 6; 7]%N) ++ [turn 8])) mod 4 =? 0)
             && (8 <=? Z.of_nat (length ((turn <$> [1; 2; 3; 4; 5; 6; 7]%N) ++ [turn 8])))
          then [slider_prompt
                  (line_of <$> take 4
                     (drop (length ((turn <$> [1; 2; 3; 4; 5; 6; 7]%N) ++ [turn 8]) - 8)
                           ((turn <$> [1; 2; 3; 4; 5; 6; 7]%N) ++ [turn 8])))]
          else [])
      ++ (if Z.of_nat (length ((turn <$> [1; 2; 3; 4; 5; 6; 7]%N) ++ [turn 8])) mod 8 =? 0
          then [long_term_prompt
                  (line_of <$> drop (length ((turn <$> [1; 2; 3; 4; 5; 6; 7]%N)
                                             ++ [turn 8]) - 8)
                                    ((turn <$> [1; 2; 3; 4; 5; 6; 7]%N) ++ [turn 8]))]
          else []).
Proof.
  apply (escalation_windows demo_user demo_conv (turn <$> [1; 2; 3; 4; 5; 6; 7]%N) (turn 8)
           empty_world).
  - reflexivity.
  - reflexivity.
  - reflexivity.
  - vm_compute. discriminate.
Defined.

Lemma second_logout_keeps_the_snapshot_witness :
  exists w1 w2,
    logout_endpoint demo_user demo_conv (demo_world [] []) = (Ok tt, w1) /\
    logout_endpoint demo_user demo_conv w1 = (Ok tt, w2) /\
    short_term_memory w2 = short_term_memory w1 /\
    redis w2 = redis w1.
Proof.
  apply (second_logout_keeps_the_snapshot demo_user demo_conv (demo_world [] [])
           [msg_json_of (turn 1)] (py "earlier talk")).
  - reflexivity.
  - left. vm_compute. reflexivity.
  - left. vm_compute. reflexivity.
Defined.

Lemma login_twice_is_login_once_witness :
  exists w1 w2,
    login_endpoint demo_user demo_conv demo_snapshot_world = (Ok tt, w1) /\
    login_endpoint demo_user demo_conv w1 = (Ok tt, w2) /\
    redis w2 = redis w1.
Proof.
  apply (login_twice_is_login_once demo_user demo_conv demo_snapshot_world).
  reflexivity.
Defined.

Lemma restored_window_is_replaced_by_next_turn_witness :
  exists w1 w2 w3,
    logout_endpoint demo_user demo_conv (demo_world [] []) = (Ok tt, w1) /\
    login_endpoint demo_user demo_conv w1 = (Ok tt, w2) /\
    add_message demo_user demo_conv (turn 2) w2 = (Ok tt, w3) /\
    redis w3 !! short_key demo_user demo_conv = Some (RList [msg_json_of (turn 2)]) /\
    redis w3 !! chat_key demo_user demo_conv = Some (RList [msg_json_of (turn 2)]) /\
    redis w3 !! count_key demo_user demo_conv = Some (RStr (str_of_int 1)).
Proof.
  apply (restored_window_is_replaced_by_next_turn demo_user demo_conv (demo_world [] [])
           [msg_json_of (turn 1)] (py "earlier talk") (turn 2)).
  - reflexivity.
  - left. vm_compute. reflexivity.
  - left. vm_compute. reflexivity.
Defined.

Lemma failed_delete_ends_the_clearing_witness :
  exists w',
    clear_redis_on_logout demo_user demo_conv
      (demo_world [None; Some (py "redis down")] []) = (Ok tt, w') /\
    redis w' = foldl (fun m key => delete key m)
                 (redis (demo_world [None; Some (py "redis down")] []))
                 (take 1 [short_key demo_user demo_conv; summary_key demo_user demo_conv;
                          chat_key demo_user demo_conv; count_key demo_user demo_conv]).
Proof.
  apply (failed_delete_ends_the_clearing demo_user demo_conv
           (demo_world [None; Some (py "redis down")] []) 1 (py "redis down") []).
  - reflexivity.
  - lia.
Defined.

Lemma chat_turn_ingests_two_turns_witness :
  exists w' t2,
    process_conversation demo_agent demo_clock demo_user demo_conv (py "hi") empty_world
      = (Ok (py "hello"), w') /\
    count_at (redis w') (count_key demo_user demo_conv) (0 + 2) /\
    list_at (redis w') (chat_key demo_user demo_conv)
      (take 8 (msg_json_of (mkMessage (py "assistant") (py "hello") t2)
               :: msg_json_of (mkMessage (py "human") (py "hi") (demo_clock empty_world))
               :: [])) /\
    chat_history w' = chat_history empty_world
      ++ [mkChatDoc demo_user demo_conv (py "human") (py "hi") (demo_clock empty_world);
          mkChatDoc demo_user demo_conv (py "assistant") (py "hello") t2].
Proof.
  apply (chat_turn_ingests_two_turns demo_agent demo_clock demo_user demo_conv
           (py "hi") (py "hello") empty_world [] 0).
  - reflexivity.
  - right. split; reflexivity.
  - right. split; reflexivity.
  - lia.
  - vm_compute. discriminate.
  - intros w1 Hf. exists w1. repeat split. exact Hf.
Defined.

Lemma agent_failure_becomes_an_apology_witness :
  exists w' t2,
    process_conversation failing_agent demo_clock demo_user demo_conv (py "hi") empty_world
      = (Ok (py "I apologize, but I encountered an error: " ++ py "model unavailable"), w') /\
    count_at (redis w') (count_key demo_user demo_conv) (0 + 2) /\
    chat_history w' = chat_history empty_world
      ++ [mkChatDoc demo_user demo_conv (py "human") (py "hi") (demo_clock empty_world);
          mkChatDoc demo_user demo_conv (py "assistant")
            (py "I apologize, but I encountered an error: " ++ py "model unavailable") t2].
Proof.
  apply (agent_failure_becomes_an_apology failing_agent demo_clock demo_user demo_conv
           (py "hi") (py "model unavailable") empty_world [] 0).
  - reflexivity.
  - right. split; reflexivity.
  - right. split; reflexivity.
  - lia.
  - vm_compute. discriminate.
  - intros w1 Hf. exists w1. repeat split. exact Hf.
Defined.

Lemma rejected_user_turn_leaves_a_lone_apology_witness :
  exists w' t2,
    process_conversation demo_agent demo_clock demo_user demo_conv (py "hi")
      (demo_world [Some (py "mongo down")] [])
      = (Ok (py "I apologize, but I encountered an error: " ++ py "mongo down"), w') /\
    count_at (redis w') (count_key demo_user demo_conv) (0 + 1) /\
    chat_history w' = chat_history (demo_world [Some (py "mongo down")] [])
      ++ [mkChatDoc demo_user demo_conv (py "assistant")
            (py "I apologize, but I encountered an error: " ++ py "mongo down") t2].
Proof.
  apply (rejected_user_turn_leaves_a_lone_apology demo_agent demo_clock demo_user demo_conv
           (py "hi") (py "mongo down") (demo_world [Some (py "mongo down")] [])
           [msg_json_of (turn 1)] 0).
  - reflexivity.
  - left. vm_compute. reflexivity.
  - right. split; [|reflexivity]. vm_compute. reflexivity.
  - split; [lia|]. vm_compute. reflexivity.
Defined.

Lemma failed_read_looks_like_empty_memory_witness :
  let w := demo_world [None; Some (py "redis down")] [] in
  fst (db_search (fun _ key => key) (py "what did I say?") demo_user demo_conv w)
  = Ok (py "No relevant information found in memory.") /\
  llm_calls (snd (db_search (fun _ key => key) (py "what did I say?")
                    demo_user demo_conv w)) = llm_calls w.
Proof.
  apply (failed_read_looks_like_empty_memory (fun _ key => key) (py "what did I say?")
           demo_user demo_conv (demo_world [None; Some (py "redis down")] [])
           1 (py "redis down") []).
  - lia.
  - reflexivity.
Defined.

Lemma search_prompt_of_memory_witness :
  exists w',
    db_search (fun _ key => key) (py "what did I say?") demo_user demo_conv
      (demo_world [] [Some (py "an answer")])
    = (Ok match head (llm_script (demo_world [] [Some (py "an answer")])) with
          | Some (Some reply) => reply
          | _ => py "Error searching memory: " ++ py "language model call failed"
          end, w') /\
    llm_calls w' = llm_calls (demo_world [] [Some (py "an answer")])
      ++ [db_search_prompt (py "what did I say?")
            (join [nl] (py "Recent Messages:"
                        :: ((fun m => py "- " ++ line_of m) <$> [turn 1])
                        ++ summary_part (py "earlier talk") ++ points_part []))].
Proof.
  apply (search_prompt_of_memory (fun _ key => key) (py "what did I say?")
           demo_user demo_conv (demo_world [] [Some (py "an answer")])
           [turn 1] (py "earlier talk") [] [msg_json_of (turn 1)]).
  - reflexivity.
  - left. vm_compute. reflexivity.
  - left. vm_compute. reflexivity.
  - right. split; [|reflexivity]. vm_compute. reflexivity.
  - left. vm_compute. reflexivity.
  - discriminate.
Defined.

Lemma model_requests_of_a_run_witness :
  exists w',
    ingest_all demo_user demo_conv (turn 1 :: (turn <$> [2; 3; 4; 5; 6; 7; 8]%N)) empty_world
      = (Ok tt, w') /\
    Z.of_nat (length (llm_calls w'))
    = Z.of_nat (length (llm_calls empty_world))
      + requests_after (Z.of_nat (length (turn 1 :: (turn <$> [2; 3; 4; 5; 6; 7; 8]%N)))).
Proof.
  apply (model_requests_of_a_run demo_user demo_conv (turn 1) (turn <$> [2; 3; 4; 5; 6; 7; 8]%N)
           empty_world).
  - reflexivity.
  - reflexivity.
  - reflexivity.
  - vm_compute. discriminate.
Defined.
